(** * icp-scanner: ledger scanning scripts, embedded and checked against their specification

    The repository is a set of TypeScript scripts.  The parts modelled here are
    - [scanner.ts], which holds two scanners: the sequential one and the
      parallel one with reusable fetchers ([buildSegments], [handleBlock],
      [handleIcrcBlock]); both share the helpers [formatAmount], [memoToHex],
      [normalizeSub], [eqAccount], [extractAccount];
    - [api_scanner.ts], the REST scanner with [STRICT_SUBACCOUNT_MATCH];
    - [src/rosetta-flow-retriever.ts], for its own [formatAmount].

    A JavaScript [bigint] is a [Z].  A [number] that holds an integer is a [Z]
    as well, and the conversion [Number(bigint)] is written out with its
    rounding to 53 significant bits.  Strings are [string] (ASCII), byte
    arrays are [list Byte.byte].  An exception is an explicit [Thrown]
    outcome; a loop that need not end takes fuel.  What the scripts take from
    a library or from the network (the principal library, [Date], the ledger
    queries) is a parameter of the definitions that use it. *)

From Stdlib Require Import ZArith NArith List String Ascii Bool Lia.
Import ListNotations.

Local Open Scope Z_scope.

#[local] Set Warnings "-register-all".

(* ================================================================== *)
(** * Part I. Definitions *)
(* ================================================================== *)

(** ** Outcomes of a JavaScript computation *)

(** A call completes normally or throws.  Loops that need not end take a fuel
    argument and return an [option] of an outcome: [None] says that the fuel
    given did not suffice, not that the program stopped. *)
Inductive outcome (A : Type) : Type :=
| Done (a : A)            (* normal completion *)
| Thrown (e : string).    (* an exception left the function *)

Arguments Done {A} a.
Arguments Thrown {A} e.

(** ** JavaScript primitives used by the scripts *)

Module Js.

(** A [number] that holds an integer, or one of the infinities. *)
Inductive number : Type :=
  | Finite (z : Z)
  | PlusInfinity
  | MinusInfinity.

(** Rounding of a non-negative integer to the nearest double (53 significant
    bits, ties to even), as [Number(x)] does for a bigint [x]. *)
Definition round53 (x : Z) : Z :=
  let k := Z.log2 x + 1 in
  if k <=? 53 then x
  else
    let e := k - 53 in
    let q := Z.shiftr x e in
    let r := x mod 2 ^ e in
    let half := 2 ^ (e - 1) in
    let q' := if (half <? r) || ((r =? half) && Z.odd q) then q + 1 else q in
    Z.shiftl q' e.

(** [Number(x)] for a bigint [x]. *)
Definition Number_of_bigint (x : Z) : number :=
  let m := round53 (Z.abs x) in
  if 2 ^ 1024 <=? m
  then (if x <? 0 then MinusInfinity else PlusInfinity)
  else Finite (Z.sgn x * m).

(** [Math.min(a, b)] on such numbers. *)
Definition Math_min (a b : number) : number :=
  match a, b with
  | MinusInfinity, _ | _, MinusInfinity => MinusInfinity
  | PlusInfinity, y => y
  | x, PlusInfinity => x
  | Finite x, Finite y => Finite (Z.min x y)
  end.

(** [BigInt(n)] for a number: a RangeError on the infinities. *)
Definition BigInt_of_number (n : number) : option Z :=
  match n with
  | Finite z => Some z
  | _ => None
  end.

(** Truthiness of a number ([NaN] does not occur here). *)
Definition truthy (n : number) : bool :=
  match n with
  | Finite z => negb (z =? 0)
  | _ => true
  end.

(** [a < b] and [a > b] on numbers. *)
Definition ltb (a b : number) : bool :=
  match a, b with
  | _, MinusInfinity => false
  | MinusInfinity, _ => true
  | PlusInfinity, _ => false
  | _, PlusInfinity => true
  | Finite x, Finite y => x <? y
  end.

Definition gtb (a b : number) : bool := ltb b a.

(** *** Strings *)

Local Open Scope string_scope.
Local Open Scope Z_scope.

(** [s || d] for strings: the empty string is falsy. *)
Definition or_else (s d : string) : string :=
  match s with
  | EmptyString => d
  | _ => s
  end.

Fixpoint take (n : nat) (s : string) : string :=
  match n, s with
  | S n', String c s' => String c (take n' s')
  | _, _ => EmptyString
  end.

Fixpoint drop (n : nat) (s : string) : string :=
  match n, s with
  | S n', String _ s' => drop n' s'
  | _, _ => s
  end.

(** [s.slice(start, end)]; [end_ = None] is the one-argument call.  A
    negative position counts from the end of the string, and [-0] is [0]. *)
Definition slice (s : string) (start : Z) (end_ : option Z) : string :=
  let len := Z.of_nat (String.length s) in
  let rel (k : Z) := if k <? 0 then Z.max (len + k) 0 else Z.min k len in
  let from := rel start in
  let to := match end_ with Some e => rel e | None => len end in
  take (Z.to_nat (to - from)) (drop (Z.to_nat from) s).

Fixpoint repeat_char (c : ascii) (n : nat) : string :=
  match n with
  | O => EmptyString
  | S n' => String c (repeat_char c n')
  end.

(** [s.padStart(target, c)] for a one-character filler. *)
Definition padStart (s : string) (target : Z) (c : ascii) : string :=
  repeat_char c (Z.to_nat (target - Z.of_nat (String.length s))) ++ s.

(** [s.replace(/^0+/, "")]. *)
Fixpoint strip_leading_zeros (s : string) : string :=
  match s with
  | String "0" s' => strip_leading_zeros s'
  | _ => s
  end.

(** [s.replace(/0+$/, "")]: the maximal run of zeros that ends the string
    is removed. *)
Fixpoint strip_trailing_zeros (s : string) : string :=
  match s with
  | EmptyString => EmptyString
  | String c s' =>
      match strip_trailing_zeros s' with
      | EmptyString => if Ascii.eqb c "0" then EmptyString else String c EmptyString
      | r => String c r
      end
  end.

(** [s.startsWith("-")]. *)
Definition startsWith_minus (s : string) : bool :=
  match s with
  | String "-" _ => true
  | _ => false
  end.

(** ASCII [toLowerCase]. *)
Definition lower_char (c : ascii) : ascii :=
  let n := nat_of_ascii c in
  if ((65 <=? n) && (n <=? 90))%nat then ascii_of_nat (n + 32) else c.

Fixpoint toLowerCase (s : string) : string :=
  match s with
  | EmptyString => EmptyString
  | String c s' => String (lower_char c) (toLowerCase s')
  end.

(** *** Digits: [toString(radix)] of integers *)

(** The character of a digit value below 36: [0-9a-z]. *)
Definition digit_char (d : N) : ascii :=
  if (d <? 10)%N then ascii_of_N (48 + d) else ascii_of_N (87 + d).

(** Digits of [n], most significant first, in front of [acc]. *)
Fixpoint to_digits (fuel : nat) (radix n : N) (acc : string) : string :=
  match fuel with
  | O => acc
  | S fuel' =>
      let acc' := String (digit_char (n mod radix)) acc in
      if (n <? radix)%N then acc' else to_digits fuel' radix (n / radix) acc'
  end.

(** [n.toString(radix)] for a non-negative integer; the number of bits of
    [n] bounds the number of digits. *)
Definition N_toString (radix n : N) : string :=
  to_digits (S (N.to_nat (N.log2 n))) radix n "".

(** [z.toString(radix)] for a bigint or an integer number. *)
Definition Z_toString (radix : N) (z : Z) : string :=
  if z <? 0 then String "-" (N_toString radix (Z.to_N (- z)))
  else N_toString radix (Z.to_N z).

(** [[...a].map((b) => b.toString(16).padStart(2, "0")).join("")] for a
    [Uint8Array]. *)
Definition byte_toHex (b : Byte.byte) : string :=
  padStart (N_toString 16 (Byte.to_N b)) 2 "0".

Fixpoint toHex (a : list Byte.byte) : string :=
  match a with
  | [] => EmptyString
  | b :: a' => byte_toHex b ++ toHex a'
  end.

(** One element of [Uint8Array.from(numbers)]: the integer modulo 256. *)
Definition Uint8_of_int (z : Z) : Byte.byte :=
  match Byte.of_N (Z.to_N (z mod 256)) with
  | Some b => b
  | None => Byte.x00
  end.

End Js.

(** ** Formatting of amounts and memos (scanner.ts, both variants alike) *)

Module Fmt.

Local Open Scope string_scope.
Local Open Scope Z_scope.

(** scanner.ts:
<<
  function formatAmount(raw: string, decimals: number): string {
    const s = raw.replace(/^0+/, "") || "0";
    if (decimals <= 0) return s;
    const whole = s.length > decimals ? s.slice(0, -decimals) : "0";
    const frac = s.length > decimals ? s.slice(-decimals) : s.padStart(decimals, "0");
    const trimmed = frac.replace(/0+$/, "");
    return trimmed.length ? `${whole}.${trimmed}` : whole;
  }
>> *)
Definition formatAmount (raw : string) (decimals : Z) : string :=
  let s := Js.or_else (Js.strip_leading_zeros raw) "0" in
  if decimals <=? 0 then s
  else
    let longer := decimals <? Z.of_nat (String.length s) in
    let whole := if longer then Js.slice s 0 (Some (- decimals)) else "0" in
    let frac := if longer then Js.slice s (- decimals) None
                else Js.padStart s decimals "0" in
    let trimmed := Js.strip_trailing_zeros frac in
    if (0 <? String.length trimmed)%nat then whole ++ "." ++ trimmed else whole.

(** The memo argument of [memoToHex]: absent, a bigint, an integer number, a
    [Uint8Array], or an array of integers. *)
Inductive Memo : Type :=
  | MemoAbsent
  | MemoBigInt (z : Z)
  | MemoNumber (z : Z)
  | MemoUint8Array (a : list Byte.byte)
  | MemoArray (a : list Z).

(** [!m]. *)
Definition memo_falsy (m : Memo) : bool :=
  match m with
  | MemoAbsent => true
  | MemoBigInt z | MemoNumber z => z =? 0
  | MemoUint8Array _ | MemoArray _ => false
  end.

(** scanner.ts:
<<
  function memoToHex(m?: unknown): string {
    if (!m) return "";
    // ICP uses u64 for memo
    if (typeof m === "bigint" || typeof m === "number") {
      return BigInt(m).toString(16).padStart(16, "0");
    }
    const bytes = m instanceof Uint8Array ? m : Uint8Array.from(m as ArrayLike<number>);
    return [...bytes].map((b) => b.toString(16).padStart(2, "0")).join("");
  }
>> *)
Definition memoToHex (m : Memo) : string :=
  if memo_falsy m then ""
  else
    match m with
    | MemoAbsent => ""
    | MemoBigInt z | MemoNumber z => Js.padStart (Js.Z_toString 16 z) 16 "0"
    | MemoUint8Array a => Js.toHex a
    | MemoArray a => Js.toHex (map Js.Uint8_of_int a)
    end.

End Fmt.

(** ** src/rosetta-flow-retriever.ts: its own [formatAmount] *)

Module Rosetta.

Local Open Scope string_scope.
Local Open Scope Z_scope.

(**
<<
  function formatAmount(value: string, decimals: number): string {
    const absValue = value.startsWith("-") ? value.slice(1) : value;
    const paddedValue = absValue.padStart(decimals + 1, "0");
    const integerPart = paddedValue.slice(0, -decimals) || "0";
    const fractionalPart = paddedValue.slice(-decimals);
    const trimmedFractional = fractionalPart.replace(/0+$/, "");

    const formatted = trimmedFractional ? `${integerPart}.${trimmedFractional}` : integerPart;
    return value.startsWith("-") ? `-${formatted}` : formatted;
  }
>> *)
Definition formatAmount (value : string) (decimals : Z) : string :=
  let absValue := if Js.startsWith_minus value then Js.slice value 1 None else value in
  let paddedValue := Js.padStart absValue (decimals + 1) "0" in
  let integerPart := Js.or_else (Js.slice paddedValue 0 (Some (- decimals))) "0" in
  let fractionalPart := Js.slice paddedValue (- decimals) None in
  let trimmedFractional := Js.strip_trailing_zeros fractionalPart in
  let formatted :=
    match trimmedFractional with
    | EmptyString => integerPart
    | _ => integerPart ++ "." ++ trimmedFractional
    end in
  if Js.startsWith_minus value then "-" ++ formatted else formatted.

(** An entry of [ROSETTA_CONFIGS]. *)
Record Config : Type := mkConfig {
    url : string;
    network : string;
    symbol : string;
    decimals : Z
  }.

(** [process.env.NAME || fallback]: an unset or empty variable gives the
    fallback. *)
Definition env_or (raw : option string) (fallback : string) : string :=
  match raw with
  | Some (String c s) => String c s
  | _ => fallback
  end.

(** The table [ROSETTA_CONFIGS] with its keys; the four arguments are the
    environment variables of the urls.  [formatAmount] is private to the
    module and every call of it passes the [decimals] of an entry of this
    table. *)
Definition ROSETTA_CONFIGS
           (ICP_ROSETTA_URL CKBTC_ROSETTA_URL CKUSDC_ROSETTA_URL CKUSDT_ROSETTA_URL
            : option string) : list (string * Config) :=
  [ ("ICP",
     mkConfig (env_or ICP_ROSETTA_URL "https://rosetta-api.internetcomputer.org")
              "00000000000000020101" "ICP" 8);
    ("CKBTC",
     mkConfig (env_or CKBTC_ROSETTA_URL "https://icrc-api.internetcomputer.org/api/v1")
              "mxzaz-hqaaa-aaaar-qaada-cai" "ckBTC" 8);
    ("CKUSDC",
     mkConfig (env_or CKUSDC_ROSETTA_URL "https://icrc-api.internetcomputer.org/api/v1")
              "xevnm-gaaaa-aaaar-qafnq-cai" "ckUSDC" 6);
    ("CKUSDT",
     mkConfig (env_or CKUSDT_ROSETTA_URL "https://icrc-api.internetcomputer.org/api/v1")
              "cngnf-vqaaa-aaaar-qag4q-cai" "ckUSDT" 6) ].

End Rosetta.

(** ** Reading a decimal back (the [parseDecimal] of the specification) *)

Module Parse.

Local Open Scope string_scope.
Local Open Scope Z_scope.

Definition is_digit (c : ascii) : bool :=
  let n := nat_of_ascii c in ((48 <=? n) && (n <=? 57))%nat.

Fixpoint all_chars (p : ascii -> bool) (s : string) : bool :=
  match s with
  | EmptyString => true
  | String c s' => p c && all_chars p s'
  end.

Definition all_digits : string -> bool := all_chars is_digit.

Definition digit_value (c : ascii) : N := (N_of_ascii c - 48)%N.

Definition hex_digit_value (c : ascii) : N :=
  if is_digit c then (N_of_ascii c - 48)%N else (N_of_ascii c - 87)%N.

(** Value of a string of digits in a radix, given the value [acc] of the
    digits read so far. *)
Fixpoint radix_value (radix : N) (value_of : ascii -> N) (acc : N) (s : string) : N :=
  match s with
  | EmptyString => acc
  | String c s' => radix_value radix value_of (radix * acc + value_of c)%N s'
  end.

Definition decimal_value : N -> string -> N := radix_value 10 digit_value.

Definition hex_value : N -> string -> N := radix_value 16 hex_digit_value.

(** Split at the first decimal point. *)
Fixpoint split_point (s : string) : string * option string :=
  match s with
  | EmptyString => (EmptyString, None)
  | String "." s' => (EmptyString, Some s')
  | String c s' => let '(w, f) := split_point s' in (String c w, f)
  end.

(** [parseDecimal(text, d)]: the text is [whole] or [whole.fraction] with at
    least one digit on each side of the point and at most [d] fraction digits;
    the result is the number of base units, [whole * 10^d + fraction] with the
    fraction read as [d] digits. *)
Definition parseDecimal (text : string) (d : N) : option N :=
  let '(whole, fraction) := split_point text in
  let frac := match fraction with Some f => f | None => EmptyString end in
  let well_formed :=
    all_digits whole && (0 <? String.length whole)%nat &&
    all_digits frac && (N.of_nat (String.length frac) <=? d)%N &&
    match fraction with Some f => (0 <? String.length f)%nat | None => true end in
  if well_formed then
    Some (decimal_value 0 whole * 10 ^ d
          + decimal_value 0 frac * 10 ^ (d - N.of_nat (String.length frac)))%N
  else None.

(** The last character of the text is the digit 0. *)
Fixpoint ends_in_zero (s : string) : bool :=
  match s with
  | EmptyString => false
  | String c EmptyString => Ascii.eqb c "0"
  | String _ s' => ends_in_zero s'
  end.

(** A decimal text without trailing fractional zeros: it has no decimal
    point, or the fraction behind the point is not empty and does not end
    in 0. *)
Definition trimmed (text : string) : bool :=
  match snd (split_point text) with
  | None => true
  | Some f => (0 <? String.length f)%nat && negb (ends_in_zero f)
  end.

Definition is_lower_hex (c : ascii) : bool :=
  let n := nat_of_ascii c in
  (((48 <=? n) && (n <=? 57)) || ((97 <=? n) && (n <=? 102)))%nat.

Definition all_lower_hex : string -> bool := all_chars is_lower_hex.

(** The two lowercase hexadecimal digits of a byte. *)
Definition byte_hex_digits (b : Byte.byte) : string :=
  let n := Byte.to_N b in
  String (Js.digit_char (n / 16)) (String (Js.digit_char (n mod 16)) EmptyString).

End Parse.

(** ** scanner.ts, parallel variant: the scan window and [buildSegments] *)

Module Scanner.

Record Segment : Type := mkSegment { start : Z; length : Z; idx : Z }.

(** Last index covered by a segment. *)
Definition seg_end (s : Segment) : Z := start s + length s - 1.

(** [scanIcpLedger] / [scanIcrcLedger]:
<<
  const endIndex = chainLength - 1n;
  const startIndex =
    endIndex > BigInt(MAX_BLOCKS_PER_LEDGER) ? endIndex - BigInt(MAX_BLOCKS_PER_LEDGER) : 0n;
>>
  The pair is (startIndex, endIndex). *)
Definition scanWindow (chainLength MAX_BLOCKS_PER_LEDGER : Z) : Z * Z :=
  let endIndex := chainLength - 1 in
  let startIndex :=
    if MAX_BLOCKS_PER_LEDGER <? endIndex
    then endIndex - MAX_BLOCKS_PER_LEDGER else 0 in
  (startIndex, endIndex).

(** [buildSegments(startIndex, endIndex, page)]:
<<
  let cursor = endIndex;
  let idx = 0;
  while (cursor >= startIndex) {
    const length = BigInt(Math.min(page, Number(cursor - startIndex + 1n)));
    const start = cursor - (length - 1n);
    segs.push({ start, length, idx });
    if (start === 0n) break;
    cursor = start - 1n;
    idx++;
  }
  return segs;
>>
    [page] is a number that holds an integer; [segs] is the array being pushed
    to.  The loop need not end (a page of 0 never moves the cursor), hence the
    fuel: [None] says that the fuel given did not suffice. *)
Fixpoint buildSegments_loop (fuel : nat) (startIndex : Z) (page : Z)
         (cursor : Z) (idx : Z) (segs : list Segment)
  : option (outcome (list Segment)) :=
  match fuel with
  | O => None
  | S fuel' =>
      if startIndex <=? cursor then
        match Js.BigInt_of_number
                (Js.Math_min (Js.Finite page)
                             (Js.Number_of_bigint (cursor - startIndex + 1))) with
        | None => Some (Thrown "RangeError")
        | Some length =>
            let start := cursor - (length - 1) in
            let segs' := segs ++ [mkSegment start length idx] in
            if start =? 0 then Some (Done segs')
            else buildSegments_loop fuel' startIndex page (start - 1) (idx + 1) segs'
        end
      else Some (Done segs)
  end.

Definition buildSegments (fuel : nat) (startIndex endIndex : Z) (page : Z)
  : option (outcome (list Segment)) :=
  buildSegments_loop fuel startIndex page endIndex 0 [].

End Scanner.

(** ** Specification-side predicates for the segment partition *)

(** Every segment holds at least one and at most [page] block indices. *)
Definition lengths_bounded (page : Z) (segs : list Scanner.Segment) : Prop :=
  Forall (fun s => 1 <= Scanner.length s <= page) segs.

(** Most recent first: a later segment of the list lies entirely below every
    earlier one; in particular the ranges are pairwise disjoint. *)
Fixpoint descending (segs : list Scanner.Segment) : Prop :=
  match segs with
  | [] => True
  | s :: rest =>
      Forall (fun t => Scanner.seg_end t < Scanner.start s) rest /\ descending rest
  end.

(** The union of the ranges is exactly [[lo, hi]]. *)
Definition covers (lo hi : Z) (segs : list Scanner.Segment) : Prop :=
  forall i : Z,
    lo <= i <= hi <->
    exists s, In s segs /\ Scanner.start s <= i <= Scanner.seg_end s.

(** No index lies in two segments of the list. *)
Definition pairwise_disjoint (segs : list Scanner.Segment) : Prop :=
  forall (m n : nat) (s t : Scanner.Segment) (i : Z),
    m <> n -> nth_error segs m = Some s -> nth_error segs n = Some t ->
    Scanner.start s <= i <= Scanner.seg_end s ->
    Scanner.start t <= i <= Scanner.seg_end t -> False.

Definition partitions (lo hi page : Z) (segs : list Scanner.Segment) : Prop :=
  lengths_bounded page segs /\ descending segs /\ pairwise_disjoint segs /\
  covers lo hi segs.

(** [buildSegments] returns [segs]: it does so with every sufficient fuel. *)
Definition buildSegments_returns (startIndex endIndex page : Z)
           (segs : list Scanner.Segment) : Prop :=
  exists fuel0 : nat, forall fuel : nat, (fuel0 <= fuel)%nat ->
    Scanner.buildSegments fuel startIndex endIndex page = Some (Done segs).

(** The segment claim at one input: the window is the one of the specification
    and [buildSegments] returns a partition of it. *)
Definition segments_ok (totalLength maxBlocks page : Z) : Prop :=
  let '(startIndex, endIndex) := Scanner.scanWindow totalLength maxBlocks in
  startIndex = Z.max 0 (totalLength - 1 - maxBlocks) /\
  endIndex = totalLength - 1 /\
  exists segs,
    buildSegments_returns startIndex endIndex page segs /\
    partitions startIndex endIndex page segs.

(** ** Sequencing and [try]/[catch] on outcomes *)

Definition bind {A B : Type} (m : outcome A) (k : A -> outcome B) : outcome B :=
  match m with
  | Done a => k a
  | Thrown e => Thrown e
  end.

Definition try_catch {A : Type} (body : outcome A) (handler : string -> outcome A)
  : outcome A :=
  match body with
  | Thrown e => handler e
  | other => other
  end.

Notation "x <- m ;; k" := (bind m (fun x => k))
  (at level 61, m at next level, right associativity).

(** ** Rows of the report (scanner.ts, api_scanner.ts: [CsvRow]) *)

Inductive Direction : Type := inflow | outflow | self | mint | burn.

Record CsvRow : Type := mkRow {
  date_iso : string;
  token : string;
  direction : Direction;
  amount : string;
  from_principal : string;
  to_principal : string;
  block_index : string;
  memo : string
}.

(** ** scanner.ts: the tagged-value decoder, accounts and the ICRC-3 handler *)

Module Icrc.

Local Open Scope string_scope.
Local Open Scope Z_scope.

(** The [Value] variant of the ICRC-3 interface, as Candid decodes it. *)
Inductive Value : Type :=
  | Blob (b : list Byte.byte)
  | Text (t : string)
  | Nat (n : Z)
  | Int (i : Z)
  | Array (a : list Value)
  | Map (m : list (string * Value)).

(** [extractValue(value, key)]; [None] is [null]. *)
Definition extractValue (value : option Value) (key : string) : option Value :=
  match value with
  | Some (Map map) =>
      match find (fun entry => String.eqb (fst entry) key) map with
      | Some entry => Some (snd entry)
      | None => None
      end
  | _ => None
  end.

Definition extractText (value : option Value) : string :=
  match value with
  | Some (Text t) => t
  | Some (Nat n) => Js.Z_toString 10 n
  | Some (Int i) => Js.Z_toString 10 i
  | _ => ""
  end.

Definition extractNat (value : option Value) : Z :=
  match value with
  | Some (Nat n) => n
  | _ => 0
  end.

Definition extractBlob (value : option Value) : list Byte.byte :=
  match value with
  | Some (Blob b) => b
  | _ => []
  end.

(** [sub?.length ? sub : null]. *)
Definition nonempty_or_null (sub : option (list Byte.byte)) : option (list Byte.byte) :=
  match sub with
  | Some (b :: rest) => Some (b :: rest)
  | _ => None
  end.

(** [normalizeSub]: "treat 32 zero bytes as null".
<<
  if (!sa || !sa.length) return null;
  if (sa.length === 32 && sa.every((b) => b === 0)) return null;
  return sa;
>> *)
Definition normalizeSub (sa : option (list Byte.byte)) : option (list Byte.byte) :=
  match sa with
  | None => None
  | Some l =>
      if (List.length l =? 0)%nat then None
      else if (List.length l =? 32)%nat && forallb (fun b => Byte.eqb b Byte.x00) l
           then None
           else Some l
  end.

(** The loop [for (i ...) if (sa[i] !== sb[i]) return false; return true]
    of [eqAccount], entered with arrays of equal length. *)
Fixpoint same_bytes (sa sb : list Byte.byte) : bool :=
  match sa, sb with
  | [], _ => true
  | _ :: _, [] => false
  | a :: sa', b :: sb' => if Byte.eqb a b then same_bytes sa' sb' else false
  end.

Section WithPrincipal.

(** The principal library: the type, [Principal.fromUint8Array] ([None]
    when it throws) and [toText]. *)
Variable Principal : Type.
Variable decode_principal : list Byte.byte -> option Principal.
Variable toText : Principal -> string.

Record Account : Type := mkAccount {
    owner : Principal;
    subaccount : option (list Byte.byte)
  }.

Definition Principal_fromUint8Array (bytes : list Byte.byte) : outcome Principal :=
  match decode_principal bytes with
  | Some p => Done p
  | None => Thrown "Error"
  end.

(** [extractAccount]: the map form, then the array form. *)
Definition extractAccount (value : option Value) : outcome (option Account) :=
  match value with
  | None => Done None
  | Some (Map _) =>
      let ownerVal := extractValue value "owner" in
      let subVal := extractValue value "subaccount" in
      let ownerBlob := extractBlob ownerVal in
      if (List.length ownerBlob =? 0)%nat then Done None
      else
        try_catch
          (owner <- Principal_fromUint8Array ownerBlob ;;
           let sub := extractBlob subVal in
           Done (Some (mkAccount owner (nonempty_or_null (Some sub)))))
          (fun _ => Done None)
  | Some (Array (Blob ownerBlob :: rest)) =>
      try_catch
        (owner <- Principal_fromUint8Array ownerBlob ;;
         let sub := match rest with
                    | Blob s :: _ => Some s
                    | _ => None
                    end in
         Done (Some (mkAccount owner (nonempty_or_null sub))))
        (fun _ => Done None)
  | Some _ => Done None
  end.

(** [eqAccount(a, b)]. *)
Definition eqAccount (a : option Account) (b : Account) : bool :=
  match a with
  | None => false
  | Some a =>
      if negb (String.eqb (toText (owner a)) (toText (owner b))) then false
      else
        match normalizeSub (subaccount a), normalizeSub (subaccount b) with
        | None, None => true
        | Some sa, Some sb =>
            if negb (List.length sa =? List.length sb)%nat then false
            else same_bytes sa sb
        | _, _ => false
        end
  end.

(** The direction of a transfer in [handleIcrcBlock]:
<<
  let direction: CsvRow["direction"] | null = null;
  if (from && to) {
    if (eqAccount(from, wallet) && eqAccount(to, wallet)) direction = "self";
    else if (eqAccount(to, wallet)) direction = "inflow";
    else if (eqAccount(from, wallet)) direction = "outflow";
  }
>> *)
Definition classify (from to : option Account) (wallet : Account)
  : option Direction :=
  match from, to with
  | Some _, Some _ =>
      if eqAccount from wallet && eqAccount to wallet then Some self
      else if eqAccount to wallet then Some inflow
      else if eqAccount from wallet then Some outflow
      else None
  | _, _ => None
  end.

(** Configuration and ledger data a scan of one ICRC ledger runs with;
    [date_of_nanos ts] is [new Date(Number(ts) / 1_000_000).toISOString()],
    a floating-point division that is left to the parameter.  It is reached
    only with [FROM_TS <= ts <= TO_TS], two valid dates, where [toISOString]
    does not throw. *)
Variable wallet : Account.
Variables FROM_TS TO_TS : Z.
Variable symbol : string.
Variable decimals : Z.
Variable date_of_nanos : Z -> string.

Definition owner_text (a : option Account) : string :=
  match a with
  | Some a => toText (owner a)
  | None => ""
  end.

(** [handleIcrcBlock(bw)]: the row it pushes and emits, if any. *)
Definition handleIcrcBlock (bw : Z * Value) : outcome (option CsvRow) :=
  let block := Some (snd bw) in
  let ts := extractNat (extractValue block "ts") in
  if (ts <? FROM_TS) || (TO_TS <? ts) then Done None
  else
    let tx := extractValue block "tx" in
    match tx with
    | Some (Map _) =>
        let opType :=
          Js.or_else (extractText (extractValue tx "op"))
            (Js.or_else (extractText (extractValue block "btype"))
                        (extractText (extractValue block "type"))) in
        if negb (String.eqb opType "xfer") && negb (String.eqb opType "transfer")
        then Done None
        else
          from <- extractAccount (extractValue tx "from") ;;
          to <- extractAccount (extractValue tx "to") ;;
          let amount := Js.Z_toString 10 (extractNat (extractValue tx "amt")) in
          let memo := Js.toHex (extractBlob (extractValue tx "memo")) in
          match classify from to wallet with
          | None => Done None
          | Some direction =>
              Done (Some (mkRow (date_of_nanos ts) symbol direction
                                (Fmt.formatAmount amount decimals)
                                (owner_text from) (owner_text to)
                                (Js.Z_toString 10 (fst bw)) memo))
          end
    | _ => Done None
    end.

End WithPrincipal.

Arguments owner {Principal} a.
Arguments subaccount {Principal} a.
Arguments mkAccount {Principal} owner subaccount.
Arguments Principal_fromUint8Array {Principal} decode_principal bytes.
Arguments extractAccount {Principal} decode_principal value.
Arguments eqAccount {Principal} toText a b.
Arguments classify {Principal} toText from to wallet.
Arguments owner_text {Principal} toText a.
Arguments handleIcrcBlock {Principal} decode_principal toText wallet
  FROM_TS TO_TS symbol decimals date_of_nanos bw.

End Icrc.

(** ** scanner.ts: blocks of the ICP ledger and their handlers *)

Module Icp.

Local Open Scope string_scope.
Local Open Scope Z_scope.

(** The fields of an operation that the handlers read. *)
Inductive Operation : Type :=
  | Transfer (from to : list Byte.byte) (amount_e8s : Z)
  | Mint (to : list Byte.byte) (amount_e8s : Z)
  | Burn (from : list Byte.byte) (amount_e8s : Z)
  | Approve (from spender : list Byte.byte).

Record Transaction : Type := mkTransaction {
    memo : Z;                          (* Memo = IDL.Nat64 *)
    operation : option Operation       (* IDL.Opt(Operation): [] or [op] *)
  }.

Record Block : Type := mkBlock {
    transaction : Transaction;
    timestamp : option Z               (* timestamp_nanos; None: no timestamp *)
  }.

(** [n64ToMillis]:
<<
  if (n === undefined || n === null) return null;
  const nanos = (n as { timestamp_nanos?: unknown }).timestamp_nanos ?? n;
  return Number(BigInt(nanos) / 1_000_000n);
>> *)
Definition n64ToMillis (n : option Z) : option Js.number :=
  match n with
  | None => None
  | Some nanos => Some (Js.Number_of_bigint (Z.quot nanos 1000000))
  end.

(** [ts && ...] and [ts ? ... : ...] on the result of [n64ToMillis]. *)
Definition ts_truthy (ts : option Js.number) : bool :=
  match ts with
  | Some t => Js.truthy t
  | None => false
  end.

Definition direction_of (fromHex toHex targetHex : string) : option Direction :=
  if String.eqb fromHex targetHex && String.eqb toHex targetHex then Some self
  else if String.eqb toHex targetHex then Some inflow
  else if String.eqb fromHex targetHex then Some outflow
  else None.

Section WithConfig.

(** [symbol] and [decimals] of the ledger, the watched account identifier,
    and [new Date(ms).toISOString()]. *)
Variable symbol : string.
Variable decimals : Z.
Variable icpAccountIdHex : string.
Variable Date_toISOString : Js.number -> string.

Definition date_iso_of (ts : option Js.number) : string :=
  match ts with
  | Some t => if Js.truthy t then Date_toISOString t else ""
  | None => ""
  end.

(** The row of a [Transfer], common to both variants. *)
Definition transfer_row (ts : option Js.number) (tx : Transaction)
           (from to : list Byte.byte) (amount_e8s : Z) (targetHex : string)
           (blockIndex : Z) : option CsvRow :=
  let fromHex := Js.toHex from in
  let toHex := Js.toHex to in
  let amount := Js.Z_toString 10 amount_e8s in
  let memo := Fmt.memoToHex (Fmt.MemoBigInt (memo tx)) in
  match direction_of fromHex toHex targetHex with
  | Some direction =>
      Some (mkRow (date_iso_of ts) symbol direction
                  (Fmt.formatAmount amount decimals) "" ""
                  (Js.Z_toString 10 blockIndex) memo)
  | None => None
  end.

(** Parallel variant, [handleBlock(block, blockIndex)] of [scanIcpLedger]:
<<
  const ts = n64ToMillis(block?.timestamp);
  if (ts && (ts < FROM_MS || ts > TO_MS)) return;
  ...
  if (!optInner) return;
  const opKey = Object.keys(optInner)[0];
  if (opKey !== "Transfer") return;
>> *)
Definition handleBlock (FROM_MS TO_MS : Z) (block : Block) (blockIndex : Z)
  : option CsvRow :=
  let targetHex := Js.toLowerCase icpAccountIdHex in
  let ts := n64ToMillis (timestamp block) in
  if ts_truthy ts &&
     match ts with
     | Some t => Js.ltb t (Js.Finite FROM_MS) || Js.gtb t (Js.Finite TO_MS)
     | None => false
     end
  then None
  else
    let tx := transaction block in
    match operation tx with
    | None => None
    | Some (Transfer from to amount_e8s) =>
        transfer_row ts tx from to amount_e8s targetHex blockIndex
    | Some _ => None
    end.

(** The verdict of [wouldCaptureIcpBlock] of the same file:
<<
  const inWindow =
    typeof timestampMs === "number" && timestampMs >= FROM_MS && timestampMs <= TO_MS;
  ...
  const wouldEmit = !!direction && inWindow;
>> *)
Definition wouldCapture_inWindow (FROM_MS TO_MS : Z) (block : Block) : bool :=
  match n64ToMillis (timestamp block) with
  | Some t => negb (Js.ltb t (Js.Finite FROM_MS)) && negb (Js.gtb t (Js.Finite TO_MS))
  | None => false
  end.

(** Sequential variant, the body of the loop over [res.blocks] in
    [scanIcpLedger]:
<<
  if (timestamp && timestamp > CUTOFF_DATE.getTime()) continue;
  ...
  if (!tx.operation) continue;
  const opKey = Object.keys(tx.operation)[0];
  ...
  if (opKey === "Transfer") { ... }
>> *)
Definition handleBlock_sequential (CUTOFF_MS : Z) (block : Block) (blockIndex : Z)
  : option CsvRow :=
  let ts := n64ToMillis (timestamp block) in
  if ts_truthy ts &&
     match ts with
     | Some t => Js.gtb t (Js.Finite CUTOFF_MS)
     | None => false
     end
  then None
  else
    let tx := transaction block in
    match operation tx with
    | Some (Transfer from to amount_e8s) =>
        transfer_row ts tx from to amount_e8s icpAccountIdHex blockIndex
    | _ => None
    end.

End WithConfig.

End Icp.

(** ** scanner.ts: the scans over the segments *)

Module Scan.

Local Open Scope Z_scope.

(** What a scan of one ledger accumulates: the rows pushed and emitted, the
    counters, the lines written with [console.error], and the fetches
    issued. *)
Record State (Request : Type) : Type := mkState {
    rows : list CsvRow;
    segDone : Z;
    blocksSeen : Z;
    matches : Z;
    errors : list (Request * string);
    fetches : list Request
  }.

Arguments mkState {Request} rows segDone blocksSeen matches errors fetches.
Arguments rows {Request} s.
Arguments segDone {Request} s.
Arguments blocksSeen {Request} s.
Arguments matches {Request} s.
Arguments errors {Request} s.
Arguments fetches {Request} s.

Definition initial {Request : Type} : State Request := mkState [] 0 0 0 [] [].

(** [rows.push(row); emitRow(symbol, row); matches++]. *)
Definition push_row {Request : Type} (row : CsvRow) (st : State Request)
  : State Request :=
  mkState (rows st ++ [row]) (segDone st) (blocksSeen st) (matches st + 1)
          (errors st) (fetches st).

Definition push_opt {Request : Type} (row : option CsvRow) (st : State Request)
  : State Request :=
  match row with
  | Some r => push_row r st
  | None => st
  end.

Definition log_error {Request : Type} (req : Request) (e : string) (st : State Request)
  : State Request :=
  mkState (rows st) (segDone st) (blocksSeen st) (matches st)
          (errors st ++ [(req, e)]) (fetches st).

Definition log_fetch {Request : Type} (req : Request) (st : State Request)
  : State Request :=
  mkState (rows st) (segDone st) (blocksSeen st) (matches st)
          (errors st) (fetches st ++ [req]).

(** *** Parallel variant

    [scanIcpLedger] and [scanIcrcLedger] start one task per segment:
<<
  segs.map((seg) =>
    limit(async () => {
      try {
        const fetched = await fetchIcpBlocks(actor, agent, canisterId, seg.start, seg.length, limitArchive);
        for (const { index, block } of fetched) handleBlock(block, index);
        blocksSeen += fetched.length;
        segDone++;
        ...
      } catch (e) {
        segDone++;
        console.error(`  [ICP] ${label} ERROR:`, e);
      }
    }))
>>
  A task suspends only at its [await]; what follows the fetch runs without
  interruption, so a run is the sequence of these continuations in the
  order in which the fetches complete. *)
Section Parallel.

Variable Fetched : Type.
(** The awaited fetch of a segment; [Thrown] is a rejected promise. *)
Variable fetchBlocks : Scanner.Segment -> outcome (list Fetched).
Variable handle : Fetched -> outcome (option CsvRow).

(** The [for ... of fetched] loop; a handler that throws ends it. *)
Fixpoint handle_all (fetched : list Fetched) (st : State Scanner.Segment)
  : State Scanner.Segment * option string :=
  match fetched with
  | [] => (st, None)
  | b :: rest =>
      match handle b with
      | Done row => handle_all rest (push_opt row st)
      | Thrown e => (st, Some e)
      end
  end.

Definition seg_done (st : State Scanner.Segment) : State Scanner.Segment :=
  mkState (rows st) (segDone st + 1) (blocksSeen st) (matches st)
          (errors st) (fetches st).

Definition add_seen (n : Z) (st : State Scanner.Segment) : State Scanner.Segment :=
  mkState (rows st) (segDone st) (blocksSeen st + n) (matches st)
          (errors st) (fetches st).

Definition segment_task (seg : Scanner.Segment) (st : State Scanner.Segment)
  : State Scanner.Segment :=
  let st := log_fetch seg st in
  match fetchBlocks seg with
  | Done fetched =>
      match handle_all fetched st with
      | (st', None) => seg_done (add_seen (Z.of_nat (List.length fetched)) st')
      | (st', Some e) => log_error seg e (seg_done st')
      end
  | Thrown e => log_error seg e (seg_done st)
  end.

(** The tasks, in their completion order. *)
Definition run_segments (completion : list Scanner.Segment)
  : State Scanner.Segment :=
  fold_left (fun st seg => segment_task seg st) completion initial.

(** The rows a segment contributes when its fetch succeeds and no handler
    throws. *)
Definition rows_of_fetched (fetched : list Fetched) : list CsvRow :=
  flat_map (fun b => match handle b with
                     | Done (Some row) => [row]
                     | _ => []
                     end) fetched.

Definition rows_of_segment (seg : Scanner.Segment) : list CsvRow :=
  match fetchBlocks seg with
  | Done fetched => rows_of_fetched fetched
  | Thrown _ => []
  end.

Definition failed (seg : Scanner.Segment) : bool :=
  match fetchBlocks seg with
  | Done _ => false
  | Thrown _ => true
  end.

End Parallel.

Arguments handle_all {Fetched} handle fetched st.
Arguments segment_task {Fetched} fetchBlocks handle seg st.
Arguments run_segments {Fetched} fetchBlocks handle completion.
Arguments rows_of_fetched {Fetched} handle fetched.
Arguments rows_of_segment {Fetched} fetchBlocks handle seg.
Arguments failed {Fetched} fetchBlocks seg.

(** *** Sequential variant: [scanIcpLedger] of the first scanner

<<
  for (let cursor = endIndex; cursor >= startIndex && scanned < MAX_BLOCKS_PER_LEDGER; ) {
    const length = BigInt(Math.min(PAGE, Number(cursor - startIndex + 1n)));
    const start = cursor - (length - 1n);
    try {
      const res = await ledgerActor.query_blocks({ start, length });
      ... blocks of the page ...
      ... archived ranges ...
      scanned += blocks.length;
      cursor = start - 1n;
    } catch (e) {
      console.error(`  Failed to get blocks:`, e);
      break;
    }
  }
  return rows;
>> *)
Record ArchivedRange : Type := mkRange { range_start : Z; range_length : Z }.

Record QueryBlocksResponse : Type := mkResponse {
    blocks : list Icp.Block;
    first_block_index : Z;
    archived_blocks : list ArchivedRange
  }.

(** A request of the sequential scan: [query_blocks({start, length})]. *)
Definition Query : Type := (Z * Z)%type.

(** A block of an archive either leaves the loop body at a [continue] or
    reaches [scanned++], with or without a row. *)
Inductive Archived : Type :=
  | Skipped
  | Counted (row : option CsvRow).

Section Sequential.

Variable query_blocks : Z -> Z -> outcome QueryBlocksResponse.
(** The archive call and its [r.Ok || r.ok]. *)
Variable archive_get_blocks : ArchivedRange -> outcome (option (list Icp.Block)).
(** The body of the loop over the blocks of the page. *)
Variable handle : Icp.Block -> Z -> option CsvRow.
(** The body of the loop over the blocks of an archive. *)
Variable handle_archived : Icp.Block -> Z -> Archived.
Variables MAX_BLOCKS_PER_LEDGER PAGE : Z.

Definition add_scanned (n : Z) (st : State Query) : State Query :=
  mkState (rows st) (segDone st) (blocksSeen st + n) (matches st)
          (errors st) (fetches st).

(** [scanned] of the source is the [blocksSeen] counter of the state. *)
Definition scanned (st : State Query) : Z := blocksSeen st.

Fixpoint page_blocks (bs : list Icp.Block) (first : Z) (i : Z) (st : State Query)
  : State Query :=
  match bs with
  | [] => st
  | block :: rest => page_blocks rest first (i + 1) (push_opt (handle block (first + i)) st)
  end.

Fixpoint archive_blocks (bs : list Icp.Block) (start : Z) (i : Z) (st : State Query)
  : State Query :=
  match bs with
  | [] => st
  | block :: rest =>
      if scanned st <? MAX_BLOCKS_PER_LEDGER then
        match handle_archived block (start + i) with
        | Skipped => archive_blocks rest start (i + 1) st
        | Counted row => archive_blocks rest start (i + 1) (add_scanned 1 (push_opt row st))
        end
      else st
  end.

(** The loop over [archived_blocks]; the second component is the exception
    of an archive call, which leaves the loop and the [try] block. *)
Fixpoint archived_ranges (ranges : list ArchivedRange) (st : State Query)
  : State Query * option string :=
  match ranges with
  | [] => (st, None)
  | range :: rest =>
      if MAX_BLOCKS_PER_LEDGER <=? scanned st then (st, None)
      else
        match archive_get_blocks range with
        | Thrown e => (st, Some e)
        | Done None => archived_ranges rest st
        | Done (Some bs) =>
            archived_ranges rest (archive_blocks bs (range_start range) 0 st)
        end
  end.

Fixpoint scan_loop (fuel : nat) (startIndex cursor : Z) (st : State Query)
  : option (outcome (State Query)) :=
  match fuel with
  | O => None
  | S fuel' =>
      if (startIndex <=? cursor) && (scanned st <? MAX_BLOCKS_PER_LEDGER) then
        match Js.BigInt_of_number
                (Js.Math_min (Js.Finite PAGE)
                             (Js.Number_of_bigint (cursor - startIndex + 1))) with
        | None => Some (Thrown "RangeError")
        | Some length =>
            let start := cursor - (length - 1) in
            let st := log_fetch (start, length) st in
            match query_blocks start length with
            | Thrown e => Some (Done (log_error (start, length) e st))
            | Done res =>
                let st1 := page_blocks (blocks res) (first_block_index res) 0 st in
                match archived_ranges (archived_blocks res) st1 with
                | (st2, Some e) => Some (Done (log_error (start, length) e st2))
                | (st2, None) =>
                    scan_loop fuel' startIndex (start - 1)
                              (add_scanned (Z.of_nat (List.length (blocks res))) st2)
                end
            end
        end
      else Some (Done st)
  end.

(** [scanIcpLedger] once the chain length is known. *)
Definition scan_sequential (fuel : nat) (chainLength : Z)
  : option (outcome (State Query)) :=
  let '(startIndex, endIndex) :=
    Scanner.scanWindow chainLength MAX_BLOCKS_PER_LEDGER in
  scan_loop fuel startIndex endIndex initial.

End Sequential.

End Scan.

(** ** api_scanner.ts: account matching and the mapping to rows *)

Module ApiScanner.

Local Open Scope string_scope.

(** The part of [config] that matching and mapping read. *)
Record Config : Type := mkConfig {
    wallet_principal : string;        (* config.wallet.principal *)
    wallet_accountIdHex : string;     (* config.wallet.accountIdHex *)
    wallet_subaccountHex : string;    (* config.wallet.subaccountHex *)
    strictSubaccountMatch : bool      (* config.scanning.strictSubaccountMatch *)
  }.

(** [{ owner?: string; subaccount?: string }]; [None] is [undefined]. *)
Record Account : Type := mkAccount {
    owner : option string;
    subaccount : option string
  }.

Record IcrcTx : Type := mkIcrcTx {
    icrc_id : string;
    icrc_timestamp : string;
    icrc_op : string;
    icrc_from : option Account;
    icrc_to : option Account;
    icrc_amount : option string;
    icrc_symbol : option string;
    icrc_decimals : option Z;
    icrc_memo_hex : option string
  }.

Record IcpTx : Type := mkIcpTx {
    block_height : string;
    transfer_type : string;
    icp_amount : option string;
    from_account_identifier : option string;
    to_account_identifier : option string;
    created_at : option Z;
    icp_memo : option string;
    icrc1_memo : option string
  }.

(** [x ?? d] and [x || d] for an optional string. *)
Definition nullish (x : option string) (d : string) : string :=
  match x with
  | Some s => s
  | None => d
  end.

Definition or_str (x : option string) (d : string) : string :=
  Js.or_else (nullish x "") d.

(** [s.replace(/^0x/, "")]. *)
Definition strip_0x (s : string) : string :=
  match s with
  | String "0" (String "x" rest) => rest
  | _ => s
  end.

(** [/^0+$/.test(s)]. *)
Definition all_zeros (s : string) : bool :=
  match s with
  | EmptyString => false
  | _ => Parse.all_chars (fun c => Ascii.eqb c "0") s
  end.

(** [utils.normalizeSubaccount]:
<<
  const normalized = (sub || "").replace(/^0x/, "").toLowerCase();
  return !normalized || /^0+$/.test(normalized) ? "" : normalized;
>> *)
Definition normalizeSubaccount (sub : option string) : string :=
  let normalized := Js.toLowerCase (strip_0x (or_str sub "")) in
  match normalized with
  | EmptyString => ""
  | _ => if all_zeros normalized then "" else normalized
  end.

(** [utils.formatAmount]: its first line is
    [(raw || "0").replace(/^0+/, "") || "0"], the rest is the text of
    [formatAmount] in scanner.ts. *)
Definition formatAmount (raw : string) (decimals : Z) : string :=
  Fmt.formatAmount (Js.or_else raw "0") decimals.

Section WithConfig.

Variable config : Config.
(** [utils.toISO] at its two call sites. *)
Variable toISO_seconds : Z -> string.    (* utils.toISO((tx.created_at ?? 0) * 1000) *)
Variable toISO_text : string -> string.  (* utils.toISO(tx.timestamp) *)

(** [matching.equalSubaccounts]. *)
Definition equalSubaccounts (a b : option string) : bool :=
  String.eqb (normalizeSubaccount a) (normalizeSubaccount b).

(** [matching.matchesIcrcAccount]:
<<
  if (!account?.owner || account.owner !== walletOwner) return false;
  if (!config.scanning.strictSubaccountMatch) return true;
  return matching.equalSubaccounts(account.subaccount, walletSubHex);
>> *)
Definition matchesIcrcAccount (account : option Account) (walletOwner : string)
           (walletSubHex : option string) : bool :=
  match account with
  | None => false
  | Some acc =>
      match owner acc with
      | None | Some EmptyString => false
      | Some o =>
          if negb (String.eqb o walletOwner) then false
          else if negb (strictSubaccountMatch config) then true
               else equalSubaccounts (subaccount acc) walletSubHex
      end
  end.

(** The operand [tx.from?.owner === config.wallet.principal &&
    normalize(tx.from?.subaccount) === normalizedWallet]. *)
Definition strict_side (side : option Account) (normalizedWallet : string) : bool :=
  match side with
  | None => false
  | Some acc =>
      match owner acc with
      | Some o =>
          String.eqb o (wallet_principal config) &&
          String.eqb (normalizeSubaccount (subaccount acc)) normalizedWallet
      | None => false
      end
  end.

(** [matching.passesStrictSubaccountFilter(tx, walletSubHex)]. *)
Definition passesStrictSubaccountFilter (tx : IcrcTx) (walletSubHex : option string)
  : bool :=
  if negb (strictSubaccountMatch config)
     || match or_str walletSubHex "" with EmptyString => true | _ => false end
  then true
  else
    let normalizedWallet := normalizeSubaccount walletSubHex in
    strict_side (icrc_from tx) normalizedWallet
    || strict_side (icrc_to tx) normalizedWallet.

Definition owner_of (a : option Account) : string :=
  match a with
  | Some acc => or_str (owner acc) ""
  | None => ""
  end.

(** [csvMapping.fromIcrcTransaction]; the matcher is called without the
    wallet sub-identity. *)
Definition fromIcrcTransaction (tx : IcrcTx) : option CsvRow :=
  let operation := Js.toLowerCase (Js.or_else (icrc_op tx) "") in
  let isTransfer :=
    existsb (String.eqb operation) ["transfer"; "1xfer"; "icrc1_transfer"; "xfer"] in
  if negb isTransfer then None
  else
    let fromMatches := matchesIcrcAccount (icrc_from tx) (wallet_principal config) None in
    let toMatches := matchesIcrcAccount (icrc_to tx) (wallet_principal config) None in
    let direction :=
      if fromMatches && toMatches then Some self
      else if toMatches then Some inflow
      else if fromMatches then Some outflow
      else None in
    match direction with
    | None => None
    | Some d =>
        Some (mkRow (toISO_text (icrc_timestamp tx))
                    (or_str (icrc_symbol tx) "TOKEN")
                    d
                    (formatAmount (nullish (icrc_amount tx) "0")
                                  (match icrc_decimals tx with Some n => n | None => 8%Z end))
                    (owner_of (icrc_from tx))
                    (owner_of (icrc_to tx))
                    (icrc_id tx)
                    (Js.toLowerCase (or_str (icrc_memo_hex tx) "")))
    end.

(** [csvMapping.fromIcpTransaction]. *)
Definition fromIcpTransaction (tx : IcpTx) : option CsvRow :=
  let operation := Js.toLowerCase (Js.or_else (transfer_type tx) "") in
  let fromHex := Js.toLowerCase (or_str (from_account_identifier tx) "") in
  let toHex := Js.toLowerCase (or_str (to_account_identifier tx) "") in
  let accountIdHex := Js.toLowerCase (wallet_accountIdHex config) in
  let direction :=
    if String.eqb operation "mint" then Some mint
    else if String.eqb operation "burn" then Some burn
    else if String.eqb operation "transfer" then
           if String.eqb fromHex accountIdHex && String.eqb toHex accountIdHex
           then Some self
           else if String.eqb toHex accountIdHex then Some inflow
           else if String.eqb fromHex accountIdHex then Some outflow
           else None
         else None in
  match direction with
  | None => None
  | Some d =>
      Some (mkRow (toISO_seconds (match created_at tx with Some s => s | None => 0%Z end))
                  "ICP" d
                  (formatAmount (nullish (icp_amount tx) "0") 8)
                  fromHex toHex
                  (block_height tx)
                  (Js.toLowerCase
                     (match icrc1_memo tx with
                      | Some m => m
                      | None => nullish (icp_memo tx) ""
                      end)))
  end.

(** The loop of [scanner.scanIcrcToken] over the transactions fetched. *)
Definition scanIcrcToken_rows (transactions : list IcrcTx) : list CsvRow :=
  flat_map (fun tx =>
              if passesStrictSubaccountFilter tx (Some (wallet_subaccountHex config))
              then match fromIcrcTransaction tx with
                   | Some row => [row]
                   | None => []
                   end
              else [])
           transactions.

(** The direction printed by [sanityChecks.checkIcrcTransaction], which
    passes the wallet sub-identity to the matcher:
<<
  const fromMatches = matching.matchesIcrcAccount(tx.from, config.wallet.principal, config.wallet.subaccountHex);
  const toMatches = matching.matchesIcrcAccount(tx.to, config.wallet.principal, config.wallet.subaccountHex);
>> *)
Definition watched_match (account : option Account) : bool :=
  matchesIcrcAccount account (wallet_principal config)
                     (Some (wallet_subaccountHex config)).

End WithConfig.

End ApiScanner.

(** ** scanner.ts: the scanners of one ledger *)

Module Ledgers.

Local Open Scope Z_scope.

Section WithConfig.

Variable symbol : string.
Variable decimals : Z.
Variable icpAccountIdHex : string.
Variable Date_toISOString : Js.number -> string.

(** Parallel variant, [scanIcpLedger]: the tasks of the segments with
    [handleBlock]; a fetched item is [{ index, block }]. *)
Definition scanIcpLedger_parallel (FROM_MS TO_MS : Z)
           (fetchIcpBlocks : Scanner.Segment -> outcome (list (Z * Icp.Block)))
           (completion : list Scanner.Segment) : Scan.State Scanner.Segment :=
  Scan.run_segments fetchIcpBlocks
    (fun fetched =>
       Done (Icp.handleBlock symbol decimals icpAccountIdHex Date_toISOString
                             FROM_MS TO_MS (snd fetched) (fst fetched)))
    completion.

(** Sequential variant, the body of the loop over the blocks of an archive:
<<
  if (timestamp && timestamp > CUTOFF_DATE.getTime()) continue;
  ...
  const opKey = tx?.operation && Object.keys(tx.operation)[0];
  if (opKey !== "Transfer") continue;
  ...
  scanned++;
>> *)
Definition handle_archived_sequential (CUTOFF_MS : Z) (block : Icp.Block) (blockIndex : Z)
  : Scan.Archived :=
  let ts := Icp.n64ToMillis (Icp.timestamp block) in
  if Icp.ts_truthy ts &&
     match ts with
     | Some t => Js.gtb t (Js.Finite CUTOFF_MS)
     | None => false
     end
  then Scan.Skipped
  else
    let tx := Icp.transaction block in
    match Icp.operation tx with
    | Some (Icp.Transfer from to amount_e8s) =>
        Scan.Counted (Icp.transfer_row symbol decimals Date_toISOString ts tx
                                       from to amount_e8s icpAccountIdHex blockIndex)
    | _ => Scan.Skipped
    end.

(** Sequential variant, [scanIcpLedger] once the chain length is known;
    [PAGE] is the constant 1000 there. *)
Definition scanIcpLedger_sequential (CUTOFF_MS MAX_BLOCKS_PER_LEDGER : Z)
           (query_blocks : Z -> Z -> outcome Scan.QueryBlocksResponse)
           (archive_get_blocks : Scan.ArchivedRange -> outcome (option (list Icp.Block)))
           (fuel : nat) (chainLength : Z)
  : option (outcome (Scan.State Scan.Query)) :=
  Scan.scan_sequential query_blocks archive_get_blocks
    (Icp.handleBlock_sequential symbol decimals icpAccountIdHex Date_toISOString CUTOFF_MS)
    (handle_archived_sequential CUTOFF_MS)
    MAX_BLOCKS_PER_LEDGER 1000 fuel chainLength.

End WithConfig.

Section WithWallet.

Variable Principal : Type.
Variable decode_principal : list Byte.byte -> option Principal.
Variable toText : Principal -> string.
Variable wallet : Icrc.Account Principal.
Variables FROM_TS TO_TS : Z.
Variable symbol : string.
Variable decimals : Z.
Variable date_of_nanos : Z -> string.

(** Parallel variant, [scanIcrcLedger]: the tasks of the segments with
    [handleIcrcBlock]; a fetched item is [{ id, block }]. *)
Definition scanIcrcLedger_parallel
           (fetchIcrc3Blocks : Scanner.Segment -> outcome (list (Z * Icrc.Value)))
           (completion : list Scanner.Segment) : Scan.State Scanner.Segment :=
  Scan.run_segments fetchIcrc3Blocks
    (Icrc.handleIcrcBlock decode_principal toText wallet FROM_TS TO_TS
                          symbol decimals date_of_nanos)
    completion.

End WithWallet.

End Ledgers.

(** ** scanner.ts: hexadecimal text, [envHex] and the wallet sub-identity *)

Module Hex.

Local Open Scope string_scope.
Local Open Scope Z_scope.

(** The white space that [parseInt] skips, among ASCII characters: tab, line
    feed, vertical tab, form feed, carriage return and space. *)
Definition is_white_space (c : ascii) : bool :=
  let n := nat_of_ascii c in (((9 <=? n) && (n <=? 13)) || (n =? 32))%nat.

Fixpoint trim_start (s : string) : string :=
  match s with
  | String c s' => if is_white_space c then trim_start s' else s
  | EmptyString => EmptyString
  end.

(** The value of a hexadecimal digit of either case. *)
Definition hex_digit (c : ascii) : option Z :=
  let n := Z.of_nat (nat_of_ascii c) in
  if (48 <=? n) && (n <=? 57) then Some (n - 48)
  else if (97 <=? n) && (n <=? 102) then Some (n - 87)
  else if (65 <=? n) && (n <=? 70) then Some (n - 55)
  else None.

(** The value of the longest prefix of hexadecimal digits, given the value
    [acc] of the digits read so far ([None]: no digit yet). *)
Fixpoint hex_prefix (s : string) (acc : option Z) : option Z :=
  match s with
  | String c s' =>
      match hex_digit c with
      | Some d => hex_prefix s' (Some (16 * match acc with Some a => a | None => 0 end + d))
      | None => acc
      end
  | EmptyString => acc
  end.

(** [parseInt(s, 16)]: leading white space, a sign, a [0x] or [0X] prefix,
    then the longest run of hexadecimal digits; [None] is [NaN]. *)
Definition parseInt16 (s : string) : option Js.number :=
  let s1 := trim_start s in
  let '(negative, s2) :=
    match s1 with
    | String "-" r => (true, r)
    | String "+" r => (false, r)
    | _ => (false, s1)
    end in
  let s3 :=
    match s2 with
    | String "0" (String "x" r) => r
    | String "0" (String "X" r) => r
    | _ => s2
    end in
  match hex_prefix s3 None with
  | Some v => Some (Js.Number_of_bigint (if negative then - v else v))
  | None => None
  end.

(** The loop of [hexToBytes]:
<<
  for (let i = 0; i < s.length; i += 2) out.push(parseInt(s.slice(i, i + 2), 16));
>>
    [n] bounds the number of iterations; the length of [s] suffices. *)
Fixpoint hexToBytes_loop (n : nat) (s : string) (i : Z)
         (out : list (option Js.number)) : list (option Js.number) :=
  match n with
  | O => out
  | S n' =>
      if i <? Z.of_nat (String.length s)
      then hexToBytes_loop n' s (i + 2)
                           (out ++ [parseInt16 (Js.slice s i (Some (i + 2)))])
      else out
  end.

(** The double quote, written by its code. *)
Definition quote : ascii := "034"%char.

(** scanner.ts:
<<
  function hexToBytes(hex: string): number[] {
    const s = hex.replace(/^0x/, "").toLowerCase();
    if (!s.length) return [];
    if (s.length % 2 !== 0) throw new Error(`Invalid hex length for "${hex}"`);
    const out: number[] = [];
    for (let i = 0; i < s.length; i += 2) out.push(parseInt(s.slice(i, i + 2), 16));
    return out;
  }
>>
    An element of the result is a number or [NaN] ([None]). *)
Definition hexToBytes (hex : string) : outcome (list (option Js.number)) :=
  let s := Js.toLowerCase (ApiScanner.strip_0x hex) in
  if (String.length s =? 0)%nat then Done []
  else if negb (Z.of_nat (String.length s) mod 2 =? 0)
       then Thrown ("Invalid hex length for " ++ String quote (hex ++ String quote ""))
       else Done (hexToBytes_loop (String.length s) s 0 []).

(** scanner.ts, with [raw] for [process.env[name]]:
<<
  function envHex(name: string, def: string): string {
    const raw = process.env[name];
    const s = (raw ?? def).toLowerCase().replace(/^0x/, "");
    return /^[0-9a-f]*$/.test(s) ? s : def.toLowerCase();
  }
>> *)
Definition envHex (raw : option string) (def : string) : string :=
  let s := ApiScanner.strip_0x (Js.toLowerCase (ApiScanner.nullish raw def)) in
  if Parse.all_lower_hex s then s else Js.toLowerCase def.

(** [const WALLET_SUBACCOUNT_HEX = envHex("WALLET_SUBACCOUNT_HEX", "")]. *)
Definition WALLET_SUBACCOUNT_HEX (raw : option string) : string := envHex raw "".

(** [main], the sub-identity of the wallet:
<<
  const WALLET_SUBACCOUNT = (() => {
    if (!WALLET_SUBACCOUNT_HEX) return null;
    const b = hexToBytes(WALLET_SUBACCOUNT_HEX);
    if (b.length === 0) return null;
    if (b.length !== 32) { console.warn(...); return null; }
    return b;
  })();
>> *)
Definition WALLET_SUBACCOUNT (raw : option string)
  : outcome (option (list (option Js.number))) :=
  match WALLET_SUBACCOUNT_HEX raw with
  | EmptyString => Done None
  | hex =>
      b <- hexToBytes hex ;;
      if (List.length b =? 0)%nat then Done None
      else if negb (List.length b =? 32)%nat then Done None
           else Done (Some b)
  end.

(** A byte as an element of a [number[]]. *)
Definition number_of_byte (b : Byte.byte) : option Js.number :=
  Some (Js.Finite (Z.of_N (Byte.to_N b))).

End Hex.

(** ** scanner.ts: the lines of the report file *)

Module Csv.

Local Open Scope string_scope.

Definition quote : ascii := Hex.quote.
Definition comma : ascii := ","%char.
Definition newline : ascii := "010"%char.

(** The [replace] of [csvEscape], with the flag [g]: every double quote of
    the text is written twice. *)
Fixpoint double_quotes (s : string) : string :=
  match s with
  | EmptyString => EmptyString
  | String c s' =>
      if Ascii.eqb c quote then String quote (String quote (double_quotes s'))
      else String c (double_quotes s')
  end.

(** [csvEscape(v)] for a string [v]: [String(v ?? "")] is [v] itself. *)
Definition csvEscape (v : string) : string :=
  String quote (double_quotes v ++ String quote EmptyString).

(** The text of a direction, the value of the field in the source. *)
Definition direction_name (d : Direction) : string :=
  match d with
  | inflow => "inflow"
  | outflow => "outflow"
  | self => "self"
  | mint => "mint"
  | burn => "burn"
  end.

(** [array.join(sep)]. *)
Fixpoint join (sep : string) (l : list string) : string :=
  match l with
  | [] => EmptyString
  | [x] => x
  | x :: rest => x ++ sep ++ join sep rest
  end.

(** The fields of a row in the order of [rowToCsvLine]. *)
Definition fields (r : CsvRow) : list string :=
  [date_iso r; token r; direction_name (direction r); amount r;
   from_principal r; to_principal r; block_index r; memo r].

(** [rowToCsvLine(r)]: [[...].map(csvEscape).join(",") + "\n"]. *)
Definition rowToCsvLine (r : CsvRow) : string :=
  join "," (map csvEscape (fields r)) ++ String newline EmptyString.

Definition CSV_HEADER : list string :=
  ["date_iso"; "token"; "direction"; "amount"; "from_principal"; "to_principal";
   "block_index"; "memo"].

(** The report file: [None] when it does not exist, its text otherwise.  A
    call of [fs] that throws leaves the file as it was; the flag of each
    operation says whether the call succeeded.
<<
  function ensureCsvHeader(path: string) {
    try {
      if (!fs.existsSync(path) || fs.statSync(path).size === 0) {
        fs.writeFileSync(path, CSV_HEADER.join(",") + "\n", "utf8");
      }
    } catch (e) { console.error(`Failed to init CSV ${path}:`, e); }
  }
  function appendRow(path: string, row: CsvRow) {
    try { fs.appendFileSync(path, rowToCsvLine(row), "utf8"); }
    catch (e) { console.error(`Failed to append to ${path}:`, e, row); }
  }
>> *)
Definition File : Type := option string.

Definition ensureCsvHeader (written : bool) (file : File) : File :=
  match file with
  | None | Some EmptyString =>
      if written then Some (join "," CSV_HEADER ++ String newline EmptyString)
      else file
  | Some _ => file
  end.

Definition appendRow (written : bool) (file : File) (row : CsvRow) : File :=
  if written then
    Some (match file with Some text => text | None => EmptyString end
          ++ rowToCsvLine row)
  else file.

(** The rows emitted in a run, each with the flag of its append. *)
Definition appendRows (file : File) (rows : list (bool * CsvRow)) : File :=
  fold_left (fun f wr => appendRow (fst wr) f (snd wr)) rows file.

(** *** Reading a report back

    A reader of comma-separated text with quoted fields: inside quotes a
    doubled quote is one quote and commas and line breaks are data. *)
Inductive ReaderState : Type :=
  | FieldStart
  | Unquoted
  | Quoted
  | QuoteSeen.

(** [field] is the text of the field being read, [record] the fields of the
    line so far, [records] the lines read. *)
Fixpoint read (s : string) (st : ReaderState) (field : string)
         (record : list string) (records : list (list string))
  : option (list (list string)) :=
  match s with
  | EmptyString =>
      match st, record with
      | FieldStart, [] => Some records
      | Quoted, _ => None
      | _, _ => Some (records ++ [record ++ [field]])%list
      end
  | String c s' =>
      match st with
      | FieldStart | Unquoted =>
          if Ascii.eqb c comma then read s' FieldStart "" (record ++ [field])%list records
          else if Ascii.eqb c newline
               then read s' FieldStart "" [] (records ++ [record ++ [field]])%list
               else if Ascii.eqb c quote
                    then match st with
                         | FieldStart => read s' Quoted "" record records
                         | _ => None
                         end
                    else read s' Unquoted (field ++ String c "") record records
      | Quoted =>
          if Ascii.eqb c quote then read s' QuoteSeen field record records
          else read s' Quoted (field ++ String c "") record records
      | QuoteSeen =>
          if Ascii.eqb c quote then read s' Quoted (field ++ String c "") record records
          else if Ascii.eqb c comma then read s' FieldStart "" (record ++ [field])%list records
               else if Ascii.eqb c newline
                    then read s' FieldStart "" [] (records ++ [record ++ [field]])%list
                    else None
      end
  end.

Definition read_csv (text : string) : option (list (list string)) :=
  read text FieldStart "" [] [].

Definition direction_of_name (name : string) : option Direction :=
  if String.eqb name "inflow" then Some inflow
  else if String.eqb name "outflow" then Some outflow
  else if String.eqb name "self" then Some self
  else if String.eqb name "mint" then Some mint
  else if String.eqb name "burn" then Some burn
  else None.

(** The row of a line of eight fields. *)
Definition row_of_fields (l : list string) : option CsvRow :=
  match l with
  | [d; t; dir; a; f; to; b; m] =>
      match direction_of_name dir with
      | Some x => Some (mkRow d t x a f to b m)
      | None => None
      end
  | _ => None
  end.

(** The lines that a run appends for [rows], one after the other. *)
Definition lines (rows : list CsvRow) : string :=
  fold_right (fun r text => rowToCsvLine r ++ text) "" rows.

End Csv.

(** ** src/rosetta-flow-retriever.ts: totals and the analysis of a flow *)

Module Flow.

Local Open Scope string_scope.
Local Open Scope Z_scope.

(** *** [BigInt(text)] *)

(** White space at the end of a text, removed. *)
Fixpoint trim_end (s : string) : string :=
  match s with
  | EmptyString => EmptyString
  | String c s' =>
      match trim_end s' with
      | EmptyString => if Hex.is_white_space c then EmptyString else String c EmptyString
      | r => String c r
      end
  end.

(** The value of a digit or letter, [0-9], [a-z] or [A-Z]. *)
Definition digit_of (c : ascii) : option Z :=
  let n := Z.of_nat (nat_of_ascii c) in
  if (48 <=? n) && (n <=? 57) then Some (n - 48)
  else if (97 <=? n) && (n <=? 122) then Some (n - 87)
  else if (65 <=? n) && (n <=? 90) then Some (n - 55)
  else None.

(** The value of a text all of whose characters are digits of the radix. *)
Fixpoint digits_value (radix : Z) (s : string) (acc : Z) : option Z :=
  match s with
  | EmptyString => Some acc
  | String c s' =>
      match digit_of c with
      | Some d => if d <? radix then digits_value radix s' (radix * acc + d) else None
      | None => None
      end
  end.

Definition nonempty_digits (radix : Z) (s : string) : option Z :=
  match s with
  | EmptyString => None
  | _ => digits_value radix s 0
  end.

(** The integer of a text, as [BigInt(text)] reads it: white space around it
    is dropped, the empty text is 0, decimal digits may follow a sign, and
    the prefixes [0x], [0o], [0b] (of either case, without sign) announce
    another radix.  [None]: a [SyntaxError]. *)
Definition StringToBigInt (text : string) : option Z :=
  let t := trim_end (Hex.trim_start text) in
  match t with
  | EmptyString => Some 0
  | String "0" (String "x" ds) | String "0" (String "X" ds) => nonempty_digits 16 ds
  | String "0" (String "o" ds) | String "0" (String "O" ds) => nonempty_digits 8 ds
  | String "0" (String "b" ds) | String "0" (String "B" ds) => nonempty_digits 2 ds
  | String "-" ds => option_map Z.opp (nonempty_digits 10 ds)
  | String "+" ds => nonempty_digits 10 ds
  | _ => nonempty_digits 10 t
  end.

Definition BigInt_of_string (text : string) : outcome Z :=
  match StringToBigInt text with
  | Some z => Done z
  | None => Thrown "SyntaxError"
  end.

(** [text.replace(".", "")]: the first point is removed. *)
Fixpoint remove_first_point (s : string) : string :=
  match s with
  | EmptyString => EmptyString
  | String "." s' => s'
  | String c s' => String c (remove_first_point s')
  end.

(** *** The totals of the summary

    [main], for the totals of an asset, which are kept as formatted texts:
<<
  const currentReceived = BigInt(assetStats.totalReceived.replace(".", ""));
  ...
  assetStats.totalReceived = formatAmount(
    (currentReceived + flow.totalReceived).toString(),
    config.decimals
  );
>> *)
Definition current_total (total : string) : outcome Z :=
  BigInt_of_string (remove_first_point total).

Definition add_to_total (decimals : Z) (total : string) (flowTotal : Z) : outcome string :=
  current <- current_total total ;;
  Done (Rosetta.formatAmount (Js.Z_toString 10 (current + flowTotal)) decimals).

(** The totals after the flows of an asset, from the initial text ["0"]. *)
Fixpoint summary_total (decimals : Z) (total : string) (flowTotals : list Z)
  : outcome string :=
  match flowTotals with
  | [] => Done total
  | t :: rest =>
      total' <- add_to_total decimals total t ;;
      summary_total decimals total' rest
  end.

(** *** [analyzeTransactionFlow] *)

Record Operation : Type := mkOperation {
    op_index : Z;                     (* operation_identifier.index *)
    op_type : string;                 (* type *)
    op_address : string;              (* account.address *)
    op_sub_account : option string;   (* account.sub_account?.address *)
    op_amount : option string         (* amount?.value; None: no amount *)
  }.

Record RosettaTransaction : Type := mkTransaction {
    block_index : Z;                  (* block_identifier.index *)
    hash : string;                    (* transaction.transaction_identifier.hash *)
    operations : list Operation
  }.

Inductive TxType : Type := SEND | RECEIVE.

Record TxData : Type := mkTxData {
    blockHeight : Z;
    txHash : string;
    type : TxType;
    counterparty : string;
    counterpartySubaccount : option string;
    amount : string;
    fee : option string
  }.

Record Stats : Type := mkStats {
    stats_totalReceived : Z;
    stats_totalSent : Z;
    transactionCount : Z
  }.

Record TransactionFlow : Type := mkFlow {
    transactions : list TxData;
    totalReceived : Z;
    totalSent : Z;
    netBalance : Z;
    counterparties : list (string * Stats)   (* a Map, in insertion order *)
  }.

(** [map.get(key)] and [map.set(key, value)] on the entries of a [Map]. *)
Definition map_get (key : string) (m : list (string * Stats)) : option Stats :=
  match find (fun entry => String.eqb (fst entry) key) m with
  | Some entry => Some (snd entry)
  | None => None
  end.

Fixpoint map_set (key : string) (value : Stats) (m : list (string * Stats))
  : list (string * Stats) :=
  match m with
  | [] => [(key, value)]
  | (k, v) :: rest =>
      if String.eqb k key then (key, value) :: rest
      else (k, v) :: map_set key value rest
  end.

Section Analyze.

(** The address analysed, [parseAddress(address).principal], and the
    decimals of the asset. *)
Variables address principal : string.
Variable decimals : Z.

Definition isOurAddress (op : Operation) : bool :=
  String.eqb (op_address op) principal || String.eqb (op_address op) address.

(** The loop that looks for "the OTHER TRANSFER operation that's not our
    address"; it stops at the first one. *)
Definition find_counterparty (op : Operation) (ops : list Operation)
  : string * option string :=
  match find (fun otherOp =>
                (String.eqb (op_type otherOp) "TRANSFER"
                 || String.eqb (op_type otherOp) "TRANSACTION")
                && negb (op_index otherOp =? op_index op)
                && (negb (String.eqb (op_address otherOp) principal)
                    && negb (String.eqb (op_address otherOp) address)
                    && negb (String.eqb (op_address otherOp) (op_address op))))
             ops with
  | Some otherOp => (op_address otherOp, op_sub_account otherOp)
  | None => ("unknown", None)
  end.

(** [feeOp?.amount?.value], when truthy. *)
Definition fee_value (ops : list Operation) : option string :=
  match find (fun o => String.eqb (op_type o) "FEE") ops with
  | Some feeOp =>
      match op_amount feeOp with
      | Some (String c v) => Some (String c v)
      | _ => None
      end
  | None => None
  end.

(** The body of the loop over the operations of a transaction. *)
Definition analyze_operation (tx : RosettaTransaction) (op : Operation)
           (flow : TransactionFlow) : outcome TransactionFlow :=
  match op_amount op with
  | None => Done flow
  | Some value =>
      if String.eqb (op_type op) "FEE" then Done flow
      else if negb (isOurAddress op) then Done flow
      else
        amount <- BigInt_of_string value ;;
        let isReceive := 0 <? amount in
        let '(counterparty, counterpartySubaccount) :=
          find_counterparty op (operations tx) in
        let txData :=
          mkTxData (block_index tx) (hash tx)
                   (if isReceive then RECEIVE else SEND)
                   counterparty
                   (match counterpartySubaccount with
                    | Some (String c s) => Some (String c s)
                    | _ => None
                    end)
                   (Rosetta.formatAmount value decimals)
                   (option_map (fun v => Rosetta.formatAmount v decimals)
                               (fee_value (operations tx))) in
        let sent := if amount <? 0 then - amount else amount in
        let counterparties' :=
          if negb (String.eqb counterparty "unknown") then
            let cpStats :=
              match map_get counterparty (counterparties flow) with
              | Some s => s
              | None => mkStats 0 0 0
              end in
            map_set counterparty
                    (if isReceive
                     then mkStats (stats_totalReceived cpStats + amount)
                                  (stats_totalSent cpStats)
                                  (transactionCount cpStats + 1)
                     else mkStats (stats_totalReceived cpStats)
                                  (stats_totalSent cpStats + sent)
                                  (transactionCount cpStats + 1))
                    (counterparties flow)
          else counterparties flow in
        Done (mkFlow (transactions flow ++ [txData])
                     (if isReceive then totalReceived flow + amount
                      else totalReceived flow)
                     (if isReceive then totalSent flow else totalSent flow + sent)
                     (netBalance flow)
                     counterparties')
  end.

Fixpoint analyze_operations (tx : RosettaTransaction) (ops : list Operation)
         (flow : TransactionFlow) : outcome TransactionFlow :=
  match ops with
  | [] => Done flow
  | op :: rest =>
      flow' <- analyze_operation tx op flow ;;
      analyze_operations tx rest flow'
  end.

Fixpoint analyze_transactions (txs : list RosettaTransaction)
         (flow : TransactionFlow) : outcome TransactionFlow :=
  match txs with
  | [] => Done flow
  | tx :: rest =>
      flow' <- analyze_operations tx (operations tx) flow ;;
      analyze_transactions rest flow'
  end.

(** [analyzeTransactionFlow(address, asset, transactions)]; an amount that
    [BigInt] rejects throws out of the function. *)
Definition analyzeTransactionFlow (txs : list RosettaTransaction)
  : outcome TransactionFlow :=
  flow <- analyze_transactions txs (mkFlow [] 0 0 0 []) ;;
  Done (mkFlow (transactions flow) (totalReceived flow) (totalSent flow)
               (totalReceived flow - totalSent flow) (counterparties flow)).

(** The amounts of the operations that the analysis counts: those with an
    amount, of a type other than [FEE], on the address analysed. *)
Definition counted (op : Operation) : bool :=
  match op_amount op with
  | Some _ => negb (String.eqb (op_type op) "FEE") && isOurAddress op
  | None => false
  end.

Definition counted_amounts (txs : list RosettaTransaction) : list Z :=
  flat_map (fun tx =>
              flat_map (fun op =>
                          if counted op then
                            match op_amount op with
                            | Some value =>
                                match StringToBigInt value with
                                | Some z => [z]
                                | None => []
                                end
                            | None => []
                            end
                          else [])
                       (operations tx))
           txs.

End Analyze.

(** Sums over a list of integers. *)
Definition sum (l : list Z) : Z := fold_right Z.add 0 l.

(** Reading a signed decimal back: a minus sign, then the text that
    [Parse.parseDecimal] reads. *)
Definition parseSignedDecimal (text : string) (d : N) : option Z :=
  match text with
  | String "-" rest => option_map (fun n => - Z.of_N n) (Parse.parseDecimal rest d)
  | _ => option_map Z.of_N (Parse.parseDecimal text d)
  end.

End Flow.

(** ** scanner.ts: the would-capture checkers of the sanity checks *)

Module Sanity.

Local Open Scope string_scope.
Local Open Scope Z_scope.

(** The verdict of [wouldCaptureIcpBlock]. *)
Record IcpVerdict : Type := mkIcpVerdict {
    icp_wouldEmit : bool;
    icp_direction : option Direction;
    icp_inWindow : bool;
    icp_timestampIso : string;
    icp_fromHex : string;
    icp_toHex : string;
    icp_amountFmt : string;
    icp_memo : string;
    icp_symbol : string
  }.

Section Icp.

Variable icpAccountIdHex : string.
Variable symbol : string.
Variable decimals : Z.
Variables FROM_MS TO_MS : Z.
(** [new Date(ms).toISOString()], which throws a [RangeError] for a time
    that is no valid date. *)
Variable Date_toISOString : Js.number -> outcome string.

(** [wouldCaptureIcpBlock(block, icpAccountIdHex, symbol, decimals)]:
<<
  const timestampMs = n64ToMillis(block?.timestamp);
  const inWindow =
    typeof timestampMs === "number" && timestampMs >= FROM_MS && timestampMs <= TO_MS;
  let direction = null; let amount = "0"; let fromHex = ""; let toHex = ""; let memo = "";
  ...
    if (opKey === "Transfer") {
      fromHex = accountIdToHex(op.from || []);
      toHex = accountIdToHex(op.to || []);
      amount = ((op.amount?.e8s ?? 0n) as bigint).toString();
      memo = memoToHex(tx?.memo);
      const matchesFrom = fromHex === icpAccountIdHex.toLowerCase();
      const matchesTo = toHex === icpAccountIdHex.toLowerCase();
      if (matchesFrom && matchesTo) direction = "self";
      else if (matchesTo) direction = "inflow";
      else if (matchesFrom) direction = "outflow";
    }
  const wouldEmit = !!direction && inWindow;
  return { wouldEmit, direction, inWindow,
           timestampIso: timestampMs ? new Date(timestampMs).toISOString() : "", ... };
>> *)
Definition wouldCaptureIcpBlock (block : Icp.Block) : outcome IcpVerdict :=
  let timestampMs := Icp.n64ToMillis (Icp.timestamp block) in
  let inWindow :=
    match timestampMs with
    | Some t => negb (Js.ltb t (Js.Finite FROM_MS)) && negb (Js.gtb t (Js.Finite TO_MS))
    | None => false
    end in
  let tx := Icp.transaction block in
  let '(direction, amount, fromHex, toHex, memo) :=
    match Icp.operation tx with
    | Some (Icp.Transfer from to amount_e8s) =>
        let fromHex := Js.toHex from in
        let toHex := Js.toHex to in
        (Icp.direction_of fromHex toHex (Js.toLowerCase icpAccountIdHex),
         Js.Z_toString 10 amount_e8s, fromHex, toHex,
         Fmt.memoToHex (Fmt.MemoBigInt (Icp.memo tx)))
    | _ => (None, "0", "", "", "")
    end in
  let wouldEmit :=
    match direction with Some _ => true | None => false end && inWindow in
  timestampIso <-
    match timestampMs with
    | Some t => if Js.truthy t then Date_toISOString t else Done ""
    | None => Done ""
    end ;;
  Done (mkIcpVerdict wouldEmit direction inWindow timestampIso fromHex toHex
                     (Fmt.formatAmount amount decimals) memo symbol).

End Icp.

(** The verdict of [wouldCaptureIcrc3Block]; [ownerMatch] is [true], [false]
    or [null]. *)
Record Icrc3Verdict : Type := mkIcrc3Verdict {
    id : string;
    wouldEmit : bool;
    direction : option Direction;
    inWindow : bool;
    timestampIso : string;
    fromStr : string;
    toStr : string;
    amountFmt : string;
    memo : string;
    symbol : string;
    ownerMatch : option bool;
    walletStr : string
  }.

Section Icrc3.

Variable Principal : Type.
Variable decode_principal : list Byte.byte -> option Principal.
Variable toText : Principal -> string.
Variable wallet : Icrc.Account Principal.
Variables FROM_TS TO_TS : Z.
Variable token : string.
Variable decimals : Z.
(** [new Date(Number(ts) / 1_000_000).toISOString()], which throws a
    [RangeError] for a time that is no valid date. *)
Variable date_of_nanos : Z -> outcome string.

(** [acctStr(a)]:
<<
  if (!a) return "<nil>";
  const sa = normalizeSub(a.subaccount ?? null);
  const saHex = sa ? bytesToHex(Uint8Array.from(sa)) : "(default)";
  return `${a.owner.toText()} / sa=${saHex}`;
>> *)
Definition acctStr (a : option (Icrc.Account Principal)) : string :=
  match a with
  | None => "<nil>"
  | Some a =>
      let saHex :=
        match Icrc.normalizeSub (Icrc.subaccount a) with
        | Some sa => Js.toHex sa
        | None => "(default)"
        end in
      toText (Icrc.owner a) ++ " / sa=" ++ saHex
  end.

(** [wouldCaptureIcrc3Block(blockWrap, wallet, symbol, decimals)]:
<<
  const ts = extractNat(extractValue(block, "ts"));
  const inWindow = ts >= FROM_TS && ts <= TO_TS;
  let direction = null; let from = null; let to = null; let amount = "0"; let memo = "";
  const tx = extractValue(block, "tx");
  if (tx && (tx as any).Map) {
    const opType = ...;
    if (opType === "xfer" || opType === "transfer") {
      from = extractAccount(extractValue(tx, "from"));
      to = extractAccount(extractValue(tx, "to"));
      amount = extractNat(extractValue(tx, "amt")).toString();
      memo = toHex(new Uint8Array(extractBlob(extractValue(tx, "memo"))));
      if (from && to) { ... direction as in handleIcrcBlock ... }
    }
  }
  const wouldEmit = !!direction && inWindow;
  const ownerMatch =
    (from && from.owner.toText() === wallet.owner.toText()) ||
    (to && to.owner.toText() === wallet.owner.toText());
>> *)
Definition wouldCaptureIcrc3Block (bw : Z * Icrc.Value) : outcome Icrc3Verdict :=
  let block := Some (snd bw) in
  let ts := Icrc.extractNat (Icrc.extractValue block "ts") in
  let inWindow := (FROM_TS <=? ts) && (ts <=? TO_TS) in
  let tx := Icrc.extractValue block "tx" in
  parts <-
    match tx with
    | Some (Icrc.Map _) =>
        let opType :=
          Js.or_else (Icrc.extractText (Icrc.extractValue tx "op"))
            (Js.or_else (Icrc.extractText (Icrc.extractValue block "btype"))
                        (Icrc.extractText (Icrc.extractValue block "type"))) in
        if String.eqb opType "xfer" || String.eqb opType "transfer" then
          from <- Icrc.extractAccount decode_principal (Icrc.extractValue tx "from") ;;
          to <- Icrc.extractAccount decode_principal (Icrc.extractValue tx "to") ;;
          Done (Icrc.classify toText from to wallet, from, to,
                Js.Z_toString 10 (Icrc.extractNat (Icrc.extractValue tx "amt")),
                Js.toHex (Icrc.extractBlob (Icrc.extractValue tx "memo")))
        else Done (None, None, None, "0", "")
    | _ => Done (None, None, None, "0", "")
    end ;;
  let '(direction, from, to, amount, memo) := parts in
  let wouldEmit :=
    match direction with Some _ => true | None => false end && inWindow in
  let owner_is_wallet (a : Icrc.Account Principal) :=
    String.eqb (toText (Icrc.owner a)) (toText (Icrc.owner wallet)) in
  let ownerMatch :=
    match from with
    | Some f =>
        if owner_is_wallet f then Some true
        else match to with
             | Some t => Some (owner_is_wallet t)
             | None => None
             end
    | None =>
        match to with
        | Some t => Some (owner_is_wallet t)
        | None => None
        end
    end in
  timestampIso <- (if ts =? 0 then Done "" else date_of_nanos ts) ;;
  Done (mkIcrc3Verdict (Js.Z_toString 10 (fst bw)) wouldEmit direction inWindow
                       timestampIso (acctStr from) (acctStr to)
                       (Fmt.formatAmount amount decimals) memo token ownerMatch
                       (acctStr (Some wallet))).

End Icrc3.

Arguments wouldCaptureIcrc3Block {Principal} decode_principal toText wallet
  FROM_TS TO_TS token decimals date_of_nanos bw.
Arguments acctStr {Principal} toText a.

End Sanity.

(** ** The segments of [buildSegments], written out *)

Module Segments.

Local Open Scope Z_scope.

(** The number of segments of a window: the number of blocks divided by the
    page size, rounded up. *)
Definition count (startIndex endIndex page : Z) : Z :=
  (endIndex - startIndex + page) / page.

(** The segment of rank [k], counted from the most recent one: [page] blocks
    that end [k] pages below [endIndex], cut at [startIndex]. *)
Definition nth (startIndex endIndex page : Z) (k : Z) : Scanner.Segment :=
  Scanner.mkSegment (Z.max startIndex (endIndex - (k + 1) * page + 1))
                    (Z.min page (endIndex - startIndex + 1 - k * page))
                    k.

Definition all (startIndex endIndex page : Z) : list Scanner.Segment :=
  map (fun k => nth startIndex endIndex page (Z.of_nat k))
      (seq 0 (Z.to_nat (count startIndex endIndex page))).

End Segments.

(** ** scanner.ts: the promise limiter [pLimit] *)

Module Limiter.

Local Open Scope Z_scope.

Section PLimit.

(** The functions [fn] handed to the limiter, and its bound [max] (an
    integer, as [CONCURRENCY] is by default). *)
Variable Task : Type.
Variable max : Z.

(** The variables [active] and [queue] of the closure; [started] records the
    calls [fn()] made so far, in order. *)
Record State : Type := mkState {
    active : Z;
    queue : list Task;
    started : list Task
  }.

Definition initial : State := mkState 0 [] [].

(**
<<
  const run = () => {
    active++;
    fn().then((v) => { next(); resolve(v); })
        .catch((e) => { next(); reject(e); });
  };
>>
    The call [fn()] starts the task; its callbacks run later, when the
    promise of the task settles. *)
Definition run (fn : Task) (st : State) : State :=
  mkState (active st + 1) (queue st) (started st ++ [fn]).

(**
<<
  const next = () => {
    active--;
    if (queue.length) queue.shift()!();
  };
>> *)
Definition next (st : State) : State :=
  match queue st with
  | [] => mkState (active st - 1) [] (started st)
  | r :: rest => run r (mkState (active st - 1) rest (started st))
  end.

(** A call of the limiter: [if (active < max) run(); else queue.push(run);]. *)
Definition limit (fn : Task) (st : State) : State :=
  if active st <? max then run fn st
  else mkState (active st) (queue st ++ [fn]) (started st).

(** What happens to a limiter: it is called with a task, or the promise of a
    started task settles (fulfilled or rejected, either callback calls
    [next] once). *)
Inductive Event : Type :=
  | Call (fn : Task)
  | Settled.

(** The state after a sequence of events, with the number of tasks settled so
    far; [None] when the sequence settles a task that was not started. *)
Fixpoint exec (events : list Event) (st : State) (settled : nat)
  : option (State * nat) :=
  match events with
  | [] => Some (st, settled)
  | Call fn :: rest => exec rest (limit fn st) settled
  | Settled :: rest =>
      if (settled <? List.length (started st))%nat
      then exec rest (next st) (S settled)
      else None
  end.

(** The tasks handed to the limiter, in the order of the calls. *)
Definition calls (events : list Event) : list Task :=
  flat_map (fun e => match e with Call fn => [fn] | Settled => [] end) events.

End PLimit.

Arguments mkState {Task} active queue started.
Arguments active {Task} s.
Arguments queue {Task} s.
Arguments started {Task} s.
Arguments initial {Task}.
Arguments run {Task} fn st.
Arguments next {Task} st.
Arguments limit {Task} max fn st.
Arguments Call {Task} fn.
Arguments Settled {Task}.
Arguments exec {Task} max events st settled.
Arguments calls {Task} events.

End Limiter.

(** ** api_scanner.ts: paging through the transactions of an account *)

Module ApiFetch.

Local Open Scope Z_scope.

Section Pagination.

(** The transactions, [config.scanning.pageSize] (an integer), and the two
    endpoints as [http.getJsonFromBases] answers them: version 2 takes the
    cursor and gives the items and the next cursor of
    [normalizeV2Response]; version 1 takes the offset. *)
Variable Tx : Type.
Variable pageSize : Z.
Variable v2 : option string -> outcome (list Tx * option string).
Variable v1 : Z -> outcome (list Tx).

(** [const limit = Math.min(100, pageSize); // API max is 100]. *)
Definition limit : Z := Z.min 100 pageSize.

(** [!next]. *)
Definition no_next (next : option string) : bool :=
  match next with
  | None | Some EmptyString => true
  | Some _ => false
  end.

(** The loop over the pages of version 2, inside the [try]:
<<
  for (let iterations = 0; iterations < 1000; iterations++) {
    const response = await http.getJsonFromBases(..., { ..., ...(cursor ? { after: cursor } : {}) });
    const { items, next } = icpTransactions.normalizeV2Response(response);
    transactions.push(...items);
    if (!next || items.length < limit) break;
    cursor = next;
  }
>>
    The result is the array [transactions] and the exception that ended the
    loop, if any. *)
Fixpoint v2_loop (iterations : nat) (cursor : option string) (transactions : list Tx)
  : list Tx * option string :=
  match iterations with
  | O => (transactions, None)
  | S iterations' =>
      match v2 cursor with
      | Thrown e => (transactions, Some e)
      | Done (items, next) =>
          let transactions := transactions ++ items in
          if no_next next || (Z.of_nat (List.length items) <? limit)
          then (transactions, None)
          else v2_loop iterations' next transactions
      end
  end.

(** The loop over the pages of version 1:
<<
  let offset = 0;
  for (let iterations = 0; iterations < 1000; iterations++) {
    const response = await http.getJsonFromBases(..., { ..., limit, offset, ... });
    const batch = (response.blocks ?? response.data ?? []) as IcpTx[];
    transactions.push(...batch);
    if (batch.length === 0 || batch.length < limit) break;
    offset += batch.length;
  }
  return transactions;
>> *)
Fixpoint v1_loop (iterations : nat) (offset : Z) (transactions : list Tx)
  : outcome (list Tx) :=
  match iterations with
  | O => Done transactions
  | S iterations' =>
      batch <- v1 offset ;;
      let transactions := transactions ++ batch in
      if (Z.of_nat (List.length batch) =? 0) || (Z.of_nat (List.length batch) <? limit)
      then Done transactions
      else v1_loop iterations' (offset + Z.of_nat (List.length batch)) transactions
  end.

(** [icpTransactions.fetchByAccount]: version 2 first; version 1 when
    version 2 threw or gave nothing.  The array [transactions] is the same
    in both parts. *)
Definition fetchByAccount : outcome (list Tx) :=
  match v2_loop 1000 None [] with
  | (transactions, None) =>
      if (0 <? Z.of_nat (List.length transactions)) then Done transactions
      else v1_loop 1000 0 transactions
  | (transactions, Some _) => v1_loop 1000 0 transactions
  end.

End Pagination.

Arguments limit pageSize : assert.
Arguments v2_loop {Tx} pageSize v2 iterations cursor transactions.
Arguments v1_loop {Tx} pageSize v1 iterations offset transactions.
Arguments fetchByAccount {Tx} pageSize v2 v1.

(** A server of version 1 that holds the list [all] and answers a request
    with the [limit] items from [offset] on. *)
Definition serves {Tx : Type} (pageSize : Z) (all : list Tx)
           (v1 : Z -> outcome (list Tx)) : Prop :=
  forall offset : Z,
    0 <= offset ->
    v1 offset = Done (firstn (Z.to_nat (limit pageSize)) (skipn (Z.to_nat offset) all)).

End ApiFetch.

(** ** Data of the examples *)

Module Examples.

(** A watched account with a sub-identity of its own, in strict mode. *)
Definition strict_config : ApiScanner.Config :=
  ApiScanner.mkConfig
    "ijsei-nrxkc-26l5m-cj5ki-tkdti-7befc-6lhjr-ofope-4szgt-hmnvc-aqe"
    "e71fb5d09ec4082185c469d95ea1628e1fd5a6b3302cc7ed001df577995e9297"
    "0000000000000000000000000000000000000000000000000000000000000001"
    true.

Definition watched_side : ApiScanner.Account :=
  ApiScanner.mkAccount
    (Some "ijsei-nrxkc-26l5m-cj5ki-tkdti-7befc-6lhjr-ofope-4szgt-hmnvc-aqe"%string)
    (Some "0000000000000000000000000000000000000000000000000000000000000001"%string).

Definition default_side : ApiScanner.Account :=
  ApiScanner.mkAccount
    (Some "ijsei-nrxkc-26l5m-cj5ki-tkdti-7befc-6lhjr-ofope-4szgt-hmnvc-aqe"%string)
    None.

Definition transfer_between (from to : ApiScanner.Account) : ApiScanner.IcrcTx :=
  ApiScanner.mkIcrcTx "42" "2025-07-01T00:00:00Z" "transfer" (Some from) (Some to)
                      (Some "100000000"%string) (Some "ckBTC"%string) (Some 8) None.

(** Accounts of the tagged-value scanner over principals written as text. *)
Definition text_account (owner : string) (sub : option (list Byte.byte))
  : Icrc.Account string :=
  Icrc.mkAccount owner sub.

(** A sub-identity of 32 bytes, the last of which is 1. *)
Definition subaccount_one : list Byte.byte := repeat Byte.x00 31 ++ [Byte.x01].

(** No date is needed in the examples. *)
Definition no_date {A : Type} (_ : A) : string := EmptyString.

(** The account identifier watched by default, and its bytes. *)
Definition watched_hex : string :=
  "e71fb5d09ec4082185c469d95ea1628e1fd5a6b3302cc7ed001df577995e9297".

Definition watched_bytes : list Byte.byte :=
  [Byte.xe7; Byte.x1f; Byte.xb5; Byte.xd0; Byte.x9e; Byte.xc4; Byte.x08; Byte.x21;
   Byte.x85; Byte.xc4; Byte.x69; Byte.xd9; Byte.x5e; Byte.xa1; Byte.x62; Byte.x8e;
   Byte.x1f; Byte.xd5; Byte.xa6; Byte.xb3; Byte.x30; Byte.x2c; Byte.xc7; Byte.xed;
   Byte.x00; Byte.x1d; Byte.xf5; Byte.x77; Byte.x99; Byte.x5e; Byte.x92; Byte.x97].

Definition other_bytes : list Byte.byte := repeat Byte.x11 32.

(** The default window starts on 2025-06-01T00:00:00Z; an end in 2026. *)
Definition FROM_MS : Z := 1748736000000.
Definition TO_MS : Z := 1767225600000.

Definition icp_block (op : Icp.Operation) (nanos : Z) : Icp.Block :=
  Icp.mkBlock (Icp.mkTransaction 0 (Some op)) (Some nanos).

Definition icp_tx (transfer_type : string) : ApiScanner.IcpTx :=
  ApiScanner.mkIcpTx "25906544" transfer_type (Some "5000000"%string)
                     (Some "aa"%string) (Some "bb"%string) (Some 1750000000) None None.

Definition owner_only_config : ApiScanner.Config :=
  ApiScanner.mkConfig "" watched_hex "" false.

(** A tagged-value transfer whose [from] map has no [owner] entry. *)
Definition block_without_owner : Icrc.Value :=
  Icrc.Map
    [("ts"%string, Icrc.Nat 1750000000000000000);
     ("tx"%string,
      Icrc.Map
        [("op"%string, Icrc.Text "xfer");
         ("from"%string, Icrc.Map [("subaccount"%string, Icrc.Blob subaccount_one)]);
         ("to"%string, Icrc.Map [("owner"%string, Icrc.Blob other_bytes)]);
         ("amt"%string, Icrc.Nat 5000000)])].

(** A principal library that accepts at most 29 bytes and prints them in
    hexadecimal. *)
Definition decode_29 (bytes : list Byte.byte) : option (list Byte.byte) :=
  if (List.length bytes <=? 29)%nat then Some bytes else None.

Definition wallet_bytes : Icrc.Account (list Byte.byte) :=
  Icrc.mkAccount [Byte.x01; Byte.x02] None.

(** A ledger of 2000 blocks: the query of the newer page times out, the older
    page holds a transfer to the watched account. *)
Definition inflow_block : Icp.Block :=
  icp_block (Icp.Transfer other_bytes watched_bytes 5000000) 1750000000000000000.

Definition flaky_query (start length : Z) : outcome Scan.QueryBlocksResponse :=
  if start =? 1000 then Thrown "timeout"
  else Done (Scan.mkResponse [inflow_block] start []).

Definition no_archive (_ : Scan.ArchivedRange) : outcome (option (list Icp.Block)) :=
  Done None.

(** The same ledger seen through the fetcher of the parallel variant. *)
Definition flaky_fetch (seg : Scanner.Segment) : outcome (list (Z * Icp.Block)) :=
  match flaky_query (Scanner.start seg) (Scanner.length seg) with
  | Done res => Done (combine (map (fun i => Scan.first_block_index res + Z.of_nat i)
                                   (seq 0 (List.length (Scan.blocks res))))
                              (Scan.blocks res))
  | Thrown e => Thrown e
  end.

Definition inflow_row : CsvRow :=
  mkRow "" "ICP" inflow "0.05" "" "" "0" "".


(** A row whose fields hold a comma, a double quote and a line break. *)
Definition quoted_row : CsvRow :=
  mkRow "2025-07-01T00:00:00.000Z" "ck,BTC" inflow "0.05"
        (String "a" (String Hex.quote (String "b" EmptyString)))
        (String "c" (String "010"%char (String "d" EmptyString)))
        "42" "".

(** Two transactions seen from the address [bbb]: a deposit of 150 base
    units from [aaa] with its fee, and a withdrawal of 40 to [ccc]. *)
Definition flow_txs : list Flow.RosettaTransaction :=
  [Flow.mkTransaction 10 "h1"
     [Flow.mkOperation 0 "TRANSACTION" "aaa" None (Some "-150"%string);
      Flow.mkOperation 1 "TRANSACTION" "bbb" None (Some "150"%string);
      Flow.mkOperation 2 "FEE" "aaa" None (Some "-10"%string)];
   Flow.mkTransaction 11 "h2"
     [Flow.mkOperation 0 "TRANSACTION" "bbb" None (Some "-40"%string);
      Flow.mkOperation 1 "TRANSACTION" "ccc" None (Some "40"%string)]].

Definition flow_result : Flow.TransactionFlow :=
  Flow.mkFlow
    [Flow.mkTxData 10 "h1" Flow.RECEIVE "aaa" None "0.0000015" (Some "-0.0000001"%string);
     Flow.mkTxData 11 "h2" Flow.SEND "ccc" None "-0.0000004" None]
    150 40 110
    [("aaa"%string, Flow.mkStats 150 0 1); ("ccc"%string, Flow.mkStats 0 40 1)].

(** A tagged-value transfer of 0.05 from the owner [03] to the wallet
    [wallet_bytes] (owner [01 02]), inside the window. *)
Definition icrc_inflow_block : Icrc.Value :=
  Icrc.Map
    [("ts"%string, Icrc.Nat 1750000000000000000);
     ("tx"%string,
      Icrc.Map
        [("op"%string, Icrc.Text "xfer");
         ("from"%string, Icrc.Map [("owner"%string, Icrc.Blob [Byte.x03])]);
         ("to"%string, Icrc.Map [("owner"%string, Icrc.Blob [Byte.x01; Byte.x02])]);
         ("amt"%string, Icrc.Nat 5000000)])].

Definition FROM_TS : Z := FROM_MS * 1000000.
Definition TO_TS : Z := TO_MS * 1000000.

(** A date that is not needed, for a checker. *)
Definition no_date_checked {A : Type} (_ : A) : outcome string := Done EmptyString.

(** A listing of 150 transactions, served 100 at a time by version 1; a
    version 2 that is down, and one that fails on its second page. *)
Definition listing : list Z := map Z.of_nat (seq 0 150).

Definition v1_server (offset : Z) : outcome (list Z) :=
  Done (firstn 100 (skipn (Z.to_nat offset) listing)).

Definition v2_down (_ : option string) : outcome (list Z * option string) :=
  Thrown "503".

Definition v2_flaky (cursor : option string) : outcome (list Z * option string) :=
  match cursor with
  | None => Done (firstn 100 listing, Some "cursor-1"%string)
  | Some _ => Thrown "timeout"
  end.
End Examples.

(* ================================================================== *)
(** * Part II. Lemmas and theorems *)
(* ================================================================== *)

(** ** [Number(bigint)] *)

Lemma round53_exact (x : Z) : 0 <= x <= 2 ^ 53 -> Js.round53 x = x.
Proof.
  intros [H0 H1].
  destruct (Z.eq_dec x (2 ^ 53)) as [->|Hne]; [reflexivity|].
  destruct (Z.eq_dec x 0) as [->|Hz]; [reflexivity|].
  unfold Js.round53.
  assert (Z.log2 x < 53) by (apply Z.log2_lt_pow2; lia).
  destruct (Z.leb_spec (Z.log2 x + 1) 53); [reflexivity|lia].
Qed.

Lemma round53_large (x : Z) : 2 ^ 53 < x -> 2 ^ 53 <= Js.round53 x.
Proof.
  intros Hx.
  unfold Js.round53.
  assert (Hl : 53 <= Z.log2 x) by (apply Z.log2_le_pow2; lia).
  destruct (Z.leb_spec (Z.log2 x + 1) 53); [lia|].
  set (e := Z.log2 x + 1 - 53).
  assert (He : 1 <= e) by (unfold e; lia).
  set (q := Z.shiftr x e).
  assert (Hq : 2 ^ 52 <= q).
  { unfold q. rewrite Z.shiftr_div_pow2 by lia.
    apply Z.div_le_lower_bound; [apply Z.pow_pos_nonneg; lia|].
    rewrite <- Z.pow_add_r by lia.
    replace (e + 52) with (Z.log2 x) by (unfold e; lia).
    apply Z.log2_spec; lia. }
  match goal with
  | |- context [if ?c then q + 1 else q] =>
      set (q' := if c then q + 1 else q);
      assert (Hq' : q <= q') by (unfold q'; destruct c; lia)
  end.
  rewrite Z.shiftl_mul_pow2 by lia.
  assert (2 ^ 1 <= 2 ^ e) by (apply Z.pow_le_mono_r; lia).
  change (2 ^ 53) with (2 ^ 52 * 2 ^ 1).
  apply Z.mul_le_mono_nonneg; lia.
Qed.

(** The length of a segment is the exact minimum of the page size and the
    number of blocks left, when one of the two is at most 2^53. *)
Lemma segment_length_min (page x : Z) :
  1 <= page -> 1 <= x -> page <= 2 ^ 53 \/ x <= 2 ^ 53 ->
  Js.BigInt_of_number (Js.Math_min (Js.Finite page) (Js.Number_of_bigint x))
  = Some (Z.min page x).
Proof.
  intros Hp Hx Hexact.
  unfold Js.Number_of_bigint.
  rewrite (Z.abs_eq x) by lia.
  rewrite (Z.sgn_pos x) by lia.
  destruct (Z_le_gt_dec x (2 ^ 53)) as [Hs|Hb].
  - rewrite round53_exact by lia.
    destruct (Z.leb_spec (2 ^ 1024) x) as [Hbig|_].
    + exfalso. assert (2 ^ 53 < 2 ^ 1024) by (apply Z.pow_lt_mono_r; lia). lia.
    + cbn [Js.Math_min Js.BigInt_of_number]. f_equal. lia.
  - assert (Hpage : page <= 2 ^ 53) by lia.
    pose proof (round53_large x ltac:(lia)) as Hr.
    destruct (Z.leb_spec (2 ^ 1024) (Js.round53 x)) as [_|_].
    + destruct (Z.ltb_spec x 0); [lia|].
      cbn [Js.Math_min Js.BigInt_of_number]. f_equal. lia.
    + cbn [Js.Math_min Js.BigInt_of_number]. f_equal. lia.
Qed.

Lemma segment_length_exact (page x : Z) :
  1 <= page <= 2 ^ 53 -> 1 <= x ->
  Js.BigInt_of_number (Js.Math_min (Js.Finite page) (Js.Number_of_bigint x))
  = Some (Z.min page x).
Proof. intros Hp Hx. apply segment_length_min; lia. Qed.

(** ** [buildSegments] *)

(** In a list that is descending a later segment ends below the start of an
    earlier one, so no two segments overlap. *)
Lemma descending_nth (segs : list Scanner.Segment) :
  descending segs ->
  forall (m n : nat) (s t : Scanner.Segment),
    (m < n)%nat -> nth_error segs m = Some s -> nth_error segs n = Some t ->
    Scanner.seg_end t < Scanner.start s.
Proof.
  induction segs as [|x rest IH]; intros Hd m n s t Hmn Hs Ht.
  - destruct m; discriminate Hs.
  - destruct Hd as [Hx Hrest].
    destruct n as [|n]; [lia|].
    cbn [nth_error] in Ht.
    destruct m as [|m].
    + cbn in Hs. injection Hs as <-.
      rewrite Forall_forall in Hx. apply Hx.
      eapply nth_error_In. exact Ht.
    + cbn [nth_error] in Hs. apply (IH Hrest m n s t); [lia|assumption|assumption].
Qed.

Lemma descending_disjoint (segs : list Scanner.Segment) :
  descending segs -> pairwise_disjoint segs.
Proof.
  intros Hd m n s t i Hmn Hs Ht His Hit.
  destruct (Nat.lt_ge_cases m n) as [Hlt|Hge].
  - pose proof (descending_nth segs Hd m n s t Hlt Hs Ht). lia.
  - assert (Hlt : (n < m)%nat) by lia.
    pose proof (descending_nth segs Hd n m t s Hlt Ht Hs). lia.
Qed.

(** More fuel does not change a result already reached. *)
Lemma buildSegments_loop_fuel_mono (fuel fuel' : nat) :
  (fuel <= fuel')%nat ->
  forall startIndex page cursor idx acc r,
    Scanner.buildSegments_loop fuel startIndex page cursor idx acc = Some (Done r) ->
    Scanner.buildSegments_loop fuel' startIndex page cursor idx acc = Some (Done r).
Proof.
  revert fuel'.
  induction fuel as [|fuel IH]; intros fuel' Hle startIndex page cursor idx acc r Hrun.
  - discriminate Hrun.
  - destruct fuel' as [|fuel']; [lia|].
    cbn [Scanner.buildSegments_loop] in *.
    destruct (startIndex <=? cursor); [|exact Hrun].
    destruct (Js.BigInt_of_number _) as [len|]; [|exact Hrun].
    destruct (cursor - (len - 1) =? 0); [exact Hrun|].
    apply IH; [lia|exact Hrun].
Qed.

Section BuildSegments.

Variables startIndex page top : Z.
Hypothesis Hstart : 0 <= startIndex.
Hypothesis Hpage : 1 <= page.
(** The page size, or the number of indices from [startIndex] to [top], is
    an integer that a number holds exactly. *)
Hypothesis Hexact : page <= 2 ^ 53 \/ top - startIndex + 1 <= 2 ^ 53.

(** The loop started at [cursor] appends a descending partition of
    [[startIndex, cursor]] to the segments pushed so far. *)
Lemma buildSegments_loop_spec (fuel : nat) :
  forall cursor idx acc,
    startIndex - 1 <= cursor <= top ->
    (Z.to_nat (cursor - startIndex + 1) < fuel)%nat ->
    exists new,
      Scanner.buildSegments_loop fuel startIndex page cursor idx acc
      = Some (Done (acc ++ new)) /\
      lengths_bounded page new /\
      descending new /\
      covers startIndex cursor new /\
      Forall (fun s => Scanner.seg_end s <= cursor) new.
Proof.
  induction fuel as [|fuel IH]; intros cursor idx acc Hc Hf; [lia|].
  cbn [Scanner.buildSegments_loop].
  destruct (Z.leb_spec startIndex cursor) as [Hle|Hgt].
  2:{ exists []. rewrite app_nil_r.
      split; [reflexivity|]. split; [constructor|]. split; [exact I|].
      split; [|constructor].
      intros i; split; [lia|]. intros (s & Hin & _). destruct Hin. }
  rewrite segment_length_min by lia.
  set (len := Z.min page (cursor - startIndex + 1)).
  assert (Hlen : 1 <= len <= page /\ len <= cursor - startIndex + 1)
    by (unfold len; lia).
  set (seg := Scanner.mkSegment (cursor - (len - 1)) len idx).
  assert (Hseg_end : Scanner.seg_end seg = cursor)
    by (unfold Scanner.seg_end, seg; cbn; lia).
  destruct (Z.eqb_spec (cursor - (len - 1)) 0) as [Hz|Hnz].
  - (* the segment reaches index 0, which is also startIndex *)
    exists [seg]. split; [reflexivity|].
    split; [constructor; [cbn; lia|constructor]|].
    split; [cbn; auto|].
    split.
    + intros i; split.
      * intros Hi. exists seg. split; [left; reflexivity|].
        rewrite Hseg_end. cbn. lia.
      * intros (s & [<-|[]] & Hs). rewrite Hseg_end in Hs. cbn in Hs. lia.
    + constructor; [lia|constructor].
  - destruct (IH (cursor - (len - 1) - 1) (idx + 1) (acc ++ [seg]))
      as (new & Hrun & Hb & Hd & Hcov & Hend); [lia|lia|].
    exists (seg :: new).
    split; [rewrite Hrun, <- app_assoc; reflexivity|].
    split; [constructor; [cbn; lia|exact Hb]|].
    split.
    { cbn [descending]. split; [|exact Hd].
      eapply Forall_impl; [|exact Hend]. cbn. intros; lia. }
    split.
    + intros i; split.
      * intros Hi.
        destruct (Z_lt_le_dec i (cursor - (len - 1))) as [Hlow|Hhigh].
        -- destruct (proj1 (Hcov i) ltac:(lia)) as (s & Hin & Hs).
           exists s. split; [right; exact Hin|exact Hs].
        -- exists seg. split; [left; reflexivity|].
           rewrite Hseg_end. cbn. lia.
      * intros (s & [<-|Hin] & Hs).
        -- rewrite Hseg_end in Hs. cbn in Hs. lia.
        -- pose proof (proj2 (Hcov i) (ex_intro _ s (conj Hin Hs))). lia.
    + constructor; [lia|].
      eapply Forall_impl; [|exact Hend]. cbn. intros; lia.
Qed.

Lemma buildSegments_partitions :
  startIndex - 1 <= top ->
  exists segs,
    buildSegments_returns startIndex top page segs /\
    partitions startIndex top page segs.
Proof.
  intros He.
  set (fuel0 := S (Z.to_nat (top - startIndex + 1))).
  destruct (buildSegments_loop_spec fuel0 top 0 [] ltac:(lia) ltac:(unfold fuel0; lia))
    as (segs & Hrun & Hb & Hd & Hcov & _).
  exists segs. split.
  2:{ split; [exact Hb|]. split; [exact Hd|].
      split; [apply descending_disjoint; exact Hd|exact Hcov]. }
  exists fuel0. intros fuel Hfuel.
  unfold Scanner.buildSegments.
  apply (buildSegments_loop_fuel_mono fuel0 fuel); assumption.
Qed.

End BuildSegments.

(** The window of the scanners is the one the specification gives. *)
Lemma scanWindow_spec (totalLength maxBlocks : Z) :
  Scanner.scanWindow totalLength maxBlocks
  = (Z.max 0 (totalLength - 1 - maxBlocks), totalLength - 1).
Proof.
  unfold Scanner.scanWindow.
  destruct (Z.ltb_spec maxBlocks (totalLength - 1)); f_equal; lia.
Qed.

(** C1 (as amended): for every totalLength >= 1, maxBlocks >= 1 and page size
    >= 1 such that the page size or the size of the window is at most 2^53
    (page <= 2^53, or totalLength <= 2^53, or maxBlocks < 2^53: the integers a
    JavaScript number holds exactly), the window is startIndex =
    max(0, totalLength - 1 - maxBlocks), endIndex = totalLength - 1, and
    buildSegments terminates with segments of length between 1 and the page
    size, listed most recent first, pairwise disjoint, whose union is exactly
    the interval from startIndex to endIndex. *)
Theorem segments_partition_window (totalLength maxBlocks page : Z) :
  1 <= totalLength -> 1 <= maxBlocks -> 1 <= page ->
  page <= 2 ^ 53 \/ totalLength <= 2 ^ 53 \/ maxBlocks < 2 ^ 53 ->
  segments_ok totalLength maxBlocks page.
Proof.
  intros Ht Hm Hp Hexact.
  unfold segments_ok.
  rewrite scanWindow_spec.
  split; [reflexivity|]. split; [reflexivity|].
  apply buildSegments_partitions; lia.
Qed.

Lemma segments_partition_window_witness :
  (1 <= 2500 /\ 1 <= 2000 /\ 1 <= 1000 /\
   (1000 <= 2 ^ 53 \/ 2500 <= 2 ^ 53 \/ 2000 < 2 ^ 53)) /\
  segments_ok 2500 2000 1000.
Proof.
  split; [lia|].
  apply (segments_partition_window 2500 2000 1000); lia.
Defined.

(** C1 as stated fails without the bound on the page size: with a log of
    2^53 + 3 blocks and a page size of 2^53 + 4 the conversion
    [Number(cursor - startIndex + 1n)] rounds 2^53 + 3 up to 2^53 + 4, and the
    only segment starts at index -1, below the window. *)
Lemma segments_unbounded_page_counterexample :
  1 <= 9007199254740995 /\ 1 <= 9007199254740996 /\
  ~ segments_ok 9007199254740995 9007199254740996 9007199254740996.
Proof.
  split; [lia|]. split; [lia|].
  unfold segments_ok.
  rewrite scanWindow_spec.
  intros (_ & _ & segs & (fuel0 & Hrun) & (_ & _ & _ & Hcov)).
  specialize (Hrun (S (S fuel0)) ltac:(lia)).
  vm_compute in Hrun.
  injection Hrun as <-.
  assert (Hin : 0 <= -1).
  { apply (proj2 (Hcov (-1))).
    eexists. split; [left; reflexivity|].
    unfold Scanner.seg_end. cbn. lia. }
  lia.
Qed.

(** The run of that example: one segment, starting at -1. *)
Example buildSegments_unbounded_page_run :
  Scanner.buildSegments 2 0 9007199254740994 9007199254740996
  = Some (Done [Scanner.mkSegment (-1) 9007199254740996 0]).
Proof. vm_compute. reflexivity. Qed.

Example buildSegments_small_run :
  Scanner.buildSegments 5 3 10 4
  = Some (Done [Scanner.mkSegment 7 4 0; Scanner.mkSegment 3 4 1]).
Proof. vm_compute. reflexivity. Qed.

(** ** Strings *)

Section StringFacts.

Local Open Scope string_scope.
Local Open Scope nat_scope.

Lemma append_empty_r (s : string) : s ++ "" = s.
Proof. induction s as [|c s IH]; cbn; [reflexivity|now rewrite IH]. Qed.

Lemma append_assoc (a b c : string) : (a ++ b) ++ c = a ++ (b ++ c).
Proof. induction a as [|x a IH]; cbn; [reflexivity|now rewrite IH]. Qed.

Lemma length_append (a b : string) :
  String.length (a ++ b) = String.length a + String.length b.
Proof. induction a as [|x a IH]; cbn; [reflexivity|now rewrite IH]. Qed.

Lemma take_drop (n : nat) (s : string) : Js.take n s ++ Js.drop n s = s.
Proof.
  revert s; induction n as [|n IH]; intros [|c s]; cbn; try reflexivity.
  now rewrite IH.
Qed.

Lemma length_take (n : nat) (s : string) :
  String.length (Js.take n s) = Nat.min n (String.length s).
Proof.
  revert s; induction n as [|n IH]; intros [|c s]; cbn; try reflexivity.
  now rewrite IH.
Qed.

Lemma length_drop (n : nat) (s : string) :
  String.length (Js.drop n s) = String.length s - n.
Proof.
  revert s; induction n as [|n IH]; intros [|c s]; cbn; try reflexivity.
  apply IH.
Qed.

Lemma take_all (n : nat) (s : string) : String.length s <= n -> Js.take n s = s.
Proof.
  revert s; induction n as [|n IH]; intros [|c s]; cbn; intros H;
    try reflexivity; try lia.
  rewrite IH by lia. reflexivity.
Qed.

Lemma length_repeat_char (c : ascii) (n : nat) :
  String.length (Js.repeat_char c n) = n.
Proof. induction n as [|n IH]; cbn; [reflexivity|now rewrite IH]. Qed.

(** The two slices of [formatAmount], for a positive number of decimals
    smaller than the length. *)
Lemma slice_front (s : string) (d : Z) :
  (0 < d < Z.of_nat (String.length s))%Z ->
  Js.slice s 0 (Some (- d)%Z) = Js.take (String.length s - Z.to_nat d) s.
Proof.
  intros Hd. unfold Js.slice.
  destruct (Z.ltb_spec 0 0); [lia|].
  destruct (Z.ltb_spec (- d) 0); [|lia].
  rewrite Z.min_l by lia. cbn [Z.to_nat Js.drop].
  f_equal. lia.
Qed.

Lemma slice_back (s : string) (d : Z) :
  (0 < d < Z.of_nat (String.length s))%Z ->
  Js.slice s (- d)%Z None = Js.drop (String.length s - Z.to_nat d) s.
Proof.
  intros Hd. unfold Js.slice.
  destruct (Z.ltb_spec (- d) 0); [|lia].
  rewrite Z.max_l by lia.
  replace (Z.to_nat (Z.of_nat (String.length s) + - d))
    with (String.length s - Z.to_nat d) by lia.
  apply take_all. rewrite length_drop. lia.
Qed.

(** What [replace(/0+$/, "")] removes is a run of zeros. *)
Lemma strip_trailing_zeros_split (s : string) :
  s = Js.strip_trailing_zeros s
      ++ Js.repeat_char "0"
           (String.length s - String.length (Js.strip_trailing_zeros s)).
Proof.
  induction s as [|c s IH]; [reflexivity|].
  cbn [Js.strip_trailing_zeros].
  destruct (Js.strip_trailing_zeros s) as [|c' r] eqn:Hr.
  - destruct (Ascii.eqb_spec c "0") as [->|Hc].
    + cbn in IH |- *. rewrite Nat.sub_0_r in IH. now rewrite <- IH.
    + cbn in IH |- *. rewrite Nat.sub_0_r in *. now rewrite <- IH.
  - cbn [String.length append] in IH |- *.
    replace (S (String.length s) - S (S (String.length r)))
      with (String.length s - S (String.length r)) by lia.
    now rewrite <- IH.
Qed.

Lemma strip_trailing_zeros_length (s : string) :
  String.length (Js.strip_trailing_zeros s) <= String.length s.
Proof.
  induction s as [|c s IH]; [cbn; lia|].
  cbn [Js.strip_trailing_zeros].
  destruct (Js.strip_trailing_zeros s) as [|c' r].
  - destruct (Ascii.eqb c "0"); cbn; lia.
  - cbn in *. lia.
Qed.

End StringFacts.

(** ** Digits in a radix *)

Lemma all_chars_append (p : ascii -> bool) (a b : string) :
  Parse.all_chars p (a ++ b) = Parse.all_chars p a && Parse.all_chars p b.
Proof.
  induction a as [|c a IH]; cbn; [reflexivity|].
  rewrite IH. now rewrite andb_assoc.
Qed.

Lemma all_chars_repeat (p : ascii -> bool) (c : ascii) (n : nat) :
  p c = true -> Parse.all_chars p (Js.repeat_char c n) = true.
Proof. intros Hc. induction n as [|n IH]; cbn; [reflexivity|now rewrite Hc, IH]. Qed.

Section RadixFacts.

Local Open Scope N_scope.

Variable radix : N.
Variable value_of : ascii -> N.
Variable is_digit_of : ascii -> bool.

Hypothesis radix_ge_2 : 2 <= radix.
Hypothesis value_of_digit : forall d, d < radix -> value_of (Js.digit_char d) = d.
Hypothesis digit_is_digit : forall d, d < radix -> is_digit_of (Js.digit_char d) = true.

Let value := Parse.radix_value radix value_of.

Lemma radix_value_append (acc : N) (a b : string) :
  value acc (a ++ b) = value (value acc a) b.
Proof.
  revert acc; induction a as [|c a IH]; intros acc; cbn; [reflexivity|].
  apply IH.
Qed.

Lemma radix_value_shift (acc : N) (s : string) :
  value acc s = acc * radix ^ N.of_nat (String.length s) + value 0 s.
Proof.
  revert acc; induction s as [|c s IH]; intros acc.
  - cbn. lia.
  - cbn [String.length]. unfold value in *. cbn [Parse.radix_value].
    rewrite IH. rewrite (IH (radix * 0 + value_of c)).
    rewrite Nat2N.inj_succ, N.pow_succ_r by lia. lia.
Qed.

Lemma to_digits_acc (fuel : nat) (n : N) (acc : string) :
  Js.to_digits fuel radix n acc = (Js.to_digits fuel radix n "" ++ acc)%string.
Proof.
  revert n acc; induction fuel as [|fuel IH]; intros n acc; [reflexivity|].
  cbn [Js.to_digits].
  destruct (n <? radix); [reflexivity|].
  rewrite IH. rewrite (IH _ (String _ EmptyString)).
  rewrite append_assoc. reflexivity.
Qed.

Lemma to_digits_value (fuel : nat) (n : N) :
  n < 2 ^ N.of_nat fuel -> value 0 (Js.to_digits fuel radix n "") = n.
Proof.
  revert n; induction fuel as [|fuel IH]; intros n Hn.
  - cbn in Hn. cbn. lia.
  - cbn [Js.to_digits].
    assert (Hmod : n mod radix < radix) by (apply N.mod_lt; lia).
    destruct (N.ltb_spec n radix) as [Hlt|Hge].
    + unfold value. cbn. rewrite N.mod_small by exact Hlt.
      rewrite value_of_digit by exact Hlt. lia.
    + rewrite to_digits_acc, radix_value_append.
      rewrite IH.
      * unfold value. cbn. rewrite value_of_digit by exact Hmod.
        pose proof (N.div_mod n radix ltac:(lia)). lia.
      * rewrite Nat2N.inj_succ, N.pow_succ_r in Hn by lia.
        apply N.Div0.div_lt_upper_bound.
        assert (2 * 2 ^ N.of_nat fuel <= radix * 2 ^ N.of_nat fuel)
          by (apply N.mul_le_mono_r; lia).
        lia.
Qed.

Lemma N_toString_value (n : N) : value 0 (Js.N_toString radix n) = n.
Proof.
  unfold Js.N_toString. apply to_digits_value.
  destruct (N.eq_dec n 0) as [->|Hn]; [cbn; lia|].
  rewrite Nat2N.inj_succ, N2Nat.id.
  apply N.log2_spec. lia.
Qed.

Lemma to_digits_all (fuel : nat) (n : N) :
  Parse.all_chars is_digit_of (Js.to_digits fuel radix n "") = true.
Proof.
  revert n; induction fuel as [|fuel IH]; intros n; [reflexivity|].
  cbn [Js.to_digits].
  assert (Hmod : n mod radix < radix) by (apply N.mod_lt; lia).
  destruct (n <? radix).
  - cbn. now rewrite digit_is_digit.
  - rewrite to_digits_acc, all_chars_append, IH. cbn.
    now rewrite digit_is_digit.
Qed.

Lemma N_toString_all (n : N) :
  Parse.all_chars is_digit_of (Js.N_toString radix n) = true.
Proof. apply to_digits_all. Qed.

Lemma to_digits_length (fuel : nat) :
  forall (k : nat) (n : N),
    (1 <= k)%nat -> n < radix ^ N.of_nat k ->
    (String.length (Js.to_digits fuel radix n "") <= k)%nat.
Proof.
  induction fuel as [|fuel IH]; intros k n Hk Hn; [cbn; lia|].
  cbn [Js.to_digits].
  destruct (N.ltb_spec n radix) as [Hlt|Hge]; [cbn; lia|].
  rewrite to_digits_acc, length_append. cbn [String.length].
  destruct k as [|[|k]]; [lia| |].
  - change (N.of_nat 1) with 1 in Hn. rewrite N.pow_1_r in Hn. lia.
  - assert (String.length (Js.to_digits fuel radix (n / radix) "") <= S k)%nat.
    { apply IH; [lia|].
      rewrite (Nat2N.inj_succ (S k)), N.pow_succ_r in Hn by lia.
      apply N.Div0.div_lt_upper_bound. exact Hn. }
    lia.
Qed.

Lemma to_digits_nonempty (fuel : nat) (n : N) :
  (1 <= String.length (Js.to_digits (S fuel) radix n ""))%nat.
Proof.
  cbn [Js.to_digits].
  destruct (n <? radix); [cbn; lia|].
  rewrite to_digits_acc, length_append. cbn. lia.
Qed.

Lemma strip_leading_zeros_value (s : string) :
  value_of "0"%char = 0 ->
  value 0 (Js.strip_leading_zeros s) = value 0 s.
Proof.
  intros Hz. induction s as [|c s IH]; [reflexivity|].
  cbn [Js.strip_leading_zeros].
  destruct (Ascii.eqb_spec c "0") as [->|Hc].
  - rewrite IH. unfold value. cbn. rewrite Hz. f_equal. lia.
  - destruct c as [[] [] [] [] [] [] [] []]; try reflexivity. contradiction.
Qed.

Lemma strip_leading_zeros_all (s : string) :
  Parse.all_chars is_digit_of s = true ->
  Parse.all_chars is_digit_of (Js.strip_leading_zeros s) = true.
Proof.
  induction s as [|c s IH]; [reflexivity|].
  intros H. cbn in H. apply andb_prop in H as [Hc Hs].
  cbn [Js.strip_leading_zeros].
  destruct (Ascii.eqb_spec c "0") as [->|Hne].
  - apply IH, Hs.
  - destruct c as [[] [] [] [] [] [] [] []];
      try (cbn [Parse.all_chars]; rewrite Hc, Hs; reflexivity).
    contradiction.
Qed.

Lemma repeat_zero_value (n : nat) :
  value_of "0"%char = 0 -> value 0 (Js.repeat_char "0" n) = 0.
Proof.
  intros Hz. induction n as [|n IH]; [reflexivity|].
  unfold value in *. cbn. rewrite Hz. replace (radix * 0 + 0) with 0 by lia.
  exact IH.
Qed.

End RadixFacts.

(** ** Decimal and hexadecimal digits *)

Lemma N_below_cases (k : nat) (d : N) :
  (d < N.of_nat k)%N -> In d (map N.of_nat (seq 0 k)).
Proof.
  intros Hd. apply in_map_iff. exists (N.to_nat d).
  split; [apply N2Nat.id|]. apply in_seq. lia.
Qed.

Ltac digit_cases d H :=
  let Hin := fresh "Hin" in
  pose proof (N_below_cases _ d H) as Hin;
  cbn in Hin;
  repeat (destruct Hin as [<-|Hin]; [reflexivity|]);
  destruct Hin.

Lemma digit_value_char (d : N) : (d < 10)%N -> Parse.digit_value (Js.digit_char d) = d.
Proof. intros H. change 10%N with (N.of_nat 10) in H. digit_cases d H. Qed.

Lemma is_digit_char (d : N) : (d < 10)%N -> Parse.is_digit (Js.digit_char d) = true.
Proof. intros H. change 10%N with (N.of_nat 10) in H. digit_cases d H. Qed.

Lemma hex_digit_value_char (d : N) :
  (d < 16)%N -> Parse.hex_digit_value (Js.digit_char d) = d.
Proof. intros H. change 16%N with (N.of_nat 16) in H. digit_cases d H. Qed.

Lemma is_lower_hex_char (d : N) :
  (d < 16)%N -> Parse.is_lower_hex (Js.digit_char d) = true.
Proof. intros H. change 16%N with (N.of_nat 16) in H. digit_cases d H. Qed.

(** [toString()] of a non-negative bigint is a string of decimal digits that
    reads back as the integer. *)
Lemma Z_toString_decimal (v : Z) :
  0 <= v ->
  Parse.all_digits (Js.Z_toString 10 v) = true /\
  Parse.decimal_value 0 (Js.Z_toString 10 v) = Z.to_N v.
Proof.
  intros Hv. unfold Js.Z_toString.
  destruct (Z.ltb_spec v 0); [lia|].
  split.
  - apply N_toString_all; [lia|exact is_digit_char].
  - apply N_toString_value; [lia|exact digit_value_char].
Qed.

(** ** [formatAmount] reads back as the base-unit integer *)

Section FormatAmount.

Local Open Scope string_scope.

Let value := Parse.decimal_value 0.

Lemma split_point_digits (w : string) :
  Parse.all_digits w = true -> Parse.split_point w = (w, None).
Proof.
  induction w as [|c w IH]; [reflexivity|].
  intros H. cbn in H. apply andb_prop in H as [Hc Hw].
  cbn [Parse.split_point]. rewrite (IH Hw).
  destruct c as [[] [] [] [] [] [] [] []]; try reflexivity; discriminate Hc.
Qed.

Lemma split_point_fraction (w f : string) :
  Parse.all_digits w = true -> Parse.split_point (w ++ String "." f) = (w, Some f).
Proof.
  induction w as [|c w IH]; [reflexivity|].
  intros H. cbn in H. apply andb_prop in H as [Hc Hw].
  cbn [append Parse.split_point]. rewrite (IH Hw).
  destruct c as [[] [] [] [] [] [] [] []]; try reflexivity; discriminate Hc.
Qed.

Lemma strip_trailing_zeros_digits (s : string) :
  Parse.all_digits s = true ->
  Parse.all_digits (Js.strip_trailing_zeros s) = true.
Proof.
  intros H. rewrite (strip_trailing_zeros_split s) in H.
  unfold Parse.all_digits in *. rewrite all_chars_append in H.
  apply andb_prop in H. tauto.
Qed.

Lemma strip_trailing_zeros_value (s : string) :
  value s
  = (value (Js.strip_trailing_zeros s)
     * 10 ^ N.of_nat (String.length s - String.length (Js.strip_trailing_zeros s)))%N.
Proof.
  rewrite (strip_trailing_zeros_split s) at 1.
  unfold value, Parse.decimal_value.
  rewrite radix_value_append, radix_value_shift by lia.
  rewrite repeat_zero_value by (reflexivity || lia).
  rewrite length_repeat_char. lia.
Qed.

(** The last two lines of [formatAmount], read back. *)
Lemma format_tail_parse (whole frac : string) (d : N) :
  Parse.all_digits whole = true -> (1 <= String.length whole)%nat ->
  Parse.all_digits frac = true -> N.of_nat (String.length frac) = d ->
  Parse.parseDecimal
    (if (0 <? String.length (Js.strip_trailing_zeros frac))%nat
     then whole ++ "." ++ Js.strip_trailing_zeros frac else whole) d
  = Some (value whole * 10 ^ d + value frac)%N.
Proof.
  intros Hw Hwl Hf Hd.
  pose proof (strip_trailing_zeros_digits frac Hf) as Ht.
  pose proof (strip_trailing_zeros_length frac) as Hl.
  pose proof (strip_trailing_zeros_value frac) as Hv.
  set (trimmed := Js.strip_trailing_zeros frac) in *.
  unfold Parse.parseDecimal.
  destruct (Nat.ltb_spec 0 (String.length trimmed)) as [Hpos|Hzero].
  - change (whole ++ "." ++ trimmed) with (whole ++ String "." trimmed).
    rewrite (split_point_fraction whole trimmed Hw).
    rewrite Hw, Ht.
    destruct (Nat.ltb_spec 0 (String.length whole)); [|lia].
    destruct (N.leb_spec (N.of_nat (String.length trimmed)) d); [|lia].
    destruct (Nat.ltb_spec 0 (String.length trimmed)); [|lia].
    cbn [andb]. rewrite Hv. fold value.
    replace (d - N.of_nat (String.length trimmed))%N
      with (N.of_nat (String.length frac - String.length trimmed)) by lia.
    reflexivity.
  - rewrite (split_point_digits whole Hw).
    rewrite Hw.
    destruct (Nat.ltb_spec 0 (String.length whole)); [|lia].
    cbn. f_equal. rewrite Hv.
    destruct trimmed; [cbn|cbn in Hzero; lia]. fold value.
    destruct (N.leb_spec 0 d); [reflexivity|lia].
Qed.

(** [formatAmount] on any string of decimal digits. *)
Lemma formatAmount_parse (raw : string) (decimals : Z) :
  Parse.all_digits raw = true -> 0 <= decimals ->
  Parse.parseDecimal (Fmt.formatAmount raw decimals) (Z.to_N decimals)
  = Some (value raw).
Proof.
  intros Hraw Hd. unfold Fmt.formatAmount. cbv zeta.
  set (s := Js.or_else (Js.strip_leading_zeros raw) "0").
  assert (Hs : Parse.all_digits s = true /\ value s = value raw
               /\ (1 <= String.length s)%nat).
  { pose proof (strip_leading_zeros_all Parse.is_digit raw Hraw) as Ha.
    pose proof (strip_leading_zeros_value 10 Parse.digit_value ltac:(lia) raw eq_refl) as Hv.
    unfold s. destruct (Js.strip_leading_zeros raw) as [|c r].
    - cbn [Js.or_else]. repeat split; [|cbn; lia].
      unfold value, Parse.decimal_value. rewrite <- Hv. reflexivity.
    - cbn [Js.or_else]. repeat split; [exact Ha|exact Hv|cbn; lia]. }
  destruct Hs as (Hsa & Hsv & Hsl).
  destruct (Z.leb_spec decimals 0) as [Hz|Hpos].
  - replace decimals with 0 by lia. cbn [Z.to_N].
    unfold Parse.parseDecimal. rewrite (split_point_digits s Hsa), Hsa.
    destruct (Nat.ltb_spec 0 (String.length s)); [|lia].
    cbn. f_equal. rewrite <- Hsv. fold value. lia.
  - destruct (Z.ltb_spec decimals (Z.of_nat (String.length s))) as [Hlong|Hshort].
    + cbv iota. rewrite slice_front, slice_back by lia.
      set (k := (String.length s - Z.to_nat decimals)%nat).
      pose proof (take_drop k s) as Hsplit.
      assert (Hlt : String.length (Js.take k s) = k)
        by (rewrite length_take; unfold k; lia).
      assert (Hld : String.length (Js.drop k s) = Z.to_nat decimals)
        by (rewrite length_drop; unfold k; lia).
      assert (Hall : Parse.all_digits (Js.take k s) = true
                     /\ Parse.all_digits (Js.drop k s) = true).
      { rewrite <- Hsplit in Hsa. unfold Parse.all_digits in *.
        rewrite all_chars_append in Hsa. apply andb_prop in Hsa. exact Hsa. }
      rewrite (format_tail_parse (Js.take k s) (Js.drop k s) (Z.to_N decimals));
        try tauto; try (unfold k in *; lia).
      f_equal. rewrite <- Hsv. rewrite <- Hsplit at 3.
      unfold value, Parse.decimal_value.
      rewrite radix_value_append.
      rewrite (radix_value_shift 10 Parse.digit_value ltac:(lia)
                 (Parse.radix_value 10 Parse.digit_value 0 (Js.take k s))
                 (Js.drop k s)).
      rewrite Hld. f_equal. f_equal. f_equal. lia.
    + cbv iota. unfold Js.padStart.
      set (k := Z.to_nat (decimals - Z.of_nat (String.length s))).
      rewrite (format_tail_parse "0" (Js.repeat_char "0" k ++ s) (Z.to_N decimals)).
      * f_equal. rewrite <- Hsv. unfold value, Parse.decimal_value.
        rewrite radix_value_append.
        rewrite repeat_zero_value by (reflexivity || lia). cbn. lia.
      * reflexivity.
      * cbn; lia.
      * unfold Parse.all_digits in *. rewrite all_chars_append, Hsa.
        rewrite all_chars_repeat by reflexivity. reflexivity.
      * rewrite length_append, length_repeat_char. unfold k. lia.
Qed.

Lemma strip_trailing_zeros_ends (s : string) :
  Parse.ends_in_zero (Js.strip_trailing_zeros s) = false.
Proof.
  induction s as [|c s IH]; [reflexivity|].
  cbn [Js.strip_trailing_zeros].
  destruct (Js.strip_trailing_zeros s) as [|c' r].
  - destruct (Ascii.eqb_spec c "0") as [Hc|Hc]; [reflexivity|].
    cbn [Parse.ends_in_zero]. now apply Ascii.eqb_neq.
  - exact IH.
Qed.

(** The text behind [whole] carries no trailing fractional zero. *)
Lemma format_tail_trimmed (whole frac : string) :
  Parse.all_digits whole = true ->
  Parse.trimmed
    (if (0 <? String.length (Js.strip_trailing_zeros frac))%nat
     then whole ++ "." ++ Js.strip_trailing_zeros frac else whole)
  = true.
Proof.
  intros Hw. unfold Parse.trimmed.
  destruct (Nat.ltb_spec 0 (String.length (Js.strip_trailing_zeros frac))) as [Hpos|Hzero].
  - change (whole ++ "." ++ Js.strip_trailing_zeros frac)
      with (whole ++ String "." (Js.strip_trailing_zeros frac)).
    rewrite (split_point_fraction whole _ Hw). cbn [snd].
    rewrite strip_trailing_zeros_ends.
    destruct (Nat.ltb_spec 0 (String.length (Js.strip_trailing_zeros frac))); [reflexivity|lia].
  - now rewrite (split_point_digits whole Hw).
Qed.

Lemma formatAmount_trimmed (raw : string) (decimals : Z) :
  Parse.all_digits raw = true ->
  Parse.trimmed (Fmt.formatAmount raw decimals) = true.
Proof.
  intros Hraw. unfold Fmt.formatAmount. cbv zeta.
  set (s := Js.or_else (Js.strip_leading_zeros raw) "0").
  assert (Hsa : Parse.all_digits s = true).
  { pose proof (strip_leading_zeros_all Parse.is_digit raw Hraw) as Ha.
    unfold s. destruct (Js.strip_leading_zeros raw); [reflexivity|exact Ha]. }
  destruct (Z.leb_spec decimals 0) as [Hz|Hpos].
  - unfold Parse.trimmed. now rewrite (split_point_digits s Hsa).
  - destruct (Z.ltb_spec decimals (Z.of_nat (String.length s))) as [Hlong|Hshort];
      cbv iota.
    + rewrite slice_front by lia.
      apply format_tail_trimmed.
      pose proof (take_drop (String.length s - Z.to_nat decimals) s) as Hsplit.
      rewrite <- Hsplit in Hsa. unfold Parse.all_digits in *.
      rewrite all_chars_append in Hsa. apply andb_prop in Hsa. tauto.
    + apply format_tail_trimmed. reflexivity.
Qed.

End FormatAmount.

(** [formatAmount] of scanner.ts loses nothing: for every base-unit integer
    [v >= 0] and every [decimals >= 0], reading the text back with that many
    fraction digits gives [v]. *)
Lemma formatAmount_round_trip (v decimals : Z) :
  0 <= v -> 0 <= decimals ->
  Parse.parseDecimal (Fmt.formatAmount (Js.Z_toString 10 v) decimals) (Z.to_N decimals)
  = Some (Z.to_N v).
Proof.
  intros Hv Hd.
  destruct (Z_toString_decimal v Hv) as [Hall Hval].
  rewrite formatAmount_parse by assumption.
  now rewrite Hval.
Qed.

(** [utils.formatAmount] of api_scanner.ts differs in its first line only. *)
Lemma api_formatAmount_round_trip (v decimals : Z) :
  0 <= v -> 0 <= decimals ->
  Parse.parseDecimal (ApiScanner.formatAmount (Js.Z_toString 10 v) decimals)
                     (Z.to_N decimals)
  = Some (Z.to_N v).
Proof.
  intros Hv Hd. unfold ApiScanner.formatAmount.
  destruct (Z_toString_decimal v Hv) as [Hall Hval].
  destruct (Js.Z_toString 10 v) as [|c s] eqn:Htext.
  - cbn [Js.or_else]. rewrite formatAmount_parse by (reflexivity || assumption).
    rewrite <- Hval. reflexivity.
  - cbn [Js.or_else]. rewrite formatAmount_parse by assumption.
    now rewrite Hval.
Qed.

Example formatAmount_inflow_scenario :
  Fmt.formatAmount (Js.Z_toString 10 5000000) 8 = "0.05"%string.
Proof. vm_compute. reflexivity. Qed.

(** *** The flow retriever's [formatAmount] *)

Section RosettaFormatAmount.

Local Open Scope string_scope.

Lemma digits_not_minus (raw : string) :
  Parse.all_digits raw = true -> Js.startsWith_minus raw = false.
Proof.
  destruct raw as [|c raw]; [reflexivity|].
  cbn. intros H. apply andb_prop in H as [Hc _].
  destruct c as [[] [] [] [] [] [] [] []]; try reflexivity; discriminate Hc.
Qed.

(** With at least one decimal the retriever's [formatAmount] reads back as
    the integer it was given. *)
Lemma rosetta_formatAmount_parse (raw : string) (decimals : Z) :
  Parse.all_digits raw = true -> 1 <= decimals ->
  Parse.parseDecimal (Rosetta.formatAmount raw decimals) (Z.to_N decimals)
  = Some (Parse.decimal_value 0 raw).
Proof.
  intros Hraw Hd. unfold Rosetta.formatAmount. cbv zeta.
  rewrite (digits_not_minus raw Hraw).
  unfold Js.padStart.
  set (k := Z.to_nat (decimals + 1 - Z.of_nat (String.length raw))).
  set (p := Js.repeat_char "0" k ++ raw).
  assert (Hlen : decimals < Z.of_nat (String.length p)).
  { unfold p. rewrite length_append, length_repeat_char. unfold k. lia. }
  assert (Hp : Parse.all_digits p = true).
  { unfold p, Parse.all_digits in *. rewrite all_chars_append, Hraw.
    rewrite all_chars_repeat by reflexivity. reflexivity. }
  assert (Hpv : Parse.decimal_value 0 p = Parse.decimal_value 0 raw).
  { unfold p, Parse.decimal_value. rewrite radix_value_append.
    rewrite repeat_zero_value by (reflexivity || lia). reflexivity. }
  rewrite slice_front, slice_back by lia.
  set (n := (String.length p - Z.to_nat decimals)%nat).
  pose proof (take_drop n p) as Hsplit.
  assert (Hlt : String.length (Js.take n p) = n)
    by (rewrite length_take; unfold n; lia).
  assert (Hld : String.length (Js.drop n p) = Z.to_nat decimals)
    by (rewrite length_drop; unfold n; lia).
  assert (Hall : Parse.all_digits (Js.take n p) = true
                 /\ Parse.all_digits (Js.drop n p) = true).
  { rewrite <- Hsplit in Hp. unfold Parse.all_digits in *.
    rewrite all_chars_append in Hp. apply andb_prop in Hp. exact Hp. }
  assert (Hor : Js.or_else (Js.take n p) "0" = Js.take n p).
  { destruct (Js.take n p); [cbn in Hlt; unfold n in Hlt; lia|reflexivity]. }
  rewrite Hor.
  pose proof (format_tail_parse (Js.take n p) (Js.drop n p) (Z.to_N decimals)
                (proj1 Hall) ltac:(unfold n in *; lia) (proj2 Hall) ltac:(lia))
    as Htail.
  destruct (Js.strip_trailing_zeros (Js.drop n p)) as [|c t] eqn:Ht;
    cbn [String.length Nat.ltb Nat.leb] in Htail; rewrite Htail;
    f_equal; rewrite <- Hpv; rewrite <- Hsplit at 3;
    unfold Parse.decimal_value;
    rewrite radix_value_append;
    rewrite (radix_value_shift 10 Parse.digit_value ltac:(lia)
               (Parse.radix_value 10 Parse.digit_value 0 (Js.take n p))
               (Js.drop n p));
    rewrite Hld; f_equal; f_equal; f_equal; lia.
Qed.

Lemma rosetta_formatAmount_round_trip (v decimals : Z) :
  0 <= v -> 1 <= decimals ->
  Parse.parseDecimal (Rosetta.formatAmount (Js.Z_toString 10 v) decimals)
                     (Z.to_N decimals)
  = Some (Z.to_N v).
Proof.
  intros Hv Hd.
  destruct (Z_toString_decimal v Hv) as [Hall Hval].
  rewrite rosetta_formatAmount_parse by assumption.
  now rewrite Hval.
Qed.

Lemma rosetta_formatAmount_trimmed (raw : string) (decimals : Z) :
  Parse.all_digits raw = true -> 1 <= decimals ->
  Parse.trimmed (Rosetta.formatAmount raw decimals) = true.
Proof.
  intros Hraw Hd. unfold Rosetta.formatAmount. cbv zeta.
  rewrite (digits_not_minus raw Hraw).
  unfold Js.padStart.
  set (k := Z.to_nat (decimals + 1 - Z.of_nat (String.length raw))).
  set (p := Js.repeat_char "0" k ++ raw).
  assert (Hlen : decimals < Z.of_nat (String.length p)).
  { unfold p. rewrite length_append, length_repeat_char. unfold k. lia. }
  assert (Hp : Parse.all_digits p = true).
  { unfold p, Parse.all_digits in *. rewrite all_chars_append, Hraw.
    rewrite all_chars_repeat by reflexivity. reflexivity. }
  rewrite slice_front by lia.
  set (n := (String.length p - Z.to_nat decimals)%nat).
  assert (Hlt : String.length (Js.take n p) = n)
    by (rewrite length_take; unfold n; lia).
  assert (Hall : Parse.all_digits (Js.take n p) = true).
  { pose proof (take_drop n p) as Hsplit.
    rewrite <- Hsplit in Hp. unfold Parse.all_digits in *.
    rewrite all_chars_append in Hp. apply andb_prop in Hp. tauto. }
  assert (Hor : Js.or_else (Js.take n p) "0" = Js.take n p).
  { destruct (Js.take n p); [cbn in Hlt; unfold n in Hlt; lia|reflexivity]. }
  rewrite Hor.
  pose proof (format_tail_trimmed (Js.take n p) (Js.slice p (- decimals) None) Hall)
    as Htail.
  destruct (Js.strip_trailing_zeros (Js.slice p (- decimals) None)) as [|c t];
    exact Htail.
Qed.

End RosettaFormatAmount.

(** C5: formatting loses nothing.  For every base-unit integer [v >= 0] and
    every [d >= 0], the text that [formatAmount] of scanner.ts makes of [v]
    reads back, as a decimal with [d] fraction digits, as exactly [v], and it
    carries no trailing fractional zero: it has no decimal point at all, or a
    fraction that is not empty and does not end in 0.  So does the text of
    [utils.formatAmount] of api_scanner.ts, and so does the text of the flow
    retriever's [formatAmount] at every number of decimals that it is called
    with, the [decimals] of an entry of [ROSETTA_CONFIGS], and more generally
    at every [d >= 1]. *)
Theorem formatAmount_loses_nothing (v d : Z) :
  0 <= v -> 0 <= d ->
  (Parse.parseDecimal (Fmt.formatAmount (Js.Z_toString 10 v) d) (Z.to_N d)
   = Some (Z.to_N v) /\
   Parse.trimmed (Fmt.formatAmount (Js.Z_toString 10 v) d) = true) /\
  (Parse.parseDecimal (ApiScanner.formatAmount (Js.Z_toString 10 v) d) (Z.to_N d)
   = Some (Z.to_N v) /\
   Parse.trimmed (ApiScanner.formatAmount (Js.Z_toString 10 v) d) = true) /\
  (forall (ICP_URL CKBTC_URL CKUSDC_URL CKUSDT_URL : option string)
          (asset : string) (config : Rosetta.Config),
      In (asset, config)
         (Rosetta.ROSETTA_CONFIGS ICP_URL CKBTC_URL CKUSDC_URL CKUSDT_URL) ->
      Parse.parseDecimal
        (Rosetta.formatAmount (Js.Z_toString 10 v) (Rosetta.decimals config))
        (Z.to_N (Rosetta.decimals config))
      = Some (Z.to_N v) /\
      Parse.trimmed
        (Rosetta.formatAmount (Js.Z_toString 10 v) (Rosetta.decimals config))
      = true) /\
  (1 <= d ->
   Parse.parseDecimal (Rosetta.formatAmount (Js.Z_toString 10 v) d) (Z.to_N d)
   = Some (Z.to_N v) /\
   Parse.trimmed (Rosetta.formatAmount (Js.Z_toString 10 v) d) = true).
Proof.
  intros Hv Hd.
  destruct (Z_toString_decimal v Hv) as [Hall Hval].
  assert (Hrosetta : forall k, 1 <= k ->
            Parse.parseDecimal (Rosetta.formatAmount (Js.Z_toString 10 v) k) (Z.to_N k)
            = Some (Z.to_N v) /\
            Parse.trimmed (Rosetta.formatAmount (Js.Z_toString 10 v) k) = true).
  { intros k Hk. split.
    - apply rosetta_formatAmount_round_trip; assumption.
    - apply rosetta_formatAmount_trimmed; assumption. }
  split; [|split; [|split]].
  - split; [apply formatAmount_round_trip; assumption|].
    apply formatAmount_trimmed. exact Hall.
  - split; [apply api_formatAmount_round_trip; assumption|].
    unfold ApiScanner.formatAmount.
    destruct (Js.Z_toString 10 v) as [|c s]; cbn [Js.or_else];
      apply formatAmount_trimmed; [reflexivity|exact Hall].
  - intros u1 u2 u3 u4 asset config Hin.
    cbn [Rosetta.ROSETTA_CONFIGS In] in Hin.
    destruct Hin as [H|[H|[H|[H|[]]]]]; injection H as _ <-;
      cbn [Rosetta.decimals]; apply Hrosetta; lia.
  - exact (Hrosetta d).
Qed.

Lemma formatAmount_loses_nothing_witness :
  (0 <= 5000000 /\ 0 <= 8) /\
  Fmt.formatAmount (Js.Z_toString 10 5000000) 8 = "0.05"%string /\
  Parse.parseDecimal (Fmt.formatAmount (Js.Z_toString 10 5000000) 8) 8
  = Some 5000000%N /\
  Parse.parseDecimal (Rosetta.formatAmount (Js.Z_toString 10 5000000) 8) 8
  = Some 5000000%N.
Proof.
  split; [lia|]. split; [reflexivity|].
  destruct (formatAmount_loses_nothing 5000000 8 ltac:(lia) ltac:(lia))
    as ((Hscanner & _) & _ & _ & Hretriever).
  split; [exact Hscanner|].
  exact (proj1 (Hretriever ltac:(lia))).
Defined.

(** Off that domain the retriever's function differs from its siblings: it
    has no guard for [decimals = 0], where [slice(0, -0)] is the empty string
    and [slice(-0)] the whole text, so the digits would land behind the
    decimal point.  No call passes 0: the decimals of [ROSETTA_CONFIGS] are 8
    and 6. *)
Example rosetta_formatAmount_zero_decimals :
  Rosetta.formatAmount (Js.Z_toString 10 150) 0 = "0.15"%string /\
  Fmt.formatAmount (Js.Z_toString 10 150) 0 = "150"%string /\
  (forall urls1 urls2 urls3 urls4 asset config,
      In (asset, config) (Rosetta.ROSETTA_CONFIGS urls1 urls2 urls3 urls4) ->
      1 <= Rosetta.decimals config).
Proof.
  split; [reflexivity|]. split; [reflexivity|].
  intros u1 u2 u3 u4 asset config Hin.
  cbn [Rosetta.ROSETTA_CONFIGS In] in Hin.
  destruct Hin as [H|[H|[H|[H|[]]]]]; injection H as _ <-; cbn; lia.
Qed.

(** ** Sub-identities and accounts (scanner.ts) *)

Lemma all_zero_bytes_iff (s : list Byte.byte) :
  forallb (fun b => Byte.eqb b Byte.x00) s = true
  <-> Forall (fun b => b = Byte.x00) s.
Proof.
  rewrite forallb_forall, Forall_forall.
  split; intros H b Hb.
  - apply Byte.byte_dec_bl, H, Hb.
  - apply Byte.byte_dec_lb, H, Hb.
Qed.

(** C6: for every 32-byte sub-identity [s], [normalizeSub(s)] is null if and
    only if every byte of [s] is zero, and otherwise it is [s] itself. *)
Theorem normalizeSub_32_bytes (s : list Byte.byte) :
  List.length s = 32%nat ->
  (Icrc.normalizeSub (Some s) = None <-> Forall (fun b => b = Byte.x00) s) /\
  (~ Forall (fun b => b = Byte.x00) s -> Icrc.normalizeSub (Some s) = Some s).
Proof.
  intros Hlen. unfold Icrc.normalizeSub. rewrite Hlen. cbn [Nat.eqb andb].
  destruct (forallb (fun b => Byte.eqb b Byte.x00) s) eqn:Hz.
  - apply all_zero_bytes_iff in Hz. split; [tauto|contradiction].
  - assert (Hnz : ~ Forall (fun b => b = Byte.x00) s).
    { intros HF. apply all_zero_bytes_iff in HF. congruence. }
    split; [|reflexivity].
    split; [discriminate|contradiction].
Qed.

Lemma normalizeSub_32_bytes_witness :
  let s := Byte.x01 :: repeat Byte.x00 31 in
  List.length s = 32%nat /\
  (Icrc.normalizeSub (Some s) = None <-> Forall (fun b => b = Byte.x00) s) /\
  (~ Forall (fun b => b = Byte.x00) s -> Icrc.normalizeSub (Some s) = Some s).
Proof.
  cbv zeta. split; [reflexivity|].
  apply (normalizeSub_32_bytes (Byte.x01 :: repeat Byte.x00 31)). reflexivity.
Defined.

Example normalizeSub_all_zero :
  Icrc.normalizeSub (Some (repeat Byte.x00 32)) = None.
Proof. reflexivity. Qed.

Example normalizeSub_short_zero :
  Icrc.normalizeSub (Some (repeat Byte.x00 31)) = Some (repeat Byte.x00 31).
Proof. reflexivity. Qed.

Lemma same_bytes_eq (sa sb : list Byte.byte) :
  List.length sa = List.length sb ->
  (Icrc.same_bytes sa sb = true <-> sa = sb).
Proof.
  revert sb; induction sa as [|a sa IH]; intros [|b sb] Hlen;
    try discriminate Hlen; cbn.
  - tauto.
  - destruct (Byte.eqb a b) eqn:Hab.
    + apply Byte.byte_dec_bl in Hab. subst b.
      injection Hlen as Hlen. rewrite (IH sb Hlen).
      split; [intros ->; reflexivity|intros H; now injection H].
    + apply Byte.eqb_false in Hab.
      split; [discriminate|intros H; injection H; intros; contradiction].
Qed.

(** [eqAccount] has no owner-only mode: it holds exactly when the owners have
    the same text and the normalized sub-identities are the same. *)
Lemma eqAccount_spec {Principal : Type} (toText : Principal -> string)
      (a b : Icrc.Account Principal) :
  Icrc.eqAccount toText (Some a) b = true
  <-> toText (Icrc.owner a) = toText (Icrc.owner b)
      /\ Icrc.normalizeSub (Icrc.subaccount a) = Icrc.normalizeSub (Icrc.subaccount b).
Proof.
  unfold Icrc.eqAccount.
  destruct (String.eqb_spec (toText (Icrc.owner a)) (toText (Icrc.owner b))) as [Ho|Ho];
    cbn [negb].
  2:{ split; [discriminate|tauto]. }
  destruct (Icrc.normalizeSub (Icrc.subaccount a)) as [sa|],
           (Icrc.normalizeSub (Icrc.subaccount b)) as [sb|].
  - destruct (Nat.eqb_spec (List.length sa) (List.length sb)) as [Hl|Hl]; cbn [negb].
    + rewrite (same_bytes_eq sa sb Hl).
      split; [intros ->; tauto|intros [_ H]; now injection H].
    + split; [discriminate|].
      intros [_ H]. injection H as ->. contradiction.
  - split; [discriminate|intros [_ H]; discriminate H].
  - split; [discriminate|intros [_ H]; discriminate H].
  - tauto.
Qed.

(** ** Direction of a transfer *)

(** scanner.ts: the classifier of [handleIcrcBlock] yields one of the four
    results, and [self] exactly when both sides match the wallet. *)
Lemma classify_cases {Principal : Type} (toText : Principal -> string)
      (from to : option (Icrc.Account Principal)) (wallet : Icrc.Account Principal) :
  Icrc.classify toText from to wallet = Some self \/
  Icrc.classify toText from to wallet = Some inflow \/
  Icrc.classify toText from to wallet = Some outflow \/
  Icrc.classify toText from to wallet = None.
Proof.
  unfold Icrc.classify.
  destruct from, to; auto.
  destruct (Icrc.eqAccount toText (Some a) wallet),
           (Icrc.eqAccount toText (Some a0) wallet); cbn; auto.
Qed.

Lemma classify_self_iff {Principal : Type} (toText : Principal -> string)
      (from to : option (Icrc.Account Principal)) (wallet : Icrc.Account Principal) :
  Icrc.classify toText from to wallet = Some self
  <-> Icrc.eqAccount toText from wallet = true
      /\ Icrc.eqAccount toText to wallet = true.
Proof.
  unfold Icrc.classify.
  destruct from as [f|], to as [t|].
  - destruct (Icrc.eqAccount toText (Some f) wallet),
             (Icrc.eqAccount toText (Some t) wallet); cbn;
      (split;
       [ intros H; try discriminate H; auto
       | intros [H1 H2]; try discriminate H1; try discriminate H2; reflexivity ]).
  - split; [discriminate|intros [_ H]; discriminate H].
  - split; [discriminate|intros [H _]; discriminate H].
  - split; [discriminate|intros [H _]; discriminate H].
Qed.

Lemma or_else_empty (s : string) : Js.or_else s "" = s.
Proof. destruct s; reflexivity. Qed.

Section ApiDirection.

Variable config : ApiScanner.Config.
Variable toISO_text : string -> string.

(** The direction [fromIcrcTransaction] gives to a transaction. *)
Let api_direction (tx : ApiScanner.IcrcTx) : option Direction :=
  option_map direction (ApiScanner.fromIcrcTransaction config toISO_text tx).

(** Without a wallet sub-identity the matcher of the mapping and the matcher
    that knows the wallet agree when the mode is owner-only or the wallet
    uses the default sub-identity. *)
Lemma matcher_without_subaccount (account : option ApiScanner.Account) :
  ApiScanner.strictSubaccountMatch config = false
  \/ ApiScanner.normalizeSubaccount (Some (ApiScanner.wallet_subaccountHex config))
     = ""%string ->
  ApiScanner.matchesIcrcAccount config account (ApiScanner.wallet_principal config) None
  = ApiScanner.watched_match config account.
Proof.
  intros Hmode. unfold ApiScanner.watched_match, ApiScanner.matchesIcrcAccount.
  destruct account as [acc|]; [|reflexivity].
  destruct (ApiScanner.owner acc) as [[|c o]|]; try reflexivity.
  destruct (negb (String.eqb (String c o) (ApiScanner.wallet_principal config)));
    [reflexivity|].
  destruct Hmode as [Hoff|Hdefault].
  - rewrite Hoff. reflexivity.
  - destruct (negb (ApiScanner.strictSubaccountMatch config)); [reflexivity|].
    unfold ApiScanner.equalSubaccounts. rewrite Hdefault. reflexivity.
Qed.

(** api_scanner.ts: in those two situations a transfer is [self] exactly
    when both sides match the watched account. *)
Lemma fromIcrcTransaction_self_iff (tx : ApiScanner.IcrcTx) :
  ApiScanner.strictSubaccountMatch config = false
  \/ ApiScanner.normalizeSubaccount (Some (ApiScanner.wallet_subaccountHex config))
     = ""%string ->
  existsb (String.eqb (Js.toLowerCase (ApiScanner.icrc_op tx)))
          ["transfer"; "1xfer"; "icrc1_transfer"; "xfer"]%string = true ->
  (api_direction tx = Some self
   <-> ApiScanner.watched_match config (ApiScanner.icrc_from tx) = true
       /\ ApiScanner.watched_match config (ApiScanner.icrc_to tx) = true).
Proof.
  intros Hmode Hop.
  unfold api_direction, ApiScanner.fromIcrcTransaction.
  rewrite or_else_empty, Hop. cbn [negb].
  rewrite !(matcher_without_subaccount _ Hmode).
  destruct (ApiScanner.watched_match config (ApiScanner.icrc_from tx)),
           (ApiScanner.watched_match config (ApiScanner.icrc_to tx)); cbn;
    (split;
     [ intros H; try discriminate H; auto
     | intros [H1 H2]; try discriminate H1; try discriminate H2; reflexivity ]).
Qed.

End ApiDirection.

(** C2 (code defect): in api_scanner.ts with STRICT_SUBACCOUNT_MATCH on and a
    wallet sub-identity that is not the default one, a transfer whose from and
    to are both the watched account passes the strict filter, both sides match
    the watched account under the strict matcher, and yet
    [fromIcrcTransaction] gives it no direction and no row: it calls the
    matcher without the wallet sub-identity.  A transfer from the watched
    account to the default sub-identity of the same owner is classified as
    inflow although only its from side matches. *)
Theorem fromIcrcTransaction_strict_self_dropped :
  let tx := Examples.transfer_between Examples.watched_side Examples.watched_side in
  let tx' := Examples.transfer_between Examples.watched_side Examples.default_side in
  ApiScanner.watched_match Examples.strict_config (ApiScanner.icrc_from tx) = true /\
  ApiScanner.watched_match Examples.strict_config (ApiScanner.icrc_to tx) = true /\
  ApiScanner.passesStrictSubaccountFilter Examples.strict_config tx
    (Some (ApiScanner.wallet_subaccountHex Examples.strict_config)) = true /\
  ApiScanner.fromIcrcTransaction Examples.strict_config (fun t => t) tx = None /\
  ApiScanner.scanIcrcToken_rows Examples.strict_config (fun t => t) [tx] = [] /\
  ApiScanner.watched_match Examples.strict_config (ApiScanner.icrc_from tx') = true /\
  ApiScanner.watched_match Examples.strict_config (ApiScanner.icrc_to tx') = false /\
  option_map direction (ApiScanner.fromIcrcTransaction Examples.strict_config (fun t => t) tx')
  = Some inflow.
Proof. vm_compute. repeat split. Qed.

(** ** Owner-only and strict matching *)

(** C3 as stated fails for the matcher of the tagged-value scanner: scanner.ts
    has no owner-only mode, and [eqAccount] does not match two accounts of the
    same owner whose sub-identities differ, so a transfer between sub-accounts
    of the watched owner gets no direction.  It also fails in api_scanner.ts
    for an owner that is the empty string. *)
Lemma owner_only_matching_counterexample :
  let a := Examples.text_account "ijsei" (Some Examples.subaccount_one) in
  let wallet := Examples.text_account "ijsei" None in
  Icrc.owner a = Icrc.owner wallet /\
  Icrc.eqAccount (fun p => p) (Some a) wallet = false /\
  Icrc.classify (fun p => p) (Some a) (Some a) wallet = None /\
  ApiScanner.strictSubaccountMatch Examples.owner_only_config = false /\
  ApiScanner.matchesIcrcAccount Examples.owner_only_config
    (Some (ApiScanner.mkAccount (Some ""%string) None)) "" None = false.
Proof. vm_compute. repeat split. Qed.

(** C3 (as amended): in api_scanner.ts, with strict-subaccount mode off,
    [matchesIcrcAccount] reports a match exactly for the accounts whose owner
    is present, non-empty and equal to the wallet owner, whatever the two
    sub-identities are; with the mode on it reports a match exactly when, in
    addition, the normalized sub-identities are equal.  An account that is
    absent, has no owner, an empty owner or another owner is no match in
    either mode.  scanner.ts has no such mode: [eqAccount] holds exactly when
    the first account is present, the owners have the same text and the
    normalized sub-identities are equal. *)
Theorem matching_modes
        (config : ApiScanner.Config) (account : option ApiScanner.Account)
        (walletOwner : string) (walletSubHex : option string) :
  (ApiScanner.strictSubaccountMatch config = false ->
   (ApiScanner.matchesIcrcAccount config account walletOwner walletSubHex = true
    <-> exists (acc : ApiScanner.Account) (o : string),
          account = Some acc /\ ApiScanner.owner acc = Some o /\
          o <> ""%string /\ o = walletOwner)) /\
  (ApiScanner.strictSubaccountMatch config = true ->
   (ApiScanner.matchesIcrcAccount config account walletOwner walletSubHex = true
    <-> exists (acc : ApiScanner.Account) (o : string),
          account = Some acc /\ ApiScanner.owner acc = Some o /\
          o <> ""%string /\ o = walletOwner /\
          ApiScanner.normalizeSubaccount (ApiScanner.subaccount acc)
          = ApiScanner.normalizeSubaccount walletSubHex)) /\
  (forall (Principal : Type) (toText : Principal -> string)
          (a : option (Icrc.Account Principal)) (b : Icrc.Account Principal),
      Icrc.eqAccount toText a b = true
      <-> exists a' : Icrc.Account Principal,
            a = Some a' /\
            toText (Icrc.owner a') = toText (Icrc.owner b) /\
            Icrc.normalizeSub (Icrc.subaccount a')
            = Icrc.normalizeSub (Icrc.subaccount b)).
Proof.
  split; [|split].
  - intros Hmode. unfold ApiScanner.matchesIcrcAccount. rewrite Hmode. cbn [negb].
    destruct account as [acc|].
    2:{ split; [discriminate|]. intros (acc & o & Hacc & _). discriminate Hacc. }
    destruct (ApiScanner.owner acc) as [[|c o]|] eqn:Howner.
    + split; [discriminate|].
      intros (acc' & o & Hacc & Ho & Hne & _). injection Hacc as <-.
      rewrite Howner in Ho. injection Ho as <-. now contradiction Hne.
    + destruct (String.eqb_spec (String c o) walletOwner) as [Heq|Hneq]; cbn [negb].
      * split; [intros _|reflexivity].
        exists acc, (String c o). repeat split; [exact Howner|discriminate|exact Heq].
      * split; [discriminate|].
        intros (acc' & o' & Hacc & Ho & _ & Heq). injection Hacc as <-.
        rewrite Howner in Ho. injection Ho as <-. contradiction.
    + split; [discriminate|].
      intros (acc' & o & Hacc & Ho & _). injection Hacc as <-.
      rewrite Howner in Ho. discriminate Ho.
  - intros Hmode. unfold ApiScanner.matchesIcrcAccount. rewrite Hmode. cbn [negb].
    destruct account as [acc|].
    2:{ split; [discriminate|]. intros (acc & o & Hacc & _). discriminate Hacc. }
    destruct (ApiScanner.owner acc) as [[|c o]|] eqn:Howner.
    + split; [discriminate|].
      intros (acc' & o & Hacc & Ho & Hne & _). injection Hacc as <-.
      rewrite Howner in Ho. injection Ho as <-. now contradiction Hne.
    + destruct (String.eqb_spec (String c o) walletOwner) as [Heq|Hneq]; cbn [negb].
      * unfold ApiScanner.equalSubaccounts.
        destruct (String.eqb_spec
                    (ApiScanner.normalizeSubaccount (ApiScanner.subaccount acc))
                    (ApiScanner.normalizeSubaccount walletSubHex)) as [Hsub|Hsub].
        -- split; [intros _|reflexivity].
           exists acc, (String c o).
           repeat split; [exact Howner|discriminate|exact Heq|exact Hsub].
        -- split; [discriminate|].
           intros (acc' & o' & Hacc & _ & _ & _ & Hsub'). injection Hacc as <-.
           contradiction.
      * split; [discriminate|].
        intros (acc' & o' & Hacc & Ho & _ & Heq & _). injection Hacc as <-.
        rewrite Howner in Ho. injection Ho as <-. contradiction.
    + split; [discriminate|].
      intros (acc' & o & Hacc & Ho & _). injection Hacc as <-.
      rewrite Howner in Ho. discriminate Ho.
  - intros Principal toText a b. destruct a as [a'|].
    + rewrite eqAccount_spec. split.
      * intros [Ho Hs]. exists a'. repeat split; assumption.
      * intros (a'' & Ha & Ho & Hs). injection Ha as <-. split; assumption.
    + split; [discriminate|]. intros (a' & Ha & _). discriminate Ha.
Qed.

Lemma matching_modes_witness :
  ApiScanner.strictSubaccountMatch Examples.owner_only_config = false /\
  ApiScanner.matchesIcrcAccount Examples.owner_only_config
    (Some (ApiScanner.mkAccount (Some "ijsei"%string) (Some "01"%string)))
    "ijsei" (Some "02"%string) = true /\
  ApiScanner.matchesIcrcAccount Examples.owner_only_config
    (Some (ApiScanner.mkAccount (Some "other"%string) (Some "02"%string)))
    "ijsei" (Some "02"%string) <> true.
Proof.
  split; [reflexivity|]. split.
  - apply (proj1 (matching_modes Examples.owner_only_config
                    (Some (ApiScanner.mkAccount (Some "ijsei"%string) (Some "01"%string)))
                    "ijsei" (Some "02"%string)) eq_refl).
    exists (ApiScanner.mkAccount (Some "ijsei"%string) (Some "01"%string)), "ijsei"%string.
    repeat split; discriminate.
  - intros Hmatch.
    apply (proj1 (matching_modes Examples.owner_only_config
                    (Some (ApiScanner.mkAccount (Some "other"%string) (Some "02"%string)))
                    "ijsei" (Some "02"%string)) eq_refl) in Hmatch.
    destruct Hmatch as (acc & o & Hacc & Ho & _ & Heq).
    injection Hacc as <-. cbn in Ho. injection Ho as <-. discriminate Heq.
Defined.

(** ** Mint and Burn *)

Section IcpHandlers.

Variables (symbol : string) (decimals : Z) (icpAccountIdHex : string).
Variable Date_toISOString : Js.number -> string.

(** scanner.ts, parallel variant: only a [Transfer] can give a row. *)
Lemma handleBlock_not_transfer (from_ms to_ms : Z) (block : Icp.Block) (blockIndex : Z) :
  (forall from to e8s,
      Icp.operation (Icp.transaction block) <> Some (Icp.Transfer from to e8s)) ->
  Icp.handleBlock symbol decimals icpAccountIdHex Date_toISOString
                  from_ms to_ms block blockIndex = None.
Proof.
  intros Hop. unfold Icp.handleBlock. cbv zeta.
  destruct (Icp.ts_truthy _ && _); [reflexivity|].
  destruct (Icp.operation (Icp.transaction block)) as [[f t e|t e|f e|f s]|];
    try reflexivity.
  exfalso. exact (Hop f t e eq_refl).
Qed.

(** scanner.ts, sequential variant: the same. *)
Lemma handleBlock_sequential_not_transfer (cutoff : Z) (block : Icp.Block) (blockIndex : Z) :
  (forall from to e8s,
      Icp.operation (Icp.transaction block) <> Some (Icp.Transfer from to e8s)) ->
  Icp.handleBlock_sequential symbol decimals icpAccountIdHex Date_toISOString
                             cutoff block blockIndex = None.
Proof.
  intros Hop. unfold Icp.handleBlock_sequential. cbv zeta.
  destruct (Icp.ts_truthy _ && _); [reflexivity|].
  destruct (Icp.operation (Icp.transaction block)) as [[f t e|t e|f e|f s]|];
    try reflexivity.
  exfalso. exact (Hop f t e eq_refl).
Qed.

End IcpHandlers.

(** C4 as stated fails in scanner.ts: [handleBlock] returns at
    [if (opKey !== "Transfer") return;], so a Mint to the watched account (or
    a Burn from it) inside the time window gives no row at all. *)
Lemma handleBlock_mint_counterexample :
  Icp.handleBlock "ICP" 8 Examples.watched_hex Examples.no_date
                  Examples.FROM_MS Examples.TO_MS
                  (Examples.icp_block (Icp.Mint Examples.watched_bytes 5000000)
                                      1750000000000000000) 25906544
  = None /\
  Icp.handleBlock "ICP" 8 Examples.watched_hex Examples.no_date
                  Examples.FROM_MS Examples.TO_MS
                  (Examples.icp_block (Icp.Burn Examples.watched_bytes 5000000)
                                      1750000000000000000) 25906544
  = None /\
  option_map direction
    (Icp.handleBlock "ICP" 8 Examples.watched_hex Examples.no_date
                     Examples.FROM_MS Examples.TO_MS
                     (Examples.icp_block
                        (Icp.Transfer Examples.other_bytes Examples.watched_bytes 5000000)
                        1750000000000000000) 25906544)
  = Some inflow.
Proof. vm_compute. repeat split. Qed.

(** C4 (as amended): in api_scanner.ts, [fromIcpTransaction] gives every
    transaction whose [transfer_type] is, up to case, "mint" (or "burn") a
    row with direction mint (or burn), without looking at its account
    identifiers; [fromIcrcTransaction] of the same file gives a mint or burn no
    row; and in scanner.ts both block handlers give a row to a [Transfer]
    only, so a Mint or a Burn is never emitted there. *)
Theorem mint_burn_by_scanner
        (config : ApiScanner.Config) (toISO_seconds : Z -> string)
        (toISO_text : string -> string) (tx : ApiScanner.IcpTx)
        (d : Direction) (name : string) :
  (d = mint /\ name = "mint"%string) \/ (d = burn /\ name = "burn"%string) ->
  Js.toLowerCase (ApiScanner.transfer_type tx) = name ->
  (exists row,
      ApiScanner.fromIcpTransaction config toISO_seconds tx = Some row /\
      direction row = d) /\
  (forall itx, Js.toLowerCase (ApiScanner.icrc_op itx) = name ->
               ApiScanner.fromIcrcTransaction config toISO_text itx = None) /\
  (forall symbol decimals icpAccountIdHex Date_toISOString from_ms to_ms cutoff
          memo ts blockIndex op,
      (exists to e8s, op = Icp.Mint to e8s) \/ (exists from e8s, op = Icp.Burn from e8s) ->
      let block := Icp.mkBlock (Icp.mkTransaction memo (Some op)) ts in
      Icp.handleBlock symbol decimals icpAccountIdHex Date_toISOString
                      from_ms to_ms block blockIndex = None /\
      Icp.handleBlock_sequential symbol decimals icpAccountIdHex Date_toISOString
                                 cutoff block blockIndex = None).
Proof.
  intros Hd Hop. split; [|split].
  - unfold ApiScanner.fromIcpTransaction. cbv zeta.
    rewrite or_else_empty, Hop.
    destruct Hd as [[-> ->]|[-> ->]]; cbn [String.eqb Ascii.eqb Bool.eqb];
      eexists; split; reflexivity.
  - intros itx Hitx. unfold ApiScanner.fromIcrcTransaction. cbv zeta.
    rewrite or_else_empty, Hitx.
    destruct Hd as [[_ ->]|[_ ->]]; reflexivity.
  - intros symbol decimals icpAccountIdHex Date_toISOString from_ms to_ms cutoff
           memo ts blockIndex op Hmb block.
    split.
    + apply handleBlock_not_transfer. intros f t e. subst block. cbn.
      destruct Hmb as [(? & ? & ->)|(? & ? & ->)]; discriminate.
    + apply handleBlock_sequential_not_transfer. intros f t e. subst block. cbn.
      destruct Hmb as [(? & ? & ->)|(? & ? & ->)]; discriminate.
Qed.

Lemma mint_burn_by_scanner_witness :
  ((mint = mint /\ "mint" = "mint") \/ (mint = burn /\ "mint" = "burn"))%string /\
  Js.toLowerCase (ApiScanner.transfer_type (Examples.icp_tx "Mint")) = "mint"%string /\
  exists row,
    ApiScanner.fromIcpTransaction Examples.strict_config Examples.no_date
                                  (Examples.icp_tx "Mint") = Some row /\
    direction row = mint.
Proof.
  split; [left; split; reflexivity|]. split; [reflexivity|].
  apply (mint_burn_by_scanner Examples.strict_config Examples.no_date Examples.no_date
                              (Examples.icp_tx "Mint") mint "mint");
    [left; split; reflexivity|reflexivity].
Defined.

(** ** The time window *)

Lemma Number_of_bigint_exact (x : Z) :
  0 <= x <= 2 ^ 53 -> Js.Number_of_bigint x = Js.Finite x.
Proof.
  intros Hx. unfold Js.Number_of_bigint.
  rewrite (Z.abs_eq x) by lia. rewrite round53_exact by lia.
  destruct (Z.leb_spec (2 ^ 1024) x) as [Hbig|_].
  - exfalso. assert (2 ^ 53 < 2 ^ 1024) by (apply Z.pow_lt_mono_r; lia). lia.
  - f_equal. destruct (Z.eq_dec x 0) as [->|Hnz]; [reflexivity|].
    rewrite Z.sgn_pos by lia. lia.
Qed.

(** The milliseconds of a Nat64 timestamp are exact. *)
Lemma n64ToMillis_nat64 (nanos : Z) :
  0 <= nanos < 2 ^ 64 ->
  Icp.n64ToMillis (Some nanos) = Some (Js.Finite (nanos / 1000000)).
Proof.
  intros Hn. unfold Icp.n64ToMillis.
  rewrite Z.quot_div_nonneg by lia.
  rewrite Number_of_bigint_exact; [reflexivity|].
  split; [apply Z.div_pos; lia|].
  apply Z.div_le_upper_bound; lia.
Qed.

(** scanner.ts, parallel variant: a block of the ICP ledger whose
    millisecond timestamp is not zero and lies outside the window gives no
    row. *)
Lemma handleBlock_outside_window
      (symbol : string) (decimals : Z) (icpAccountIdHex : string)
      (Date_toISOString : Js.number -> string)
      (from_ms to_ms : Z) (tx : Icp.Transaction) (nanos blockIndex : Z) :
  0 <= nanos < 2 ^ 64 ->
  nanos / 1000000 <> 0 ->
  nanos / 1000000 < from_ms \/ to_ms < nanos / 1000000 ->
  Icp.handleBlock symbol decimals icpAccountIdHex Date_toISOString from_ms to_ms
                  (Icp.mkBlock tx (Some nanos)) blockIndex = None.
Proof.
  intros Hn Hnz Hout. unfold Icp.handleBlock. cbv zeta.
  cbn [Icp.timestamp]. rewrite n64ToMillis_nat64 by exact Hn.
  cbn [Icp.ts_truthy Js.truthy Js.ltb Js.gtb].
  destruct (Z.eqb_spec (nanos / 1000000) 0) as [|_]; [contradiction|].
  cbn [negb andb].
  destruct (Z.ltb_spec (nanos / 1000000) from_ms),
           (Z.ltb_spec to_ms (nanos / 1000000)); try reflexivity; lia.
Qed.

(** scanner.ts, parallel variant: a block of an ICRC ledger whose timestamp
    lies outside the window gives no row and no exception. *)
Lemma handleIcrcBlock_outside_window
      {Principal : Type} (decode : list Byte.byte -> option Principal)
      (toText : Principal -> string) (wallet : Icrc.Account Principal)
      (from_ts to_ts : Z) (symbol : string) (decimals : Z)
      (date_of_nanos : Z -> string) (bw : Z * Icrc.Value) :
  let ts := Icrc.extractNat (Icrc.extractValue (Some (snd bw)) "ts") in
  ts < from_ts \/ to_ts < ts ->
  Icrc.handleIcrcBlock decode toText wallet from_ts to_ts symbol decimals
                       date_of_nanos bw = Done None.
Proof.
  intros ts Hout. unfold Icrc.handleIcrcBlock. cbv zeta. fold ts.
  destruct (Z.ltb_spec ts from_ts), (Z.ltb_spec to_ts ts); try reflexivity; lia.
Qed.

(** C7 (code defect): in [handleBlock] of the parallel scanner the test is
    [if (ts && (ts < FROM_MS || ts > TO_MS)) return;], and a millisecond
    timestamp of 0 is falsy.  A transfer from the watched account in a block
    stamped with less than one millisecond after the epoch lies before the
    window that starts on 2025-06-01, yet it is emitted (with an empty date);
    [wouldCaptureIcpBlock] of the same file says that it is outside the window,
    and the same handler drops the block when its timestamp is one millisecond
    later. *)
Theorem handleBlock_zero_timestamp_emitted :
  let block nanos :=
    Examples.icp_block
      (Icp.Transfer Examples.watched_bytes Examples.other_bytes 5000000) nanos in
  let run nanos :=
    Icp.handleBlock "ICP" 8 Examples.watched_hex Examples.no_date
                    Examples.FROM_MS Examples.TO_MS (block nanos) 7 in
  Icp.n64ToMillis (Icp.timestamp (block 999999)) = Some (Js.Finite 0) /\
  0 < Examples.FROM_MS /\
  Icp.wouldCapture_inWindow Examples.FROM_MS Examples.TO_MS (block 999999) = false /\
  run 999999
  = Some (mkRow "" "ICP" outflow "0.05" "" "" "7" "") /\
  run 0 = run 999999 /\
  run 1000000 = None.
Proof. vm_compute. repeat split. Qed.

(** ** Identity extraction never throws *)

Section ExtractAccount.

Variable Principal : Type.
Variable decode : list Byte.byte -> option Principal.

Lemma extractAccount_returns (value : option Icrc.Value) :
  exists r, Icrc.extractAccount decode value = Done r.
Proof.
  destruct value as [[b|t|n|i|a|m]|]; cbn [Icrc.extractAccount];
    try (eexists; reflexivity).
  - destruct a as [|[b|t|n|i|a'|m] rest]; try (eexists; reflexivity).
    unfold Icrc.Principal_fromUint8Array.
    destruct (decode b); cbn; eexists; reflexivity.
  - destruct (List.length _ =? 0)%nat; [eexists; reflexivity|].
    unfold Icrc.Principal_fromUint8Array.
    destruct (decode _); cbn; eexists; reflexivity.
Qed.

Lemma extractAccount_map_no_owner (m : list (string * Icrc.Value)) :
  Icrc.extractBlob (Icrc.extractValue (Some (Icrc.Map m)) "owner") = [] ->
  Icrc.extractAccount decode (Some (Icrc.Map m)) = Done None.
Proof.
  intros H. cbn [Icrc.extractAccount]. rewrite H. reflexivity.
Qed.

Lemma extractAccount_map_undecodable (m : list (string * Icrc.Value)) :
  decode (Icrc.extractBlob (Icrc.extractValue (Some (Icrc.Map m)) "owner")) = None ->
  Icrc.extractAccount decode (Some (Icrc.Map m)) = Done None.
Proof.
  intros H. cbn [Icrc.extractAccount].
  destruct (List.length _ =? 0)%nat; [reflexivity|].
  unfold Icrc.Principal_fromUint8Array. rewrite H. reflexivity.
Qed.

Lemma extractAccount_array_no_blob (a : list Icrc.Value) :
  (forall b rest, a <> Icrc.Blob b :: rest) ->
  Icrc.extractAccount decode (Some (Icrc.Array a)) = Done None.
Proof.
  intros H. cbn [Icrc.extractAccount].
  destruct a as [|[b|t|n|i|a'|m] rest]; try reflexivity.
  exfalso. exact (H b rest eq_refl).
Qed.

Lemma extractAccount_array_undecodable (b : list Byte.byte) (rest : list Icrc.Value) :
  decode b = None ->
  Icrc.extractAccount decode (Some (Icrc.Array (Icrc.Blob b :: rest))) = Done None.
Proof.
  intros H. cbn [Icrc.extractAccount].
  unfold Icrc.Principal_fromUint8Array. rewrite H. reflexivity.
Qed.

Variable toText : Principal -> string.
Variable wallet : Icrc.Account Principal.
Variables (from_ts to_ts : Z) (symbol : string) (decimals : Z).
Variable date_of_nanos : Z -> string.

Let handle := Icrc.handleIcrcBlock decode toText wallet from_ts to_ts symbol decimals
  date_of_nanos.

(** The handler of the ICRC-3 blocks never throws either. *)
Lemma handleIcrcBlock_returns (bw : Z * Icrc.Value) :
  exists r, handle bw = Done r.
Proof.
  unfold handle, Icrc.handleIcrcBlock. cbv zeta.
  destruct (_ || _); [eexists; reflexivity|].
  destruct (Icrc.extractValue (Some (snd bw)) "tx") as [[b|t|n|i|a|m]|];
    try (eexists; reflexivity).
  destruct (_ && _); [eexists; reflexivity|].
  destruct (extractAccount_returns (Icrc.extractValue (Some (Icrc.Map m)) "from"))
    as [from ->].
  destruct (extractAccount_returns (Icrc.extractValue (Some (Icrc.Map m)) "to"))
    as [to ->].
  cbn [bind].
  destruct (Icrc.classify toText from to wallet); eexists; reflexivity.
Qed.

(** A transfer one of whose identities does not decode is dropped. *)
Lemma handleIcrcBlock_drops_null_identity (bw : Z * Icrc.Value) :
  let tx := Icrc.extractValue (Some (snd bw)) "tx" in
  Icrc.extractAccount decode (Icrc.extractValue tx "from") = Done None
  \/ Icrc.extractAccount decode (Icrc.extractValue tx "to") = Done None ->
  handle bw = Done None.
Proof.
  intros tx Hnull. unfold handle, Icrc.handleIcrcBlock. cbv zeta. fold tx.
  destruct (_ || _); [reflexivity|].
  destruct tx as [[b|t|n|i|a|m]|] eqn:Htx; try reflexivity.
  destruct (_ && _); [reflexivity|].
  destruct (extractAccount_returns (Icrc.extractValue (Some (Icrc.Map m)) "from"))
    as [from Hfrom].
  destruct (extractAccount_returns (Icrc.extractValue (Some (Icrc.Map m)) "to"))
    as [to Hto].
  rewrite Hfrom, Hto. cbn [bind].
  assert (Hcl : Icrc.classify toText from to wallet = None).
  { destruct Hnull as [H|H].
    - rewrite Hfrom in H. injection H as ->. reflexivity.
    - rewrite Hto in H. injection H as ->. destruct from; reflexivity. }
  rewrite Hcl. reflexivity.
Qed.

End ExtractAccount.

(** C8: [extractAccount] returns for every value and never throws.  It returns
    null for a map without an owner blob, for an array whose first element is
    not a blob, for owner bytes that the principal library rejects (in either
    form), and for a value of any other shape; and [handleIcrcBlock] returns
    without a row, and without an exception, when the from or the to identity
    of a transfer is null. *)
Theorem extractAccount_total
        (Principal : Type) (decode : list Byte.byte -> option Principal) :
  (forall value, exists r, Icrc.extractAccount decode value = Done r) /\
  (forall m,
      Icrc.extractBlob (Icrc.extractValue (Some (Icrc.Map m)) "owner") = [] ->
      Icrc.extractAccount decode (Some (Icrc.Map m)) = Done None) /\
  (forall a,
      (forall b rest, a <> Icrc.Blob b :: rest) ->
      Icrc.extractAccount decode (Some (Icrc.Array a)) = Done None) /\
  (forall m,
      decode (Icrc.extractBlob (Icrc.extractValue (Some (Icrc.Map m)) "owner")) = None ->
      Icrc.extractAccount decode (Some (Icrc.Map m)) = Done None) /\
  (forall b rest,
      decode b = None ->
      Icrc.extractAccount decode (Some (Icrc.Array (Icrc.Blob b :: rest))) = Done None) /\
  Icrc.extractAccount decode None = Done None /\
  (forall b, Icrc.extractAccount decode (Some (Icrc.Blob b)) = Done None) /\
  (forall t, Icrc.extractAccount decode (Some (Icrc.Text t)) = Done None) /\
  (forall n, Icrc.extractAccount decode (Some (Icrc.Nat n)) = Done None) /\
  (forall i, Icrc.extractAccount decode (Some (Icrc.Int i)) = Done None) /\
  (forall toText wallet from_ts to_ts symbol decimals date_of_nanos bw,
      let handle := Icrc.handleIcrcBlock decode toText wallet from_ts to_ts
                                         symbol decimals date_of_nanos in
      let tx := Icrc.extractValue (Some (snd bw)) "tx" in
      (exists r, handle bw = Done r) /\
      (Icrc.extractAccount decode (Icrc.extractValue tx "from") = Done None
       \/ Icrc.extractAccount decode (Icrc.extractValue tx "to") = Done None ->
       handle bw = Done None)).
Proof.
  split; [apply extractAccount_returns|].
  split; [apply extractAccount_map_no_owner|].
  split; [apply extractAccount_array_no_blob|].
  split; [apply extractAccount_map_undecodable|].
  split; [apply extractAccount_array_undecodable|].
  do 5 (split; [reflexivity|]).
  intros toText wallet from_ts to_ts symbol decimals date_of_nanos bw handle tx.
  split.
  - apply handleIcrcBlock_returns.
  - apply handleIcrcBlock_drops_null_identity.
Qed.

Lemma extractAccount_total_witness :
  let from :=
    Icrc.extractValue
      (Icrc.extractValue (Some Examples.block_without_owner) "tx") "from" in
  Icrc.extractBlob (Icrc.extractValue from "owner") = [] /\
  Icrc.extractAccount Examples.decode_29 from = Done None /\
  Icrc.handleIcrcBlock Examples.decode_29 Js.toHex Examples.wallet_bytes
                       1748736000000000000 1767225600000000000 "ckBTC" 8
                       Examples.no_date (2783712, Examples.block_without_owner)
  = Done None.
Proof.
  cbv zeta. split; [reflexivity|].
  destruct (extractAccount_total (list Byte.byte) Examples.decode_29)
    as (_ & Hmap & _ & _ & _ & _ & _ & _ & _ & _ & Hhandle).
  split.
  - exact (Hmap [("subaccount"%string, Icrc.Blob Examples.subaccount_one)] eq_refl).
  - apply Hhandle. left. reflexivity.
Defined.

Example extractAccount_undecodable_owner :
  Icrc.extractAccount Examples.decode_29
    (Some (Icrc.Array [Icrc.Blob (repeat Byte.x07 30)])) = Done None
  /\ Icrc.extractAccount Examples.decode_29
       (Some (Icrc.Map [("owner"%string, Icrc.Blob [Byte.x01; Byte.x02]);
                        ("subaccount"%string, Icrc.Blob [])]))
     = Done (Some (Icrc.mkAccount [Byte.x01; Byte.x02] None)).
Proof. split; reflexivity. Qed.

(** ** [memoToHex] *)

Lemma byte_toHex_digits (b : Byte.byte) : Js.byte_toHex b = Parse.byte_hex_digits b.
Proof. destruct b; reflexivity. Qed.

Lemma byte_hex_digits_read (b : Byte.byte) :
  Parse.all_lower_hex (Parse.byte_hex_digits b) = true /\
  Parse.hex_value 0 (Parse.byte_hex_digits b) = Byte.to_N b.
Proof. destruct b; split; reflexivity. Qed.

Lemma bytes_toHex_digits (a : list Byte.byte) :
  Js.toHex a = fold_right (fun b s => (Parse.byte_hex_digits b ++ s)%string) ""%string a.
Proof.
  induction a as [|b a IH]; [reflexivity|].
  cbn [Js.toHex fold_right]. now rewrite IH, byte_toHex_digits.
Qed.

(** The 16 digits of a non-zero u64. *)
Lemma u64_toHex (z : Z) :
  0 < z < 2 ^ 64 ->
  let text := Js.padStart (Js.Z_toString 16 z) 16 "0" in
  String.length text = 16%nat /\
  Parse.all_lower_hex text = true /\
  Parse.hex_value 0 text = Z.to_N z.
Proof.
  intros Hz. cbv zeta. unfold Js.Z_toString.
  destruct (Z.ltb_spec z 0); [lia|].
  set (n := Z.to_N z).
  assert (Hlen : (String.length (Js.N_toString 16 n) <= 16)%nat).
  { unfold Js.N_toString. apply to_digits_length; [lia|lia|].
    change (16 ^ N.of_nat 16)%N with (Z.to_N (2 ^ 64)). unfold n. lia. }
  unfold Js.padStart.
  set (k := Z.to_nat (16 - Z.of_nat (String.length (Js.N_toString 16 n)))).
  split; [|split].
  - rewrite length_append, length_repeat_char. unfold k. lia.
  - unfold Parse.all_lower_hex. rewrite all_chars_append.
    rewrite all_chars_repeat by reflexivity.
    rewrite (N_toString_all 16 Parse.is_lower_hex) by (lia || exact is_lower_hex_char).
    reflexivity.
  - unfold Parse.hex_value. rewrite radix_value_append.
    rewrite repeat_zero_value by (reflexivity || lia).
    apply N_toString_value; [lia|exact hex_digit_value_char].
Qed.

(** [Uint8Array.from] keeps of every integer its value modulo 256. *)
Lemma Uint8_of_int_value (z : Z) :
  Z.of_N (Byte.to_N (Js.Uint8_of_int z)) = z mod 256.
Proof.
  unfold Js.Uint8_of_int.
  pose proof (Z.mod_pos_bound z 256 ltac:(lia)) as Hbound.
  destruct (Byte.of_N (Z.to_N (z mod 256))) as [b|] eqn:Hb.
  - rewrite (Byte.to_of_N _ Hb). lia.
  - apply Byte.of_N_None_iff in Hb. lia.
Qed.

Lemma Uint8_of_int_bytes (a : list Z) :
  Forall2 (fun z b => Z.of_N (Byte.to_N b) = z mod 256) a (map Js.Uint8_of_int a).
Proof.
  induction a as [|z a IH]; cbn [map]; constructor;
    [apply Uint8_of_int_value|exact IH].
Qed.

(** C10: [memoToHex] gives the empty string for an absent memo and for a
    numeric memo equal to zero, so a u64 memo of zero cannot be told from no
    memo; every non-zero u64 memo, bigint or number, gives 16 lowercase
    hexadecimal characters, zero-padded, that read back as the memo; and a
    byte sequence gives the concatenation of the two lowercase hexadecimal
    digits of each byte, where an array of integers stands for the bytes
    that are its elements modulo 256. *)
Theorem memoToHex_cases :
  Fmt.memoToHex Fmt.MemoAbsent = ""%string /\
  Fmt.memoToHex (Fmt.MemoBigInt 0) = ""%string /\
  Fmt.memoToHex (Fmt.MemoNumber 0) = ""%string /\
  (forall z, 0 < z < 2 ^ 64 ->
     Fmt.memoToHex (Fmt.MemoNumber z) = Fmt.memoToHex (Fmt.MemoBigInt z) /\
     String.length (Fmt.memoToHex (Fmt.MemoBigInt z)) = 16%nat /\
     Parse.all_lower_hex (Fmt.memoToHex (Fmt.MemoBigInt z)) = true /\
     Parse.hex_value 0 (Fmt.memoToHex (Fmt.MemoBigInt z)) = Z.to_N z) /\
  (forall a,
     Fmt.memoToHex (Fmt.MemoUint8Array a)
     = fold_right (fun b s => (Parse.byte_hex_digits b ++ s)%string) ""%string a) /\
  (forall a : list Z,
     exists bytes : list Byte.byte,
       Forall2 (fun z b => Z.of_N (Byte.to_N b) = z mod 256) a bytes /\
       Fmt.memoToHex (Fmt.MemoArray a)
       = fold_right (fun b s => (Parse.byte_hex_digits b ++ s)%string) ""%string
                    bytes) /\
  (forall b,
     String.length (Parse.byte_hex_digits b) = 2%nat /\
     Parse.all_lower_hex (Parse.byte_hex_digits b) = true /\
     Parse.hex_value 0 (Parse.byte_hex_digits b) = Byte.to_N b).
Proof.
  do 3 (split; [reflexivity|]).
  split; [|split; [|split]].
  - intros z Hz.
    assert (Hm : Fmt.memoToHex (Fmt.MemoBigInt z)
                 = Js.padStart (Js.Z_toString 16 z) 16 "0").
    { unfold Fmt.memoToHex, Fmt.memo_falsy.
      destruct (Z.eqb_spec z 0); [lia|reflexivity]. }
    split; [unfold Fmt.memoToHex, Fmt.memo_falsy; reflexivity|].
    rewrite Hm. apply u64_toHex. exact Hz.
  - intros a. apply bytes_toHex_digits.
  - intros a. exists (map Js.Uint8_of_int a).
    split; [apply Uint8_of_int_bytes|apply bytes_toHex_digits].
  - intros b. split; [reflexivity|apply byte_hex_digits_read].
Qed.

Lemma memoToHex_cases_witness :
  0 < 48879 < 2 ^ 64 /\
  String.length (Fmt.memoToHex (Fmt.MemoBigInt 48879)) = 16%nat /\
  Parse.hex_value 0 (Fmt.memoToHex (Fmt.MemoBigInt 48879)) = 48879%N.
Proof.
  split; [lia|].
  destruct memoToHex_cases as (_ & _ & _ & Hu64 & _).
  destruct (Hu64 48879 ltac:(lia)) as (_ & Hlen & _ & Hval).
  split; [exact Hlen|exact Hval].
Defined.

Example memoToHex_beef :
  Fmt.memoToHex (Fmt.MemoBigInt 48879) = "000000000000beef"%string.
Proof. vm_compute. reflexivity. Qed.

Example memoToHex_bytes :
  Fmt.memoToHex (Fmt.MemoUint8Array [Byte.x00; Byte.xff; Byte.x0a]) = "00ff0a"%string.
Proof. vm_compute. reflexivity. Qed.

Example memoToHex_integers :
  Fmt.memoToHex (Fmt.MemoArray [256; -1; 10]) = "00ff0a"%string.
Proof. vm_compute. reflexivity. Qed.

(** ** A failed fetch of a segment *)

Section ParallelScan.

Variable Fetched : Type.
Variable fetchBlocks : Scanner.Segment -> outcome (list Fetched).
Variable handle : Fetched -> outcome (option CsvRow).

(** The handler never throws. *)
Hypothesis handle_returns : forall b, exists r, handle b = Done r.

Let error_of (seg : Scanner.Segment) : list (Scanner.Segment * string) :=
  match fetchBlocks seg with
  | Done _ => []
  | Thrown e => [(seg, e)]
  end.

Lemma handle_all_spec (fetched : list Fetched) (st : Scan.State Scanner.Segment) :
  let st' := fst (Scan.handle_all handle fetched st) in
  snd (Scan.handle_all handle fetched st) = None /\
  Scan.rows st' = Scan.rows st ++ Scan.rows_of_fetched handle fetched /\
  Scan.errors st' = Scan.errors st /\
  Scan.fetches st' = Scan.fetches st /\
  Scan.segDone st' = Scan.segDone st.
Proof.
  revert st; induction fetched as [|b rest IH]; intros st; cbn.
  - rewrite app_nil_r. repeat split.
  - destruct (handle_returns b) as [r ->].
    destruct (IH (Scan.push_opt r st)) as (Hs & Hr & He & Hf & Hd).
    split; [exact Hs|].
    destruct r as [row|]; cbn [Scan.push_opt] in *.
    + rewrite Hr, He, Hf, Hd. cbn. rewrite <- app_assoc. repeat split.
    + rewrite Hr, He, Hf, Hd. repeat split.
Qed.

Lemma segment_task_spec (seg : Scanner.Segment) (st : Scan.State Scanner.Segment) :
  let st' := Scan.segment_task fetchBlocks handle seg st in
  Scan.rows st' = Scan.rows st ++ Scan.rows_of_segment fetchBlocks handle seg /\
  Scan.errors st' = Scan.errors st ++ error_of seg /\
  Scan.fetches st' = Scan.fetches st ++ [seg] /\
  Scan.segDone st' = Scan.segDone st + 1.
Proof.
  unfold Scan.segment_task, Scan.rows_of_segment, error_of. cbv zeta.
  destruct (fetchBlocks seg) as [fetched|e].
  - pose proof (handle_all_spec fetched (Scan.log_fetch seg st)) as H.
    cbv zeta in H.
    destruct (Scan.handle_all handle fetched (Scan.log_fetch seg st)) as [st' thrown].
    cbn [fst snd] in H. destruct H as (-> & Hr & He & Hf & Hd).
    cbn. rewrite Hr, He, Hf, Hd. cbn. rewrite app_nil_r. repeat split.
  - cbn. rewrite app_nil_r. repeat split.
Qed.

Lemma fold_segment_task_spec (completion : list Scanner.Segment)
      (st : Scan.State Scanner.Segment) :
  let st' := fold_left (fun st seg => Scan.segment_task fetchBlocks handle seg st)
                       completion st in
  Scan.rows st'
  = Scan.rows st ++ flat_map (Scan.rows_of_segment fetchBlocks handle) completion /\
  Scan.errors st' = Scan.errors st ++ flat_map error_of completion /\
  Scan.fetches st' = Scan.fetches st ++ completion /\
  Scan.segDone st' = Scan.segDone st + Z.of_nat (List.length completion).
Proof.
  revert st; induction completion as [|seg rest IH]; intros st.
  - cbn. rewrite !app_nil_r. repeat split. lia.
  - cbn [fold_left flat_map List.length].
    destruct (IH (Scan.segment_task fetchBlocks handle seg st)) as (Hr & He & Hf & Hd).
    destruct (segment_task_spec seg st) as (Hr1 & He1 & Hf1 & Hd1).
    cbv zeta in *.
    rewrite Hr, He, Hf, Hd, Hr1, He1, Hf1, Hd1.
    rewrite <- !app_assoc. repeat split. lia.
Qed.

(** Whatever the fetches do and in whatever order they complete: every segment
    is fetched exactly once, every failed fetch is logged once, and the rows
    are those of the segments whose fetch succeeded. *)
Lemma run_segments_spec (completion : list Scanner.Segment) :
  let st := Scan.run_segments fetchBlocks handle completion in
  Scan.fetches st = completion /\
  Scan.errors st = flat_map error_of completion /\
  Scan.rows st = flat_map (Scan.rows_of_segment fetchBlocks handle) completion /\
  Scan.segDone st = Z.of_nat (List.length completion).
Proof.
  unfold Scan.run_segments.
  destruct (fold_segment_task_spec completion Scan.initial) as (Hr & He & Hf & Hd).
  cbv zeta in *. cbn in Hr, He, Hf, Hd. repeat split; assumption.
Qed.

(** In particular one failure does not hide the rows of another segment. *)
Lemma run_segments_emits (completion : list Scanner.Segment)
      (seg : Scanner.Segment) (fetched : list Fetched) (b : Fetched) (row : CsvRow) :
  In seg completion -> fetchBlocks seg = Done fetched ->
  In b fetched -> handle b = Done (Some row) ->
  In row (Scan.rows (Scan.run_segments fetchBlocks handle completion)).
Proof.
  intros Hseg Hfetch Hb Hrow.
  destruct (run_segments_spec completion) as (_ & _ & -> & _).
  apply in_flat_map. exists seg. split; [exact Hseg|].
  unfold Scan.rows_of_segment. rewrite Hfetch.
  apply in_flat_map. exists b. split; [exact Hb|].
  rewrite Hrow. left. reflexivity.
Qed.

Lemma run_segments_logs (completion : list Scanner.Segment)
      (seg : Scanner.Segment) (e : string) :
  In seg completion -> fetchBlocks seg = Thrown e ->
  In (seg, e) (Scan.errors (Scan.run_segments fetchBlocks handle completion)) /\
  Scan.rows_of_segment fetchBlocks handle seg = [].
Proof.
  intros Hseg Hfetch.
  destruct (run_segments_spec completion) as (_ & -> & _ & _).
  split.
  - apply in_flat_map. exists seg. split; [exact Hseg|].
    unfold error_of. rewrite Hfetch. left. reflexivity.
  - unfold Scan.rows_of_segment. rewrite Hfetch. reflexivity.
Qed.

End ParallelScan.

Section SequentialScan.

Variable query_blocks : Z -> Z -> outcome Scan.QueryBlocksResponse.
Variable archive_get_blocks : Scan.ArchivedRange -> outcome (option (list Icp.Block)).
Variable handle : Icp.Block -> Z -> option CsvRow.
Variable handle_archived : Icp.Block -> Z -> Scan.Archived.
Variables MAX_BLOCKS_PER_LEDGER PAGE : Z.

(** Sequential variant: a query that fails is logged and ends the loop; the
    rows pushed before it are kept and no further query is made. *)
Lemma scan_loop_failed_query (fuel : nat) (startIndex cursor : Z)
      (st : Scan.State Scan.Query) (e : string) :
  1 <= PAGE <= 2 ^ 53 ->
  startIndex <= cursor ->
  Scan.scanned st < MAX_BLOCKS_PER_LEDGER ->
  let length := Z.min PAGE (cursor - startIndex + 1) in
  let start := cursor - (length - 1) in
  query_blocks start length = Thrown e ->
  Scan.scan_loop query_blocks archive_get_blocks handle handle_archived
                 MAX_BLOCKS_PER_LEDGER PAGE (S fuel) startIndex cursor st
  = Some (Done (Scan.log_error (start, length) e
                               (Scan.log_fetch (start, length) st))).
Proof.
  intros Hp Hc Hs length start Hq.
  cbn [Scan.scan_loop].
  destruct (Z.leb_spec startIndex cursor); [|lia].
  destruct (Z.ltb_spec (Scan.scanned st) MAX_BLOCKS_PER_LEDGER); [|lia].
  cbn [andb].
  rewrite segment_length_exact by lia.
  fold length. fold start. rewrite Hq. reflexivity.
Qed.

End SequentialScan.

(** C9 as stated fails for the sequential [scanIcpLedger]: on a ledger of 2000
    blocks whose newer page times out, the [catch] block ends the loop with
    [break]; the older page, whose query would succeed and which holds a
    transfer to the watched account, is never queried, and no row is
    returned.  The parallel scanner emits that row. *)
Lemma sequential_scan_stops_counterexample :
  Examples.flaky_query 1000 1000 = Thrown "timeout" /\
  Examples.flaky_query 0 1000 = Done (Scan.mkResponse [Examples.inflow_block] 0 []) /\
  Icp.handleBlock_sequential "ICP" 8 Examples.watched_hex Examples.no_date
                             Examples.TO_MS Examples.inflow_block 0
  = Some Examples.inflow_row /\
  Ledgers.scanIcpLedger_sequential "ICP" 8 Examples.watched_hex Examples.no_date
                             Examples.TO_MS 1000000
                             Examples.flaky_query Examples.no_archive 5 2000
  = Some (Done (Scan.mkState [] 0 0 0 [((1000, 1000), "timeout"%string)]
                             [(1000, 1000)])) /\
  Scan.rows
    (Ledgers.scanIcpLedger_parallel "ICP" 8 Examples.watched_hex Examples.no_date
                              Examples.FROM_MS Examples.TO_MS Examples.flaky_fetch
                              [Scanner.mkSegment 1000 1000 0; Scanner.mkSegment 0 1000 1])
  = [Examples.inflow_row].
Proof. vm_compute. repeat split. Qed.

(** C9 (as amended): in the parallel scanners, [scanIcpLedger] and
    [scanIcrcLedger] with [buildSegments], whatever the fetches of the segments
    do and in whatever order they complete, every segment is fetched exactly
    once, a fetch that fails is logged once and brings no row, and the rows
    emitted are exactly the rows of the blocks of the segments whose fetch
    succeeds, segment by segment in completion order; the scan itself
    returns.  In the sequential [scanIcpLedger] a query that fails is logged
    and ends the loop: the rows pushed before it are returned and the older
    segments are not queried. *)
Theorem segment_failure_policy :
  (forall symbol decimals icpAccountIdHex Date_toISOString from_ms to_ms
          (fetch : Scanner.Segment -> outcome (list (Z * Icp.Block))) completion,
      let st := Ledgers.scanIcpLedger_parallel symbol decimals icpAccountIdHex
                                         Date_toISOString from_ms to_ms
                                         fetch completion in
      Scan.fetches st = completion /\
      Scan.segDone st = Z.of_nat (List.length completion) /\
      Scan.errors st
      = flat_map (fun seg => match fetch seg with
                             | Done _ => []
                             | Thrown e => [(seg, e)]
                             end) completion /\
      Scan.rows st
      = flat_map
          (fun seg =>
             match fetch seg with
             | Done fetched =>
                 flat_map
                   (fun item =>
                      match Icp.handleBlock symbol decimals icpAccountIdHex
                                            Date_toISOString from_ms to_ms
                                            (snd item) (fst item) with
                      | Some row => [row]
                      | None => []
                      end) fetched
             | Thrown _ => []
             end) completion /\
      (forall seg e, In seg completion -> fetch seg = Thrown e ->
                     In (seg, e) (Scan.errors st)) /\
      (forall seg fetched index block row,
          In seg completion -> fetch seg = Done fetched ->
          In (index, block) fetched ->
          Icp.handleBlock symbol decimals icpAccountIdHex Date_toISOString
                          from_ms to_ms block index = Some row ->
          In row (Scan.rows st))) /\
  (forall (Principal : Type) decode (toText : Principal -> string) wallet
          from_ts to_ts symbol decimals date_of_nanos
          (fetch : Scanner.Segment -> outcome (list (Z * Icrc.Value))) completion,
      let st := Ledgers.scanIcrcLedger_parallel Principal decode toText wallet
                                          from_ts to_ts symbol decimals
                                          date_of_nanos fetch completion in
      Scan.fetches st = completion /\
      Scan.segDone st = Z.of_nat (List.length completion) /\
      Scan.errors st
      = flat_map (fun seg => match fetch seg with
                             | Done _ => []
                             | Thrown e => [(seg, e)]
                             end) completion /\
      Scan.rows st
      = flat_map
          (fun seg =>
             match fetch seg with
             | Done fetched =>
                 flat_map
                   (fun bw =>
                      match Icrc.handleIcrcBlock decode toText wallet from_ts to_ts
                                                 symbol decimals date_of_nanos bw with
                      | Done (Some row) => [row]
                      | _ => []
                      end) fetched
             | Thrown _ => []
             end) completion /\
      (forall seg e, In seg completion -> fetch seg = Thrown e ->
                     In (seg, e) (Scan.errors st)) /\
      (forall seg fetched bw row,
          In seg completion -> fetch seg = Done fetched ->
          In bw fetched ->
          Icrc.handleIcrcBlock decode toText wallet from_ts to_ts symbol decimals
                               date_of_nanos bw = Done (Some row) ->
          In row (Scan.rows st))) /\
  (forall query_blocks archive_get_blocks handle handle_archived
          MAX_BLOCKS_PER_LEDGER PAGE fuel startIndex cursor st e,
      1 <= PAGE <= 2 ^ 53 ->
      startIndex <= cursor ->
      Scan.scanned st < MAX_BLOCKS_PER_LEDGER ->
      let length := Z.min PAGE (cursor - startIndex + 1) in
      let start := cursor - (length - 1) in
      query_blocks start length = Thrown e ->
      Scan.scan_loop query_blocks archive_get_blocks handle handle_archived
                     MAX_BLOCKS_PER_LEDGER PAGE (S fuel) startIndex cursor st
      = Some (Done (Scan.log_error (start, length) e
                                   (Scan.log_fetch (start, length) st)))).
Proof.
  split; [|split].
  - intros symbol decimals icpAccountIdHex Date_toISOString from_ms to_ms
           fetch completion st.
    unfold Ledgers.scanIcpLedger_parallel in st.
    set (handle := fun fetched : Z * Icp.Block =>
                     Done (Icp.handleBlock symbol decimals icpAccountIdHex
                                           Date_toISOString from_ms to_ms
                                           (snd fetched) (fst fetched))) in *.
    assert (Hret : forall b, exists r, handle b = Done r)
      by (intros b; eexists; reflexivity).
    destruct (run_segments_spec _ fetch handle Hret completion) as (Hf & He & Hr & Hd).
    split; [exact Hf|]. split; [exact Hd|]. split; [exact He|]. split.
    + fold st in Hr. rewrite Hr. apply flat_map_ext. intros seg.
      unfold Scan.rows_of_segment, Scan.rows_of_fetched.
      destruct (fetch seg) as [fetched|e]; [|reflexivity].
      apply flat_map_ext. intros item. unfold handle.
      destruct (Icp.handleBlock _ _ _ _ _ _ _ _); reflexivity.
    + split.
      * intros seg e Hin Hthrown.
        apply (run_segments_logs _ fetch handle Hret completion seg e Hin Hthrown).
      * intros seg fetched index block row Hin Hfetch Hb Hrow.
        apply (run_segments_emits _ fetch handle Hret completion seg fetched
                                  (index, block) row Hin Hfetch Hb).
        unfold handle. cbn [fst snd]. now rewrite Hrow.
  - intros Principal decode toText wallet from_ts to_ts symbol decimals
           date_of_nanos fetch completion st.
    unfold Ledgers.scanIcrcLedger_parallel in st.
    set (handle := Icrc.handleIcrcBlock decode toText wallet from_ts to_ts
                                        symbol decimals date_of_nanos) in *.
    assert (Hret : forall b, exists r, handle b = Done r)
      by (intros b; apply handleIcrcBlock_returns).
    destruct (run_segments_spec _ fetch handle Hret completion) as (Hf & He & Hr & Hd).
    split; [exact Hf|]. split; [exact Hd|]. split; [exact He|]. split.
    + fold st in Hr. rewrite Hr. reflexivity.
    + split.
      * intros seg e Hin Hthrown.
        apply (run_segments_logs _ fetch handle Hret completion seg e Hin Hthrown).
      * intros seg fetched bw row Hin Hfetch Hb Hrow.
        apply (run_segments_emits _ fetch handle Hret completion seg fetched
                                  bw row Hin Hfetch Hb Hrow).
  - intros. apply scan_loop_failed_query; assumption.
Qed.

Lemma segment_failure_policy_witness :
  let newer := Scanner.mkSegment 1000 1000 0 in
  let older := Scanner.mkSegment 0 1000 1 in
  let st := Ledgers.scanIcpLedger_parallel "ICP" 8 Examples.watched_hex Examples.no_date
                                     Examples.FROM_MS Examples.TO_MS
                                     Examples.flaky_fetch [older; newer] in
  Examples.flaky_fetch newer = Thrown "timeout" /\
  Examples.flaky_fetch older = Done [(0, Examples.inflow_block)] /\
  In (newer, "timeout"%string) (Scan.errors st) /\
  In Examples.inflow_row (Scan.rows st).
Proof.
  cbv zeta. split; [reflexivity|]. split; [reflexivity|].
  destruct segment_failure_policy as (Hicp & _ & _).
  destruct (Hicp "ICP"%string 8 Examples.watched_hex Examples.no_date
                 Examples.FROM_MS Examples.TO_MS Examples.flaky_fetch
                 [Scanner.mkSegment 0 1000 1; Scanner.mkSegment 1000 1000 0])
    as (_ & _ & _ & _ & Hlog & Hemit).
  split.
  - apply Hlog; [right; left; reflexivity|reflexivity].
  - apply (Hemit (Scanner.mkSegment 0 1000 1) [(0, Examples.inflow_block)]
                 0 Examples.inflow_block);
      [left; reflexivity|reflexivity|left; reflexivity|reflexivity].
Defined.

(* ================================================================== *)
(** * Part III. Further properties of the code *)
(* ================================================================== *)

(** ** Hexadecimal text and bytes *)

Section HexFacts.

Local Open Scope string_scope.

Lemma drop_append (pre rest : string) :
  Js.drop (String.length pre) (pre ++ rest) = rest.
Proof. induction pre as [|c pre IH]; [now destruct rest|exact IH]. Qed.

(** The slice of two characters that starts behind [pre]. *)
Lemma slice_chunk (pre : string) (a b : ascii) (r : string) :
  Js.slice (pre ++ String a (String b r)) (Z.of_nat (String.length pre))
           (Some (Z.of_nat (String.length pre) + 2))
  = String a (String b "").
Proof.
  unfold Js.slice. cbv zeta.
  rewrite length_append. cbn [String.length].
  set (n := String.length pre).
  destruct (Z.ltb_spec (Z.of_nat n) 0); [lia|].
  destruct (Z.ltb_spec (Z.of_nat n + 2) 0); [lia|].
  rewrite !Z.min_l by lia.
  replace (Z.to_nat (Z.of_nat n + 2 - Z.of_nat n)) with 2%nat by lia.
  rewrite Nat2Z.id. unfold n. rewrite drop_append. reflexivity.
Qed.

Lemma parseInt16_byte (b : Byte.byte) :
  Hex.parseInt16 (Parse.byte_hex_digits b) = Hex.number_of_byte b.
Proof. destruct b; vm_compute; reflexivity. Qed.

Lemma byte_hex_digits_append (b : Byte.byte) (rest : string) :
  exists a c, Parse.byte_hex_digits b = String a (String c "")
              /\ Parse.byte_hex_digits b ++ rest = String a (String c rest).
Proof. unfold Parse.byte_hex_digits. cbv zeta. eexists _, _. split; reflexivity. Qed.

Lemma length_toHex (bytes : list Byte.byte) :
  String.length (Js.toHex bytes) = (2 * List.length bytes)%nat.
Proof.
  induction bytes as [|b bytes IH]; [reflexivity|].
  cbn [Js.toHex List.length]. rewrite byte_toHex_digits.
  destruct (byte_hex_digits_append b (Js.toHex bytes)) as (a & c & _ & ->).
  cbn [String.length]. lia.
Qed.

(** The loop of [hexToBytes] over the text of a byte array. *)
Lemma hexToBytes_loop_toHex (bytes : list Byte.byte) :
  forall (pre : string) (out : list (option Js.number)) (n : nat),
    (2 * List.length bytes <= n)%nat ->
    Hex.hexToBytes_loop n (pre ++ Js.toHex bytes) (Z.of_nat (String.length pre)) out
    = (out ++ map Hex.number_of_byte bytes)%list.
Proof.
  induction bytes as [|b bytes IH]; intros pre out n Hn.
  - cbn [Js.toHex map]. rewrite append_empty_r, app_nil_r.
    destruct n as [|n]; [reflexivity|]. cbn [Hex.hexToBytes_loop].
    destruct (Z.ltb_spec (Z.of_nat (String.length pre)) (Z.of_nat (String.length pre)));
      [lia|reflexivity].
  - destruct n as [|n]; [cbn in Hn; lia|].
    cbn [Js.toHex map Hex.hexToBytes_loop]. rewrite byte_toHex_digits.
    destruct (byte_hex_digits_append b (Js.toHex bytes)) as (a & c & Hb & Hbr).
    rewrite Hbr.
    destruct (Z.ltb_spec (Z.of_nat (String.length pre))
                         (Z.of_nat (String.length (pre ++ String a (String c (Js.toHex bytes))))))
      as [_|Hge]; [|rewrite length_append in Hge; cbn [String.length] in Hge; lia].
    rewrite slice_chunk, <- Hb, parseInt16_byte.
    replace (pre ++ String a (String c (Js.toHex bytes)))
      with ((pre ++ String a (String c "")) ++ Js.toHex bytes)
      by (rewrite append_assoc; reflexivity).
    replace (Z.of_nat (String.length pre) + 2)
      with (Z.of_nat (String.length (pre ++ String a (String c ""))))
      by (rewrite length_append; cbn [String.length]; lia).
    rewrite IH by (cbn [List.length] in Hn; lia).
    rewrite <- app_assoc. reflexivity.
Qed.

Lemma toLowerCase_toHex (bytes : list Byte.byte) :
  Js.toLowerCase (Js.toHex bytes) = Js.toHex bytes.
Proof.
  induction bytes as [|b bytes IH]; [reflexivity|].
  cbn [Js.toHex]. rewrite byte_toHex_digits.
  destruct b; cbn; now rewrite IH.
Qed.

Lemma strip_0x_toHex (bytes : list Byte.byte) :
  ApiScanner.strip_0x (Js.toHex bytes) = Js.toHex bytes.
Proof.
  destruct bytes as [|b bytes]; [reflexivity|].
  cbn [Js.toHex]. rewrite byte_toHex_digits.
  destruct b; reflexivity.
Qed.

Lemma hexToBytes_of_toHex (hex : string) (bytes : list Byte.byte) :
  Js.toLowerCase (ApiScanner.strip_0x hex) = Js.toHex bytes ->
  Hex.hexToBytes hex = Done (map Hex.number_of_byte bytes).
Proof.
  intros Hhex. unfold Hex.hexToBytes. cbv zeta.
  rewrite Hhex, length_toHex.
  destruct bytes as [|b bytes]; [reflexivity|].
  destruct (Nat.eqb_spec (2 * List.length (b :: bytes)) 0) as [H0|_];
    [cbn in H0; lia|].
  replace (Z.of_nat (2 * List.length (b :: bytes)) mod 2) with 0%Z
    by (rewrite Nat2Z.inj_mul, Z.mul_comm, Z.mod_mul; lia).
  cbn [Z.eqb negb]. f_equal.
  exact (hexToBytes_loop_toHex (b :: bytes) "" [] _ (Nat.le_refl _)).
Qed.

(** The number of elements pushed by the loop. *)
Lemma hexToBytes_loop_length (n : nat) (s : string) :
  forall (i : nat) (out : list (option Js.number)),
    (String.length s <= i + 2 * n)%nat ->
    (2 * List.length (Hex.hexToBytes_loop n s (Z.of_nat i) out)
     = 2 * List.length out + 2 * Nat.div2 (S (String.length s - i)))%nat.
Proof.
  induction n as [|n IH]; intros i out Hn.
  - cbn [Hex.hexToBytes_loop]. replace (String.length s - i)%nat with 0%nat by lia.
    cbn. lia.
  - cbn [Hex.hexToBytes_loop].
    destruct (Z.ltb_spec (Z.of_nat i) (Z.of_nat (String.length s))) as [Hlt|Hge].
    + replace (Z.of_nat i + 2)%Z with (Z.of_nat (i + 2)) by lia.
      rewrite IH by lia. rewrite length_app. cbn [List.length].
      destruct (Nat.eq_dec (String.length s - i) 1) as [H1|H1].
      * rewrite H1. replace (String.length s - (i + 2))%nat with 0%nat by lia.
        cbn [Nat.div2]. lia.
      * replace (String.length s - i)%nat
          with (S (S (String.length s - (i + 2)))) by lia.
        cbn [Nat.div2]. lia.
    + replace (String.length s - i)%nat with 0%nat by lia. cbn. lia.
Qed.

Lemma length_toLowerCase (s : string) :
  String.length (Js.toLowerCase s) = String.length s.
Proof. induction s as [|c s IH]; [reflexivity|cbn; now rewrite IH]. Qed.

End HexFacts.

(** X1.  [hexToBytes] undoes [toHex] ([bytesToHex], [accountIdToHex]): the
    text that [toHex] gives for a byte array, with or without a [0x] in
    front, is read back as the numbers of these bytes, in order. *)
Theorem hexToBytes_toHex_round_trip (bytes : list Byte.byte) :
  Hex.hexToBytes (Js.toHex bytes) = Done (map Hex.number_of_byte bytes) /\
  Hex.hexToBytes ("0x" ++ Js.toHex bytes) = Done (map Hex.number_of_byte bytes).
Proof.
  split; apply hexToBytes_of_toHex.
  - now rewrite strip_0x_toHex, toLowerCase_toHex.
  - change (ApiScanner.strip_0x ("0x" ++ Js.toHex bytes)) with (Js.toHex bytes).
    apply toLowerCase_toHex.
Qed.

(** The parity of the length decides between a result and an exception. *)
Lemma hexToBytes_parity (hex : string) :
  let n := String.length (ApiScanner.strip_0x hex) in
  (Nat.even n = true ->
   exists out, Hex.hexToBytes hex = Done out /\ (2 * List.length out = n)%nat) /\
  (Nat.even n = false -> exists e, Hex.hexToBytes hex = Thrown e).
Proof.
  cbv zeta. unfold Hex.hexToBytes. cbv zeta.
  rewrite length_toLowerCase.
  set (s := Js.toLowerCase (ApiScanner.strip_0x hex)).
  set (n := String.length (ApiScanner.strip_0x hex)).
  assert (Hs : String.length s = n) by (unfold s; apply length_toLowerCase).
  split.
  - intros Heven. apply Nat.even_spec in Heven as [k Hk].
    destruct (Nat.eqb_spec n 0) as [H0|Hpos].
    + exists []. split; [reflexivity|cbn; lia].
    + replace (Z.of_nat n mod 2)%Z with 0%Z
        by (rewrite Hk, Nat2Z.inj_mul, Z.mul_comm, Z.mod_mul; lia).
      cbn [Z.eqb negb]. eexists. split; [reflexivity|].
      pose proof (hexToBytes_loop_length n s 0 [] ltac:(lia)) as Hlen.
      cbn [Z.of_nat] in Hlen. rewrite Hlen. cbn [List.length].
      rewrite Hs, Nat.sub_0_r, Hk.
      rewrite Nat.div2_succ_double. lia.
  - intros Hodd.
    destruct (Nat.eqb_spec n 0) as [H0|Hpos]; [rewrite H0 in Hodd; discriminate|].
    assert (Hmod : (Z.of_nat n mod 2 = 1)%Z).
    { rewrite <- Nat.negb_odd in Hodd. apply negb_false_iff in Hodd.
      apply Nat.odd_spec in Hodd as [k Hk]. rewrite Hk.
      replace (Z.of_nat (2 * k + 1)) with (1 + Z.of_nat k * 2)%Z by lia.
      rewrite Z.mod_add by lia. reflexivity. }
    rewrite Hmod. cbn [Z.eqb negb]. eexists. reflexivity.
Qed.

(** X2.  [hexToBytes] looks at the length only.  With [n] the number of
    characters behind an optional [0x]: it throws exactly when [n] is odd,
    and otherwise returns [n / 2] elements, also when the text holds
    characters that are no hexadecimal digits; such a pair gives [NaN], and a
    sign is read as a sign. *)
Theorem hexToBytes_length (hex : string) :
  let n := String.length (ApiScanner.strip_0x hex) in
  (Nat.even n = true ->
   exists out, Hex.hexToBytes hex = Done out /\ (2 * List.length out = n)%nat) /\
  (Nat.even n = false -> exists e, Hex.hexToBytes hex = Thrown e) /\
  Hex.hexToBytes "zz" = Done [None] /\
  Hex.hexToBytes "-1" = Done [Some (Js.Finite (-1))].
Proof.
  cbv zeta. destruct (hexToBytes_parity hex) as [Heven Hodd].
  split; [exact Heven|]. split; [exact Hodd|]. split; reflexivity.
Qed.

Lemma hexToBytes_length_witness :
  exists out, Hex.hexToBytes "0xbeef" = Done out /\ (2 * List.length out = 4)%nat.
Proof.
  destruct (hexToBytes_length "0xbeef") as (Heven & _).
  exact (Heven eq_refl).
Defined.

(** ** The sub-identity of the wallet, from the environment *)

Section WalletSubaccount.

Local Open Scope string_scope.

Lemma lower_hex_digit (c : ascii) :
  Parse.is_lower_hex c = true -> exists d, (d < 16)%N /\ c = Js.digit_char d.
Proof.
  intros H. exists (Parse.hex_digit_value c).
  destruct c as [[] [] [] [] [] [] [] []]; try discriminate H;
    (split; [reflexivity|reflexivity]).
Qed.

Lemma lower_hex_pair (a c : ascii) :
  Parse.is_lower_hex a = true -> Parse.is_lower_hex c = true ->
  exists b, Parse.byte_hex_digits b = String a (String c "").
Proof.
  intros Ha Hc.
  destruct (lower_hex_digit a Ha) as (d1 & H1 & ->).
  destruct (lower_hex_digit c Hc) as (d2 & H2 & ->).
  exists (match Byte.of_N (16 * d1 + d2) with Some b => b | None => Byte.x00 end).
  change 16%N with (N.of_nat 16) in H1, H2.
  pose proof (N_below_cases _ d1 H1) as Hin1.
  pose proof (N_below_cases _ d2 H2) as Hin2.
  cbn in Hin1, Hin2.
  repeat (destruct Hin1 as [<-|Hin1];
          [repeat (destruct Hin2 as [<-|Hin2]; [reflexivity|]); destruct Hin2|]).
  destruct Hin1.
Qed.

(** A text of lowercase hexadecimal digits of even length is the text of a
    byte array. *)
Lemma lower_hex_bytes (n : nat) :
  forall s : string,
    String.length s = (2 * n)%nat -> Parse.all_lower_hex s = true ->
    exists bytes, Js.toHex bytes = s /\ List.length bytes = n.
Proof.
  induction n as [|n IH]; intros s Hlen Hall.
  - destruct s; [|discriminate Hlen]. exists []. split; reflexivity.
  - destruct s as [|a [|c s]]; try (cbn in Hlen; lia).
    cbn in Hall. apply andb_prop in Hall as [Ha Hall].
    apply andb_prop in Hall as [Hc Hall].
    destruct (IH s ltac:(cbn in Hlen; lia) Hall) as (bytes & Hbytes & Hn).
    destruct (lower_hex_pair a c Ha Hc) as (b & Hb).
    exists (b :: bytes). cbn [Js.toHex List.length].
    rewrite byte_toHex_digits, Hb, Hbytes, Hn. split; reflexivity.
Qed.

Lemma lower_hex_toLowerCase (s : string) :
  Parse.all_lower_hex s = true -> Js.toLowerCase s = s.
Proof.
  induction s as [|c s IH]; [reflexivity|].
  intros H. cbn in H. apply andb_prop in H as [Hc Hs].
  cbn [Js.toLowerCase]. rewrite (IH Hs). f_equal.
  destruct c as [[] [] [] [] [] [] [] []]; try reflexivity; discriminate Hc.
Qed.

Lemma lower_hex_strip_0x (s : string) :
  Parse.all_lower_hex s = true -> ApiScanner.strip_0x s = s.
Proof.
  destruct s as [|a [|c s]];
    [reflexivity|destruct a as [[] [] [] [] [] [] [] []]; reflexivity|].
  intros H. cbn in H. apply andb_prop in H as [_ H].
  apply andb_prop in H as [Hc _].
  destruct a as [[] [] [] [] [] [] [] []]; try reflexivity;
    destruct c as [[] [] [] [] [] [] [] []]; try reflexivity; discriminate Hc.
Qed.

(** [envHex] gives lowercase hexadecimal digits whenever its default does. *)
Lemma envHex_lower_hex (raw : option string) (def : string) :
  Parse.all_lower_hex (Js.toLowerCase def) = true ->
  Parse.all_lower_hex (Hex.envHex raw def) = true.
Proof.
  intros Hdef. unfold Hex.envHex. cbv zeta.
  destruct (Parse.all_lower_hex
              (ApiScanner.strip_0x (Js.toLowerCase (ApiScanner.nullish raw def))))
    eqn:H; [exact H|exact Hdef].
Qed.

End WalletSubaccount.

(** X3.  The sub-identity that [main] reads from [WALLET_SUBACCOUNT_HEX],
    whatever the environment holds: when it is an array, it has exactly 32
    elements, each the number of a byte (never [NaN]), and they are the bytes
    whose text is the 64 hexadecimal digits of the setting; it is [null]
    exactly when the setting (as [envHex] returns it) is of even length
    other than 64; and [hexToBytes] throws out of [main] exactly when that
    length is odd. *)
Theorem WALLET_SUBACCOUNT_cases (raw : option string) :
  let hex := Hex.WALLET_SUBACCOUNT_HEX raw in
  match Hex.WALLET_SUBACCOUNT raw with
  | Done (Some b) =>
      String.length hex = 64%nat /\
      exists bytes, List.length bytes = 32%nat /\
                    b = map Hex.number_of_byte bytes /\ Js.toHex bytes = hex
  | Done None => Nat.even (String.length hex) = true /\ String.length hex <> 64%nat
  | Thrown _ => Nat.even (String.length hex) = false
  end.
Proof.
  cbv zeta. unfold Hex.WALLET_SUBACCOUNT.
  pose proof (envHex_lower_hex raw "" eq_refl) as Hall.
  fold (Hex.WALLET_SUBACCOUNT_HEX raw) in Hall.
  set (hex := Hex.WALLET_SUBACCOUNT_HEX raw) in *.
  destruct (Nat.even (String.length hex)) eqn:Heven.
  - apply Nat.even_spec in Heven as Hk. destruct Hk as [k Hk].
    destruct (lower_hex_bytes k hex Hk Hall) as (bytes & Hbytes & Hlen).
    assert (Hread : Hex.hexToBytes hex = Done (map Hex.number_of_byte bytes)).
    { apply hexToBytes_of_toHex.
      now rewrite lower_hex_strip_0x, lower_hex_toLowerCase, Hbytes. }
    destruct hex as [|c hex'] eqn:Hhex; [split; [reflexivity|discriminate]|].
    rewrite Hread. cbn [bind]. rewrite length_map, Hlen.
    destruct (Nat.eqb_spec k 0) as [H0|H0]; [split; [reflexivity|lia]|].
    destruct (Nat.eqb_spec k 32) as [H32|H32]; cbn [negb].
    + split; [lia|]. exists bytes. repeat split; [lia|exact Hbytes].
    + split; [reflexivity|lia].
  - destruct (hexToBytes_parity hex) as (_ & Hodd).
    assert (Hthrow : exists e, Hex.hexToBytes hex = Thrown e).
    { apply Hodd. now rewrite lower_hex_strip_0x. }
    destruct Hthrow as [e He].
    destruct hex as [|c hex'] eqn:Hhex; [discriminate Heven|].
    rewrite He. reflexivity.
Qed.

(** ** The lines of the report file *)

Section CsvFacts.

Local Open Scope string_scope.

(** Inside quotes: the escaped text of [v], then the closing quote. *)
Lemma read_quoted (v : string) :
  forall (rest field : string) (record : list string) (records : list (list string)),
    Csv.read (Csv.double_quotes v ++ String Csv.quote rest) Csv.Quoted field record records
    = Csv.read rest Csv.QuoteSeen (field ++ v) record records.
Proof.
  induction v as [|c v IH]; intros rest field record records.
  - cbn. now rewrite append_empty_r.
  - cbn [Csv.double_quotes].
    destruct (Ascii.eqb_spec c Csv.quote) as [->|Hc].
    + cbn [append Csv.read]. rewrite Ascii.eqb_refl.
      rewrite IH, append_assoc. reflexivity.
    + cbn [append Csv.read].
      destruct (Ascii.eqb_spec c Csv.quote) as [Heq|_]; [contradiction|].
      rewrite IH, append_assoc. reflexivity.
Qed.

Lemma read_field (v rest : string) (record : list string)
      (records : list (list string)) :
  Csv.read (Csv.csvEscape v ++ rest) Csv.FieldStart "" record records
  = Csv.read rest Csv.QuoteSeen v record records.
Proof.
  unfold Csv.csvEscape. cbn [append]. rewrite append_assoc. cbn [append].
  cbn [Csv.read].
  change (Ascii.eqb Csv.quote Csv.comma) with false.
  change (Ascii.eqb Csv.quote Csv.newline) with false.
  rewrite Ascii.eqb_refl. cbv iota.
  now rewrite read_quoted.
Qed.

(** One line of escaped fields is read as these fields. *)
Lemma read_line (xs : list string) :
  forall (x rest : string) (record : list string) (records : list (list string)),
    Csv.read (Csv.join "," (map Csv.csvEscape (x :: xs)) ++ String Csv.newline rest)
             Csv.FieldStart "" record records
    = Csv.read rest Csv.FieldStart "" [] (records ++ [record ++ x :: xs])%list.
Proof.
  induction xs as [|y ys IH]; intros x rest record records.
  - cbn [map Csv.join]. rewrite read_field. reflexivity.
  - change (Csv.join "," (map Csv.csvEscape (x :: y :: ys)))
      with (Csv.csvEscape x ++ "," ++ Csv.join "," (map Csv.csvEscape (y :: ys))).
    rewrite !append_assoc. rewrite read_field.
    cbn [append Csv.read].
    change (Ascii.eqb "," Csv.quote) with false.
    change (Ascii.eqb "," Csv.comma) with true. cbv iota.
    rewrite IH. rewrite <- app_assoc. reflexivity.
Qed.

Lemma read_row_line (r : CsvRow) (rest : string) (records : list (list string)) :
  Csv.read (Csv.rowToCsvLine r ++ rest) Csv.FieldStart "" [] records
  = Csv.read rest Csv.FieldStart "" [] (records ++ [Csv.fields r])%list.
Proof.
  unfold Csv.rowToCsvLine. rewrite append_assoc.
  change (String Csv.newline "" ++ rest) with (String Csv.newline rest).
  exact (read_line _ _ rest [] records).
Qed.

Lemma read_lines (rows : list CsvRow) :
  forall records : list (list string),
    Csv.read (Csv.lines rows) Csv.FieldStart "" [] records
    = Some (records ++ map Csv.fields rows)%list.
Proof.
  induction rows as [|r rows IH]; intros records.
  - cbn. now rewrite app_nil_r.
  - cbn [Csv.lines fold_right map]. rewrite read_row_line.
    fold (Csv.lines rows). rewrite IH, <- app_assoc. reflexivity.
Qed.

Lemma row_of_fields_fields (r : CsvRow) : Csv.row_of_fields (Csv.fields r) = Some r.
Proof. destruct r as [d t dir a f to b m]. destruct dir; reflexivity. Qed.

Lemma lines_app (rows rows' : list CsvRow) :
  Csv.lines (rows ++ rows')%list = Csv.lines rows ++ Csv.lines rows'.
Proof.
  induction rows as [|r rows IH]; [reflexivity|].
  cbn [app Csv.lines fold_right]. fold (Csv.lines (rows ++ rows')).
  fold (Csv.lines rows). now rewrite IH, append_assoc.
Qed.

End CsvFacts.

(** X4.  The lines of the report can be read back.  Whatever characters the
    fields of the rows hold (commas, double quotes, line breaks), a reader of
    comma-separated text with quoted fields finds in the lines appended for
    [rows] exactly one record of eight fields per row, in order, and each
    record gives back the row it was written from; in particular two
    different rows never give the same line. *)
Theorem rowToCsvLine_round_trip (rows : list CsvRow) :
  Csv.read_csv (Csv.lines rows) = Some (map Csv.fields rows) /\
  map Csv.row_of_fields (map Csv.fields rows) = map Some rows /\
  (forall r r' : CsvRow, Csv.rowToCsvLine r = Csv.rowToCsvLine r' -> r = r').
Proof.
  split; [exact (read_lines rows [])|]. split.
  - rewrite map_map. apply map_ext. exact row_of_fields_fields.
  - intros r r' Heq.
    pose proof (read_lines [r] []) as H. pose proof (read_lines [r'] []) as H'.
    cbn [Csv.lines fold_right map app] in H, H'. rewrite Heq in H.
    rewrite H in H'.
    apply (f_equal (fun o : option (list (list string)) =>
                      match o with
                      | Some [x] => Csv.row_of_fields x
                      | _ => None
                      end)) in H'.
    cbv beta iota in H'. rewrite !row_of_fields_fields in H'.
    now injection H'.
Qed.

Lemma rowToCsvLine_round_trip_witness :
  Csv.read_csv (Csv.lines [Examples.quoted_row]) = Some [Csv.fields Examples.quoted_row] /\
  Examples.quoted_row = Examples.quoted_row.
Proof.
  destruct (rowToCsvLine_round_trip [Examples.quoted_row]) as (Hread & _ & Hinj).
  split; [exact Hread|].
  exact (Hinj Examples.quoted_row Examples.quoted_row eq_refl).
Defined.

Section ReportFile.

Local Open Scope string_scope.

Let appended (rows : list (bool * CsvRow)) : list CsvRow := map snd (filter fst rows).

Lemma appendRows_some (rows : list (bool * CsvRow)) :
  forall text : string,
    Csv.appendRows (Some text) rows = Some (text ++ Csv.lines (appended rows)).
Proof.
  unfold Csv.appendRows, appended.
  induction rows as [|[written r] rows IH]; intros text.
  - cbn. now rewrite append_empty_r.
  - destruct written; cbn [fold_left fst snd Csv.appendRow filter].
    + rewrite IH. cbn [map snd Csv.lines fold_right].
      now rewrite append_assoc.
    + apply IH.
Qed.

Lemma read_header (rest : string) :
  Csv.read ((Csv.join "," Csv.CSV_HEADER ++ String Csv.newline "") ++ rest)
           Csv.FieldStart "" [] []
  = Csv.read rest Csv.FieldStart "" [] [Csv.CSV_HEADER].
Proof. reflexivity. Qed.

End ReportFile.

(** X5.  The report file is only ever extended.  A report that exists and is
    not empty keeps its text, and the lines of the rows whose append succeeded
    are added behind it, in the order of the appends.  A report that is
    missing or empty gets the header line first; read back, it holds the
    header record followed by one record per appended row. *)
Theorem report_file_contents (file : Csv.File) (header_written : bool)
        (rows : list (bool * CsvRow)) :
  let appended := map snd (filter fst rows) in
  let final := Csv.appendRows (Csv.ensureCsvHeader header_written file) rows in
  (forall text : string,
      file = Some text -> text <> ""%string ->
      final = Some (text ++ Csv.lines appended)%string) /\
  (file = None \/ file = Some ""%string -> header_written = true ->
   exists text : string,
     final = Some text /\
     Csv.read_csv text = Some (Csv.CSV_HEADER :: map Csv.fields appended)).
Proof.
  cbv zeta. split.
  - intros text -> Hne. destruct text as [|c text]; [contradiction|].
    cbn [Csv.ensureCsvHeader]. apply appendRows_some.
  - intros Hfile ->.
    assert (Hinit : Csv.ensureCsvHeader true file
                    = Some (Csv.join "," Csv.CSV_HEADER ++ String Csv.newline "")%string)
      by (destruct Hfile as [->| ->]; reflexivity).
    rewrite Hinit, appendRows_some. eexists. split; [reflexivity|].
    unfold Csv.read_csv. rewrite read_header. apply read_lines.
Qed.

Lemma report_file_contents_witness :
  Csv.appendRows (Csv.ensureCsvHeader true (Some "old"%string))
                 [(true, Examples.quoted_row); (false, Examples.inflow_row)]
  = Some ("old" ++ Csv.lines [Examples.quoted_row])%string /\
  exists text : string,
    Csv.appendRows (Csv.ensureCsvHeader true None)
                   [(true, Examples.quoted_row); (false, Examples.inflow_row)]
    = Some text /\
    Csv.read_csv text = Some [Csv.CSV_HEADER; Csv.fields Examples.quoted_row].
Proof.
  split.
  - destruct (report_file_contents (Some "old"%string) true
                [(true, Examples.quoted_row); (false, Examples.inflow_row)])
      as (Hkeep & _).
    apply (Hkeep "old"%string eq_refl). discriminate.
  - destruct (report_file_contents None true
                [(true, Examples.quoted_row); (false, Examples.inflow_row)])
      as (_ & Hnew).
    exact (Hnew (or_introl eq_refl) eq_refl).
Defined.

(** ** The flow retriever: signed amounts and the totals of the summary *)

Section SignedAmounts.

Local Open Scope string_scope.

Lemma slice_tail (c : ascii) (r : string) : Js.slice (String c r) 1 None = r.
Proof.
  unfold Js.slice. cbv zeta. cbn [String.length].
  change (1 <? 0)%Z with false. cbv iota.
  rewrite Z.min_l by lia.
  replace (Z.to_nat (Z.of_nat (S (String.length r)) - 1)) with (String.length r) by lia.
  cbn [Z.to_nat Pos.to_nat Pos.iter_op Nat.add Js.drop].
  apply take_all. lia.
Qed.

(** The retriever's [formatAmount] writes the sign in front of the text of
    the magnitude. *)
Lemma rosetta_formatAmount_minus (digits : string) (decimals : Z) :
  Parse.all_digits digits = true ->
  Rosetta.formatAmount (String "-" digits) decimals
  = String "-" (Rosetta.formatAmount digits decimals).
Proof.
  intros Hd. unfold Rosetta.formatAmount. cbv zeta.
  rewrite (digits_not_minus digits Hd).
  change (Js.startsWith_minus (String "-" digits)) with true. cbv iota.
  rewrite slice_tail. reflexivity.
Qed.

Lemma parseDecimal_not_minus (text : string) (d n : N) :
  Parse.parseDecimal text d = Some n -> Js.startsWith_minus text = false.
Proof.
  destruct text as [|c text]; [reflexivity|].
  destruct (Ascii.eqb_spec c "-") as [->|Hc].
  - unfold Parse.parseDecimal. cbn [Parse.split_point].
    destruct (Parse.split_point text) as [w f]. cbn. discriminate.
  - intros _. cbn.
    destruct c as [[] [] [] [] [] [] [] []]; try reflexivity. contradiction.
Qed.

End SignedAmounts.

(** X6.  The retriever's [formatAmount] on a signed integer, as [main] calls
    it for a net flow: for every integer [v], negative or not, and every
    number of decimals [d >= 1], the text is an optional minus sign followed
    by the text of the magnitude, and it reads back as [v]. *)
Theorem rosetta_formatAmount_signed (v decimals : Z) :
  1 <= decimals ->
  Flow.parseSignedDecimal (Rosetta.formatAmount (Js.Z_toString 10 v) decimals)
                          (Z.to_N decimals)
  = Some v.
Proof.
  intros Hd. unfold Flow.parseSignedDecimal.
  destruct (Z.ltb_spec v 0) as [Hneg|Hpos].
  - assert (Htext : Js.Z_toString 10 v = String "-" (Js.Z_toString 10 (- v))).
    { unfold Js.Z_toString.
      destruct (Z.ltb_spec v 0); [|lia]. destruct (Z.ltb_spec (- v) 0); [lia|].
      reflexivity. }
    destruct (Z_toString_decimal (- v) ltac:(lia)) as [Hall _].
    rewrite Htext, rosetta_formatAmount_minus by exact Hall.
    rewrite rosetta_formatAmount_round_trip by lia.
    cbn [option_map]. f_equal. lia.
  - pose proof (rosetta_formatAmount_round_trip v decimals Hpos Hd) as Hread.
    pose proof (parseDecimal_not_minus _ _ _ Hread) as Hminus.
    destruct (Rosetta.formatAmount (Js.Z_toString 10 v) decimals) as [|c text].
    + rewrite Hread. cbn [option_map]. f_equal. lia.
    + destruct (Ascii.eqb_spec c "-") as [->|Hc]; [discriminate Hminus|].
      assert (Hgoal : option_map Z.of_N (Parse.parseDecimal (String c text)
                                                            (Z.to_N decimals))
                      = Some v)
        by (rewrite Hread; cbn [option_map]; f_equal; lia).
      destruct c as [[] [] [] [] [] [] [] []]; try exact Hgoal. contradiction.
Qed.

Lemma rosetta_formatAmount_signed_witness :
  Flow.parseSignedDecimal (Rosetta.formatAmount (Js.Z_toString 10 (-150000000)) 8) 8
  = Some (-150000000).
Proof. apply (rosetta_formatAmount_signed (-150000000) 8). lia. Defined.

Section SummaryTotals.

Local Open Scope string_scope.

Let value := Parse.decimal_value 0.

(** The two parts that the retriever's [formatAmount] joins. *)
Lemma rosetta_formatAmount_shape (raw : string) (decimals : Z) :
  Parse.all_digits raw = true -> 1 <= decimals ->
  exists whole frac : string,
    Parse.all_digits whole = true /\ (1 <= String.length whole)%nat /\
    Parse.all_digits frac = true /\ String.length frac = Z.to_nat decimals /\
    (value whole * 10 ^ Z.to_N decimals + value frac = value raw)%N /\
    Rosetta.formatAmount raw decimals
    = match Js.strip_trailing_zeros frac with
      | EmptyString => whole
      | String c t => whole ++ "." ++ String c t
      end.
Proof.
  intros Hraw Hd. unfold Rosetta.formatAmount. cbv zeta.
  rewrite (digits_not_minus raw Hraw).
  unfold Js.padStart.
  set (k := Z.to_nat (decimals + 1 - Z.of_nat (String.length raw))).
  set (p := Js.repeat_char "0" k ++ raw).
  assert (Hlen : decimals < Z.of_nat (String.length p)).
  { unfold p. rewrite length_append, length_repeat_char. unfold k. lia. }
  assert (Hp : Parse.all_digits p = true).
  { unfold p, Parse.all_digits in *. rewrite all_chars_append, Hraw.
    rewrite all_chars_repeat by reflexivity. reflexivity. }
  assert (Hpv : value p = value raw).
  { unfold p, value, Parse.decimal_value. rewrite radix_value_append.
    rewrite repeat_zero_value by (reflexivity || lia). reflexivity. }
  rewrite slice_front, slice_back by lia.
  set (n := (String.length p - Z.to_nat decimals)%nat).
  pose proof (take_drop n p) as Hsplit.
  assert (Hlt : String.length (Js.take n p) = n)
    by (rewrite length_take; unfold n; lia).
  assert (Hld : String.length (Js.drop n p) = Z.to_nat decimals)
    by (rewrite length_drop; unfold n; lia).
  assert (Hall : Parse.all_digits (Js.take n p) = true
                 /\ Parse.all_digits (Js.drop n p) = true).
  { rewrite <- Hsplit in Hp. unfold Parse.all_digits in *.
    rewrite all_chars_append in Hp. apply andb_prop in Hp. exact Hp. }
  assert (Hor : Js.or_else (Js.take n p) "0" = Js.take n p).
  { destruct (Js.take n p); [cbn in Hlt; unfold n in Hlt; lia|reflexivity]. }
  rewrite Hor.
  exists (Js.take n p), (Js.drop n p).
  split; [tauto|]. split; [unfold n in *; lia|]. split; [tauto|].
  split; [exact Hld|].
  split; [|destruct (Js.strip_trailing_zeros (Js.drop n p)); reflexivity].
  rewrite <- Hpv. rewrite <- Hsplit at 3.
  unfold value, Parse.decimal_value.
  rewrite radix_value_append.
  rewrite (radix_value_shift 10 Parse.digit_value ltac:(lia)
             (Parse.radix_value 10 Parse.digit_value 0 (Js.take n p))
             (Js.drop n p)).
  rewrite Hld. f_equal. f_equal. lia.
Qed.

Lemma remove_first_point_digits (w : string) :
  Parse.all_digits w = true -> Flow.remove_first_point w = w.
Proof.
  induction w as [|c w IH]; [reflexivity|].
  intros H. cbn in H. apply andb_prop in H as [Hc Hw].
  cbn [Flow.remove_first_point]. rewrite (IH Hw).
  destruct c as [[] [] [] [] [] [] [] []]; try reflexivity; discriminate Hc.
Qed.

Lemma remove_first_point_fraction (w f : string) :
  Parse.all_digits w = true -> Flow.remove_first_point (w ++ String "." f) = w ++ f.
Proof.
  induction w as [|c w IH]; [reflexivity|].
  intros H. cbn in H. apply andb_prop in H as [Hc Hw].
  cbn [append Flow.remove_first_point]. rewrite (IH Hw).
  destruct c as [[] [] [] [] [] [] [] []]; try reflexivity; discriminate Hc.
Qed.

Lemma digits_value_decimal (s : string) :
  forall acc : Z,
    0 <= acc -> Parse.all_digits s = true ->
    Flow.digits_value 10 s acc
    = Some (Z.of_N (Parse.decimal_value (Z.to_N acc) s)).
Proof.
  induction s as [|c s IH]; intros acc Hacc Hall.
  - cbn. f_equal. lia.
  - cbn in Hall. apply andb_prop in Hall as [Hc Hs].
    unfold Parse.decimal_value. cbn [Flow.digits_value Parse.radix_value].
    assert (Hdigit : Flow.digit_of c = Some (Z.of_N (Parse.digit_value c))
                     /\ (Parse.digit_value c < 10)%N).
    { destruct c as [[] [] [] [] [] [] [] []]; try discriminate Hc;
        (split; [reflexivity|reflexivity]). }
    destruct Hdigit as [-> Hlt].
    destruct (Z.ltb_spec (Z.of_N (Parse.digit_value c)) 10); [|lia].
    rewrite IH by (lia || exact Hs).
    unfold Parse.decimal_value. do 3 f_equal. lia.
Qed.

Lemma trim_start_digits (s : string) :
  Parse.all_digits s = true -> Hex.trim_start s = s.
Proof.
  destruct s as [|c s]; [reflexivity|].
  intros H. cbn in H. apply andb_prop in H as [Hc _]. cbn [Hex.trim_start].
  destruct c as [[] [] [] [] [] [] [] []]; try reflexivity; discriminate Hc.
Qed.

Lemma trim_end_digits (s : string) :
  Parse.all_digits s = true -> Flow.trim_end s = s.
Proof.
  induction s as [|c s IH]; [reflexivity|].
  intros H. cbn in H. apply andb_prop in H as [Hc Hs].
  cbn [Flow.trim_end]. rewrite (IH Hs).
  destruct s as [|c' s]; [|reflexivity].
  destruct c as [[] [] [] [] [] [] [] []]; try reflexivity; discriminate Hc.
Qed.

(** [BigInt] of a non-empty text of decimal digits. *)
Lemma StringToBigInt_digits (s : string) :
  Parse.all_digits s = true -> (1 <= String.length s)%nat ->
  Flow.StringToBigInt s = Some (Z.of_N (value s)).
Proof.
  intros Hall Hlen. unfold Flow.StringToBigInt. cbv zeta.
  rewrite trim_start_digits, trim_end_digits by assumption.
  pose proof (digits_value_decimal s 0 ltac:(lia) Hall) as Hv.
  change (Z.to_N 0) with 0%N in Hv. fold value in Hv.
  destruct s as [|c s]; [cbn in Hlen; lia|].
  assert (Hmain : Flow.nonempty_digits 10 (String c s) = Some (Z.of_N (value (String c s))))
    by exact Hv.
  cbn in Hall. apply andb_prop in Hall as [Hc Hs].
  destruct c as [[] [] [] [] [] [] [] []]; try discriminate Hc; try exact Hmain.
  destruct s as [|c' s]; [exact Hmain|].
  cbn in Hs. apply andb_prop in Hs as [Hc' _].
  destruct c' as [[] [] [] [] [] [] [] []]; try discriminate Hc'; exact Hmain.
Qed.

(** What is left of a text of digits once its final zeros are removed does
    not end in a zero. *)
Lemma strip_trailing_zeros_last (s : string) :
  Parse.all_digits s = true ->
  Js.strip_trailing_zeros s <> "" ->
  (value (Js.strip_trailing_zeros s) mod 10 <> 0)%N.
Proof.
  induction s as [|c s IH]; [intros _ H; now elim H|].
  intros Hall Hne. cbn in Hall. apply andb_prop in Hall as [Hc Hs].
  cbn [Js.strip_trailing_zeros] in *.
  destruct (Js.strip_trailing_zeros s) as [|c' r] eqn:Hr.
  - destruct (Ascii.eqb_spec c "0") as [->|Hc0]; [now elim Hne|].
    destruct c as [[] [] [] [] [] [] [] []]; try discriminate Hc;
      try (vm_compute; discriminate).
    now elim Hc0.
  - specialize (IH Hs ltac:(discriminate)).
    unfold value, Parse.decimal_value in *.
    change (Parse.radix_value 10 Parse.digit_value 0 (String c (String c' r)))
      with (Parse.radix_value 10 Parse.digit_value (10 * 0 + Parse.digit_value c)%N
                              (String c' r)).
    rewrite (radix_value_shift 10 Parse.digit_value ltac:(lia)
               (10 * 0 + Parse.digit_value c)%N (String c' r)).
    cbn [String.length]. rewrite Nat2N.inj_succ, N.pow_succ_r by lia.
    replace ((10 * 0 + Parse.digit_value c) * (10 * 10 ^ N.of_nat (String.length r))
             + Parse.radix_value 10 Parse.digit_value 0 (String c' r))%N
      with (Parse.radix_value 10 Parse.digit_value 0 (String c' r)
            + (Parse.digit_value c * 10 ^ N.of_nat (String.length r)) * 10)%N by lia.
    rewrite N.Div0.mod_add. exact IH.
Qed.

End SummaryTotals.

Lemma total_arith (p t k : Z) :
  0 <= p -> 0 <= k -> t = p * 10 ^ k -> (k = 0 -> t mod 10 <> 0) ->
  (p = t <-> t = 0 \/ t mod 10 <> 0).
Proof.
  intros Hp Hk Ht Hlast.
  destruct (Z.eq_dec k 0) as [->|Hne].
  - rewrite Z.pow_0_r, Z.mul_1_r in Ht. subst t. split; [right; now apply Hlast|reflexivity].
  - assert (Hpow : 10 ^ k = 10 * 10 ^ (k - 1)).
    { replace k with (1 + (k - 1)) at 1 by lia. rewrite Z.pow_add_r by lia. reflexivity. }
    assert (Hpos : 0 < 10 ^ (k - 1)) by (apply Z.pow_pos_nonneg; lia).
    assert (Hmod : t mod 10 = 0).
    { rewrite Ht, Hpow.
      replace (p * (10 * 10 ^ (k - 1))) with (p * 10 ^ (k - 1) * 10) by lia.
      apply Z.mod_mul. lia. }
    split.
    + intros Heq. left. rewrite Hpow in Ht. nia.
    + intros [H0|Hlast']; [|contradiction]. rewrite Hpow in Ht. nia.
Qed.

(** X7.  [main] keeps the totals of an asset as formatted texts and reads
    the current total back with [BigInt(text.replace(".", ""))].  The
    formatted text has lost the zeros at the end of the fraction, so for a
    total of [t >= 0] base units and [d >= 1] decimals the integer read back
    is [t] divided by a power of ten, [t = p * 10^k] with [0 <= k <= d]; it
    is [t] itself exactly when [t] is 0 or does not end in the digit 0. *)
Theorem summary_total_parse_back (t decimals : Z) :
  0 <= t -> 1 <= decimals ->
  exists p : Z,
    Flow.current_total (Rosetta.formatAmount (Js.Z_toString 10 t) decimals) = Done p /\
    (exists k : Z, 0 <= k <= decimals /\ t = p * 10 ^ k) /\
    (p = t <-> t = 0 \/ t mod 10 <> 0).
Proof.
  intros Ht Hd.
  destruct (Z_toString_decimal t Ht) as [Hall Hval].
  destruct (rosetta_formatAmount_shape _ decimals Hall Hd)
    as (whole & frac & Hw & Hwl & Hf & Hfl & Hsum & Hshape).
  rewrite Hval in Hsum.
  pose proof (strip_trailing_zeros_value frac) as Hstrip.
  pose proof (strip_trailing_zeros_length frac) as Hlen.
  pose proof (strip_trailing_zeros_digits frac Hf) as Hdig.
  pose proof (strip_trailing_zeros_last frac Hf) as Hlast.
  unfold Flow.current_total, Flow.BigInt_of_string. rewrite Hshape.
  set (A := Z.of_N (Parse.decimal_value 0 whole)).
  set (B := Z.of_N (Parse.decimal_value 0 (Js.strip_trailing_zeros frac))).
  set (L := Z.of_nat (String.length (Js.strip_trailing_zeros frac))).
  assert (HL : 0 <= L <= decimals) by (unfold L; lia).
  assert (Htotal : t = (A * 10 ^ L + B) * 10 ^ (decimals - L)).
  { rewrite Hstrip in Hsum.
    apply (f_equal Z.of_N) in Hsum.
    rewrite N2Z.inj_add, !N2Z.inj_mul, !N2Z.inj_pow in Hsum.
    rewrite Z2N.id in Hsum by lia. rewrite Z2N.id in Hsum by lia.
    fold A B in Hsum. change (Z.of_N 10) with 10 in Hsum. rewrite <- Hsum.
    replace (Z.of_N (N.of_nat (String.length frac
                               - String.length (Js.strip_trailing_zeros frac))))
      with (decimals - L) by (unfold L; lia).
    replace (10 ^ decimals) with (10 ^ L * 10 ^ (decimals - L))
      by (rewrite <- Z.pow_add_r by lia; f_equal; lia).
    ring. }
  assert (HA : 0 <= A) by (unfold A; lia).
  assert (HB : 0 <= B) by (unfold B; lia).
  assert (Hp : 0 <= A * 10 ^ L + B).
  { pose proof (Z.pow_nonneg 10 L ltac:(lia)). nia. }
  assert (Hread : exists text,
             match Js.strip_trailing_zeros frac with
             | EmptyString => whole
             | String c r => (whole ++ "." ++ String c r)%string
             end = text /\
             Flow.StringToBigInt (Flow.remove_first_point text)
             = Some (A * 10 ^ L + B)).
  { eexists. split; [reflexivity|].
    destruct (Js.strip_trailing_zeros frac) as [|c r] eqn:Htr.
    - rewrite remove_first_point_digits, StringToBigInt_digits by assumption.
      f_equal. unfold A, B, L. cbn. lia.
    - change (whole ++ "." ++ String c r)%string
        with (whole ++ String "." (String c r))%string.
      rewrite remove_first_point_fraction by assumption.
      rewrite StringToBigInt_digits.
      + f_equal. unfold Parse.decimal_value. rewrite radix_value_append.
        rewrite (radix_value_shift 10 Parse.digit_value ltac:(lia)
                   (Parse.radix_value 10 Parse.digit_value 0 whole) (String c r)).
        rewrite N2Z.inj_add, N2Z.inj_mul, N2Z.inj_pow.
        unfold A, B, L, Parse.decimal_value. rewrite nat_N_Z. reflexivity.
      + unfold Parse.all_digits in *. now rewrite all_chars_append, Hw, Hdig.
      + rewrite length_append. lia. }
  destruct Hread as (text & -> & ->).
  exists (A * 10 ^ L + B). split; [reflexivity|]. split.
  - exists (decimals - L). split; [lia|exact Htotal].
  - apply (total_arith _ t (decimals - L) Hp ltac:(lia) Htotal).
    intros Hk. assert (HLd : L = decimals) by lia.
    assert (Hne : Js.strip_trailing_zeros frac <> ""%string).
    { intros Hempty. unfold L in HLd. rewrite Hempty in HLd. cbn in HLd. lia. }
    specialize (Hlast Hne).
    rewrite Htotal, Hk, Z.pow_0_r, Z.mul_1_r.
    replace (10 ^ L) with (10 ^ (L - 1) * 10)
      by (rewrite <- (Z.pow_1_r 10) at 2; rewrite <- Z.pow_add_r by lia; f_equal; lia).
    rewrite Z.mul_assoc, Z.add_comm, Z.mod_add by lia.
    unfold B. intros Hzero. apply Hlast.
    apply N2Z.inj. rewrite N2Z.inj_mod. exact Hzero.
Qed.

Lemma summary_total_parse_back_witness :
  exists p : Z,
    Flow.current_total (Rosetta.formatAmount (Js.Z_toString 10 150000000) 8) = Done p /\
    (exists k : Z, 0 <= k <= 8 /\ 150000000 = p * 10 ^ k) /\
    (p = 150000000 <-> 150000000 = 0 \/ 150000000 mod 10 <> 0).
Proof. apply (summary_total_parse_back 150000000 8); lia. Defined.

(** The totals of two flows that receive 1.5 and 0.00000001: the summary
    shows 0.00000016. *)
Example summary_total_run :
  Rosetta.formatAmount (Js.Z_toString 10 150000000) 8 = "1.5"%string /\
  Flow.current_total "1.5" = Done 15 /\
  Flow.summary_total 8 "0" [150000000; 1] = Done "0.00000016"%string /\
  Rosetta.formatAmount (Js.Z_toString 10 (150000000 + 1)) 8 = "1.50000001"%string.
Proof. vm_compute. repeat split. Qed.

(** ** The flow retriever: [analyzeTransactionFlow] *)

Section AnalyzeFlow.

Variables address principal : string.
Variable decimals : Z.

Let received (l : list Z) : Z := Flow.sum (filter (fun a => 0 <? a) l).
Let sent (l : list Z) : Z := Flow.sum (map Z.opp (filter (fun a => a <=? 0) l)).

(** The amounts that one operation contributes. *)
Let op_amounts (op : Flow.Operation) : list Z :=
  if Flow.counted address principal op then
    match Flow.op_amount op with
    | Some value =>
        match Flow.StringToBigInt value with
        | Some z => [z]
        | None => []
        end
    | None => []
    end
  else [].

Let known (l : list Flow.TxData) : list Flow.TxData :=
  filter (fun d => negb (String.eqb (Flow.counterparty d) "unknown")) l.

Let total (f : Flow.Stats -> Z) (m : list (string * Flow.Stats)) : Z :=
  Flow.sum (map (fun entry => f (snd entry)) m).

Lemma sum_app (l1 l2 : list Z) : Flow.sum (l1 ++ l2) = Flow.sum l1 + Flow.sum l2.
Proof. unfold Flow.sum. induction l1 as [|a l1 IH]; cbn [app fold_right]; lia. Qed.

Lemma received_app (l1 l2 : list Z) : received (l1 ++ l2) = received l1 + received l2.
Proof. unfold received. now rewrite filter_app, sum_app. Qed.

Lemma sent_app (l1 l2 : list Z) : sent (l1 ++ l2) = sent l1 + sent l2.
Proof. unfold sent. now rewrite filter_app, map_app, sum_app. Qed.

Lemma received_sent_sum (l : list Z) :
  received l - sent l = Flow.sum l /\ 0 <= received l /\ 0 <= sent l.
Proof.
  unfold received, sent, Flow.sum. induction l as [|a l IH]; [cbn; lia|].
  cbn [filter]. destruct (Z.ltb_spec 0 a); destruct (Z.leb_spec a 0); try lia;
    cbn [map fold_right] in *; lia.
Qed.

(** [set] after [get] changes the total of a field by the difference of the
    old and the new value; a missing key counts as zero. *)
Lemma total_map_set (f : Flow.Stats -> Z) (key : string) (value : Flow.Stats)
      (m : list (string * Flow.Stats)) :
  f (Flow.mkStats 0 0 0) = 0 ->
  total f (Flow.map_set key value m)
  = total f m + f value
    - f (match Flow.map_get key m with Some s => s | None => Flow.mkStats 0 0 0 end).
Proof.
  intros Hzero. unfold total, Flow.map_get, Flow.sum.
  induction m as [|[k v] m IH].
  - cbn. rewrite Hzero. lia.
  - cbn [Flow.map_set find fst snd].
    destruct (String.eqb k key).
    + cbn. lia.
    + cbn [map fold_right snd] in *. rewrite IH. lia.
Qed.

Lemma keys_map_set (key : string) (value : Flow.Stats) (m : list (string * Flow.Stats)) :
  forall k, In k (map fst (Flow.map_set key value m)) <-> k = key \/ In k (map fst m).
Proof.
  intros k. induction m as [|[k' v] m IH].
  - cbn. intuition.
  - cbn [Flow.map_set]. destruct (String.eqb_spec k' key) as [->|Hne].
    + cbn. intuition.
    + cbn [map fst In]. rewrite IH. intuition.
Qed.

Lemma NoDup_map_set (key : string) (value : Flow.Stats) (m : list (string * Flow.Stats)) :
  NoDup (map fst m) -> NoDup (map fst (Flow.map_set key value m)).
Proof.
  induction m as [|[k v] m IH]; intros Hnd.
  - cbn. constructor; [intros []|constructor].
  - cbn [Flow.map_set]. inversion Hnd as [|? ? Hnotin Hrest]; subst.
    destruct (String.eqb_spec k key) as [->|Hne].
    + cbn. constructor; assumption.
    + cbn [map fst]. constructor; [|now apply IH].
      rewrite keys_map_set. intros [Heq|Hin]; [now apply Hne|contradiction].
Qed.

(** [flow'] is [flow] with the amounts [amts] counted in; the last five
    parts say that what holds of the map of counterparties is kept. *)
Let extends (flow flow' : Flow.TransactionFlow) (amts : list Z) : Prop :=
  Flow.totalReceived flow' = Flow.totalReceived flow + received amts /\
  Flow.totalSent flow' = Flow.totalSent flow + sent amts /\
  Z.of_nat (List.length (Flow.transactions flow'))
  = Z.of_nat (List.length (Flow.transactions flow)) + Z.of_nat (List.length amts) /\
  (total Flow.stats_totalReceived (Flow.counterparties flow)
   <= Flow.totalReceived flow ->
   total Flow.stats_totalReceived (Flow.counterparties flow')
   <= Flow.totalReceived flow') /\
  (total Flow.stats_totalSent (Flow.counterparties flow) <= Flow.totalSent flow ->
   total Flow.stats_totalSent (Flow.counterparties flow') <= Flow.totalSent flow') /\
  (total Flow.transactionCount (Flow.counterparties flow)
   = Z.of_nat (List.length (known (Flow.transactions flow))) ->
   total Flow.transactionCount (Flow.counterparties flow')
   = Z.of_nat (List.length (known (Flow.transactions flow')))) /\
  (NoDup (map fst (Flow.counterparties flow)) ->
   NoDup (map fst (Flow.counterparties flow'))) /\
  (~ In "unknown"%string (map fst (Flow.counterparties flow)) ->
   ~ In "unknown"%string (map fst (Flow.counterparties flow'))).

Lemma extends_refl (flow : Flow.TransactionFlow) : extends flow flow [].
Proof. unfold extends. cbn. repeat split; try lia; tauto. Qed.

Lemma extends_trans (flow1 flow2 flow3 : Flow.TransactionFlow) (a b : list Z) :
  extends flow1 flow2 a -> extends flow2 flow3 b -> extends flow1 flow3 (a ++ b).
Proof.
  unfold extends. intros (R1 & S1 & L1 & IR1 & IS1 & IC1 & N1 & U1)
                         (R2 & S2 & L2 & IR2 & IS2 & IC2 & N2 & U2).
  rewrite received_app, sent_app, length_app.
  repeat split; try lia; tauto.
Qed.

(** What one operation adds to the flow. *)
Lemma analyze_operation_step (tx : Flow.RosettaTransaction) (op : Flow.Operation)
      (flow flow' : Flow.TransactionFlow) :
  Flow.analyze_operation address principal decimals tx op flow = Done flow' ->
  extends flow flow' (op_amounts op).
Proof.
  unfold extends, Flow.analyze_operation, op_amounts, Flow.counted.
  destruct (Flow.op_amount op) as [value|];
    [|intros [= <-]; cbn; repeat split; try lia; tauto].
  destruct (String.eqb (Flow.op_type op) "FEE");
    [intros [= <-]; cbn; repeat split; try lia; tauto|].
  destruct (Flow.isOurAddress address principal op);
    [|intros [= <-]; cbn; repeat split; try lia; tauto].
  cbn [negb andb]. unfold Flow.BigInt_of_string.
  destruct (Flow.StringToBigInt value) as [amount|]; [|discriminate].
  cbn [bind].
  destruct (Flow.find_counterparty address principal op (Flow.operations tx))
    as [counterparty sub].
  intros [= <-]. cbn [Flow.totalReceived Flow.totalSent Flow.transactions
                      Flow.counterparties].
  unfold received, sent, known. cbn [filter]. rewrite length_app, filter_app, length_app.
  cbn [filter Flow.counterparty List.length].
  destruct (String.eqb_spec counterparty "unknown") as [->|Hknown]; cbn [negb].
  - destruct (Z.ltb_spec 0 amount); destruct (Z.leb_spec amount 0); try lia;
      destruct (Z.ltb_spec amount 0); try lia;
      cbn [map Flow.sum fold_right List.length]; repeat split; try lia; tauto.
  - assert (Hkeys : forall v,
               ~ In "unknown"%string (map fst (Flow.counterparties flow)) ->
               ~ In "unknown"%string
                   (map fst (Flow.map_set counterparty v (Flow.counterparties flow)))).
    { intros v Hnot Hin. apply keys_map_set in Hin as [Heq|Hin];
        [now apply Hknown|now apply Hnot]. }
    destruct (Z.ltb_spec 0 amount); destruct (Z.leb_spec amount 0); try lia;
      destruct (Z.ltb_spec amount 0); try lia;
      cbn [map Flow.sum fold_right List.length];
      rewrite !total_map_set by reflexivity;
      cbn [Flow.stats_totalReceived Flow.stats_totalSent Flow.transactionCount];
      repeat split; try lia; try (apply NoDup_map_set); try (apply Hkeys).
Qed.

Lemma analyze_operations_steps (tx : Flow.RosettaTransaction) (ops : list Flow.Operation) :
  forall flow flow' : Flow.TransactionFlow,
    Flow.analyze_operations address principal decimals tx ops flow = Done flow' ->
    extends flow flow' (flat_map op_amounts ops).
Proof.
  induction ops as [|op ops IH]; intros flow flow' H.
  - injection H as <-. apply extends_refl.
  - cbn [Flow.analyze_operations] in H.
    destruct (Flow.analyze_operation address principal decimals tx op flow)
      as [flow1|e] eqn:Hop; [|discriminate H].
    cbn [bind] in H. cbn [flat_map].
    exact (extends_trans _ _ _ _ _ (analyze_operation_step tx op flow flow1 Hop)
                         (IH flow1 flow' H)).
Qed.

Lemma analyze_transactions_steps (txs : list Flow.RosettaTransaction) :
  forall flow flow' : Flow.TransactionFlow,
    Flow.analyze_transactions address principal decimals txs flow = Done flow' ->
    extends flow flow' (Flow.counted_amounts address principal txs).
Proof.
  induction txs as [|tx txs IH]; intros flow flow' H.
  - injection H as <-. apply extends_refl.
  - cbn [Flow.analyze_transactions] in H.
    destruct (Flow.analyze_operations address principal decimals tx
                                      (Flow.operations tx) flow)
      as [flow1|e] eqn:Hops; [|discriminate H].
    cbn [bind] in H.
    change (Flow.counted_amounts address principal (tx :: txs))
      with (flat_map op_amounts (Flow.operations tx)
            ++ Flow.counted_amounts address principal txs).
    exact (extends_trans _ _ _ _ _ (analyze_operations_steps tx _ flow flow1 Hops)
                         (IH flow1 flow' H)).
Qed.

(** The flow that [analyzeTransactionFlow] returns. *)
Lemma analyzeTransactionFlow_spec (txs : list Flow.RosettaTransaction)
      (flow : Flow.TransactionFlow) :
  Flow.analyzeTransactionFlow address principal decimals txs = Done flow ->
  let amounts := Flow.counted_amounts address principal txs in
  Flow.totalReceived flow = received amounts /\
  Flow.totalSent flow = sent amounts /\
  Flow.netBalance flow = Flow.sum amounts /\
  List.length (Flow.transactions flow) = List.length amounts /\
  total Flow.stats_totalReceived (Flow.counterparties flow) <= Flow.totalReceived flow /\
  total Flow.stats_totalSent (Flow.counterparties flow) <= Flow.totalSent flow /\
  total Flow.transactionCount (Flow.counterparties flow)
  = Z.of_nat (List.length (known (Flow.transactions flow))) /\
  NoDup (map fst (Flow.counterparties flow)) /\
  ~ In "unknown"%string (map fst (Flow.counterparties flow)).
Proof.
  unfold Flow.analyzeTransactionFlow.
  destruct (Flow.analyze_transactions address principal decimals txs
                                      (Flow.mkFlow [] 0 0 0 []))
    as [flow1|e] eqn:Hrun; [|discriminate].
  cbn [bind]. intros [= <-]. cbv zeta.
  cbn [Flow.totalReceived Flow.totalSent Flow.netBalance Flow.transactions
       Flow.counterparties].
  destruct (analyze_transactions_steps txs _ _ Hrun)
    as (HR & HS & HL & IR & IS & IC & IN & IU).
  cbn [Flow.totalReceived Flow.totalSent Flow.transactions Flow.counterparties
       List.length] in *.
  destruct (received_sent_sum (Flow.counted_amounts address principal txs))
    as (Hnet & _ & _).
  repeat split; try lia.
  - apply IR. cbn. lia.
  - apply IS. cbn. lia.
  - apply IC. reflexivity.
  - apply IN. constructor.
  - apply IU. intros [].
Qed.





End AnalyzeFlow.



(** X9.  The counterparties of [analyzeTransactionFlow].  In the flow it
    returns, no address occurs twice among the counterparties and the
    placeholder "unknown" is none of them; the amounts received from and sent
    to the counterparties add up to at most the totals of the flow; and their
    transaction counts add up to the number of listed transactions whose
    counterparty is known. *)
Theorem analyzeTransactionFlow_counterparties (address principal : string)
        (decimals : Z) (txs : list Flow.RosettaTransaction)
        (flow : Flow.TransactionFlow) :
  Flow.analyzeTransactionFlow address principal decimals txs = Done flow ->
  let entries := Flow.counterparties flow in
  NoDup (map fst entries) /\
  ~ In "unknown"%string (map fst entries) /\
  Flow.sum (map (fun entry => Flow.stats_totalReceived (snd entry)) entries)
  <= Flow.totalReceived flow /\
  Flow.sum (map (fun entry => Flow.stats_totalSent (snd entry)) entries)
  <= Flow.totalSent flow /\
  Flow.sum (map (fun entry => Flow.transactionCount (snd entry)) entries)
  = Z.of_nat (List.length
                (filter (fun d => negb (String.eqb (Flow.counterparty d) "unknown"))
                        (Flow.transactions flow))).
Proof.
  intros Hflow. cbv zeta.
  destruct (analyzeTransactionFlow_spec address principal decimals txs flow Hflow)
    as (_ & _ & _ & _ & HR & HS & HC & HN & HU).
  repeat split; assumption.
Qed.

Lemma analyzeTransactionFlow_counterparties_witness :
  Flow.analyzeTransactionFlow "bbb" "bbb" 8 Examples.flow_txs = Done Examples.flow_result /\
  NoDup (map fst (Flow.counterparties Examples.flow_result)).
Proof.
  split; [reflexivity|].
  destruct (analyzeTransactionFlow_counterparties "bbb" "bbb" 8 Examples.flow_txs
              Examples.flow_result eq_refl) as (Hnodup & _).
  exact Hnodup.
Defined.


(** ** The would-capture checkers agree with the handlers *)

Section SanityIcrc3.

Variable Principal : Type.
Variable decode : list Byte.byte -> option Principal.
Variable toText : Principal -> string.
Variable wallet : Icrc.Account Principal.

Lemma eqAccount_owner (a : Icrc.Account Principal) :
  Icrc.eqAccount toText (Some a) wallet = true ->
  String.eqb (toText (Icrc.owner a)) (toText (Icrc.owner wallet)) = true.
Proof. intros H. apply eqAccount_spec in H as [Ho _]. now apply String.eqb_eq. Qed.

(** A transfer that gets a direction has the owner of the wallet on one
    side. *)
Lemma classify_owner (from to : option (Icrc.Account Principal)) (d : Direction) :
  Icrc.classify toText from to wallet = Some d ->
  match from with
  | Some f =>
      if String.eqb (toText (Icrc.owner f)) (toText (Icrc.owner wallet)) then Some true
      else match to with
           | Some t => Some (String.eqb (toText (Icrc.owner t)) (toText (Icrc.owner wallet)))
           | None => None
           end
  | None =>
      match to with
      | Some t => Some (String.eqb (toText (Icrc.owner t)) (toText (Icrc.owner wallet)))
      | None => None
      end
  end = Some true.
Proof.
  unfold Icrc.classify. destruct from as [f|], to as [t|]; try discriminate.
  destruct (Icrc.eqAccount toText (Some f) wallet) eqn:Hf;
    destruct (Icrc.eqAccount toText (Some t) wallet) eqn:Ht; cbn; try discriminate;
    intros _;
    try (rewrite (eqAccount_owner f Hf); reflexivity);
    rewrite (eqAccount_owner t Ht);
    destruct (String.eqb (toText (Icrc.owner f)) (toText (Icrc.owner wallet)));
    reflexivity.
Qed.

End SanityIcrc3.

(** X10.  [wouldCaptureIcrc3Block] predicts [handleIcrcBlock].  Whenever the
    checker returns a verdict for a block, the handler does not throw, and
    [wouldEmit] is true exactly when the handler emits a row; the row then
    has the direction, the formatted amount, the memo, the block index and
    the token of the verdict, and [ownerMatch] is true. *)
Theorem wouldCaptureIcrc3Block_agrees
        {Principal : Type} (decode : list Byte.byte -> option Principal)
        (toText : Principal -> string) (wallet : Icrc.Account Principal)
        (from_ts to_ts : Z) (symbol : string) (decimals : Z)
        (date_checked : Z -> outcome string) (date_of_nanos : Z -> string)
        (bw : Z * Icrc.Value) (v : Sanity.Icrc3Verdict) :
  Sanity.wouldCaptureIcrc3Block decode toText wallet from_ts to_ts symbol decimals
                                date_checked bw = Done v ->
  match Icrc.handleIcrcBlock decode toText wallet from_ts to_ts symbol decimals
                             date_of_nanos bw with
  | Done (Some row) =>
      Sanity.wouldEmit v = true /\
      Sanity.direction v = Some (direction row) /\
      Sanity.amountFmt v = amount row /\
      Sanity.memo v = memo row /\
      Sanity.id v = block_index row /\
      Sanity.symbol v = token row /\
      Sanity.ownerMatch v = Some true
  | Done None => Sanity.wouldEmit v = false
  | Thrown _ => False
  end.
Proof.
  unfold Sanity.wouldCaptureIcrc3Block, Icrc.handleIcrcBlock. cbv zeta.
  set (block := Some (snd bw)).
  set (ts := Icrc.extractNat (Icrc.extractValue block "ts")).
  set (tx := Icrc.extractValue block "tx").
  set (stamp := if ts =? 0 then Done ""%string else date_checked ts).
  assert (Hwindow : (ts <? from_ts) || (to_ts <? ts)
                    = negb ((from_ts <=? ts) && (ts <=? to_ts))).
  { destruct (Z.ltb_spec ts from_ts), (Z.ltb_spec to_ts ts),
             (Z.leb_spec from_ts ts), (Z.leb_spec ts to_ts); try reflexivity; lia. }
  rewrite Hwindow.
  assert (Hnone : forall v',
             (timestampIso <- stamp ;;
              Done (Sanity.mkIcrc3Verdict
                      (Js.Z_toString 10 (fst bw))
                      (false && ((from_ts <=? ts) && (ts <=? to_ts)))
                      None ((from_ts <=? ts) && (ts <=? to_ts)) timestampIso
                      (Sanity.acctStr toText None) (Sanity.acctStr toText None)
                      (Fmt.formatAmount "0" decimals) "" symbol None
                      (Sanity.acctStr toText (Some wallet)))) = Done v' ->
             Sanity.wouldEmit v' = false).
  { intros v' H. destruct stamp; [|discriminate H]. now injection H as <-. }
  destruct tx as [[b|t|n|i|a|m]|] eqn:Htx; cbn [bind];
    try (intros H; apply Hnone in H;
         destruct ((from_ts <=? ts) && (ts <=? to_ts)); exact H).
  set (opType := Js.or_else _ _).
  destruct (String.eqb opType "xfer") eqn:Hx; destruct (String.eqb opType "transfer") eqn:Ht;
    cbn [orb negb andb bind];
    try (intros H; apply Hnone in H;
         destruct ((from_ts <=? ts) && (ts <=? to_ts)); exact H).
  all: destruct (extractAccount_returns _ decode (Icrc.extractValue (Some (Icrc.Map m)) "from"))
      as [from ->];
    destruct (extractAccount_returns _ decode (Icrc.extractValue (Some (Icrc.Map m)) "to"))
      as [to ->];
    cbn [bind];
    pose proof (classify_owner _ toText wallet from to) as Howner;
    destruct (Icrc.classify toText from to wallet) as [d|];
    destruct stamp; try discriminate; cbn [bind]; intros [= <-];
    cbn [Sanity.wouldEmit Sanity.direction Sanity.amountFmt Sanity.memo Sanity.id
         Sanity.symbol Sanity.ownerMatch];
    destruct ((from_ts <=? ts) && (ts <=? to_ts)); cbn [negb andb];
    try reflexivity;
    cbn [direction amount memo block_index token];
    repeat split; exact (Howner d eq_refl).
Qed.

Lemma wouldCaptureIcrc3Block_agrees_witness :
  exists v : Sanity.Icrc3Verdict,
    Sanity.wouldCaptureIcrc3Block Examples.decode_29 Js.toHex Examples.wallet_bytes
                                  Examples.FROM_TS Examples.TO_TS "ckBTC" 8
                                  Examples.no_date_checked
                                  (42, Examples.icrc_inflow_block) = Done v /\
    Sanity.wouldEmit v = true /\ Sanity.direction v = Some inflow /\
    Sanity.amountFmt v = "0.05"%string.
Proof.
  eexists. split; [reflexivity|].
  pose proof (wouldCaptureIcrc3Block_agrees
                Examples.decode_29 Js.toHex Examples.wallet_bytes
                Examples.FROM_TS Examples.TO_TS "ckBTC" 8
                Examples.no_date_checked Examples.no_date
                (42, Examples.icrc_inflow_block) _ eq_refl) as H.
  vm_compute in H. destruct H as (He & Hd & Ha & _).
  split; [exact He|]. split; [exact Hd|exact Ha].
Defined.

(** X11.  [wouldCaptureIcpBlock] and [handleBlock] of the parallel scanner.
    Whenever the checker returns a verdict for a block: if [wouldEmit] is
    true the handler emits a row with the direction, the formatted amount and
    the memo of the verdict; conversely, for a block whose millisecond
    timestamp is not zero, a row of the handler means that [wouldEmit] is
    true.  For a block without a timestamp [wouldEmit] is false, whatever the
    handler does. *)
Theorem wouldCaptureIcpBlock_agrees
        (symbol : string) (decimals : Z) (icpAccountIdHex : string)
        (date_checked : Js.number -> outcome string)
        (Date_toISOString : Js.number -> string)
        (from_ms to_ms : Z) (block : Icp.Block) (blockIndex : Z)
        (v : Sanity.IcpVerdict) :
  Sanity.wouldCaptureIcpBlock icpAccountIdHex symbol decimals from_ms to_ms
                              date_checked block = Done v ->
  let handled := Icp.handleBlock symbol decimals icpAccountIdHex Date_toISOString
                                 from_ms to_ms block blockIndex in
  (Sanity.icp_wouldEmit v = true ->
   exists row, handled = Some row /\
               Sanity.icp_direction v = Some (direction row) /\
               Sanity.icp_amountFmt v = amount row /\
               Sanity.icp_memo v = memo row) /\
  (Icp.ts_truthy (Icp.n64ToMillis (Icp.timestamp block)) = true ->
   forall row, handled = Some row -> Sanity.icp_wouldEmit v = true) /\
  (Icp.timestamp block = None -> Sanity.icp_wouldEmit v = false).
Proof.
  unfold Sanity.wouldCaptureIcpBlock, Icp.handleBlock, Icp.transfer_row. cbv zeta.
  destruct (Icp.n64ToMillis (Icp.timestamp block)) as [t|] eqn:Hts.
  2:{ destruct (Icp.operation (Icp.transaction block)) as [[from to e8s|to e8s|from e8s|from sp]|];
        cbn [bind Icp.ts_truthy andb]; intros [= <-];
        cbn [Sanity.icp_wouldEmit Sanity.icp_direction Sanity.icp_amountFmt Sanity.icp_memo];
        rewrite ?andb_false_r;
        (split; [discriminate|]); (split; [discriminate|reflexivity]). }
  assert (Hsome : Icp.timestamp block <> None).
  { unfold Icp.n64ToMillis in Hts. destruct (Icp.timestamp block); discriminate. }
  cbn [Icp.ts_truthy].
  set (below := Js.ltb t (Js.Finite from_ms)).
  set (above := Js.gtb t (Js.Finite to_ms)).
  destruct (Icp.operation (Icp.transaction block)) as [[from to e8s|to e8s|from e8s|from sp]|];
    destruct (Js.truthy t) eqn:Htruthy;
    try (destruct (date_checked t); [|discriminate]);
    cbn [bind andb]; intros [= <-];
    cbn [Sanity.icp_wouldEmit Sanity.icp_direction Sanity.icp_amountFmt Sanity.icp_memo andb];
    try (split; [discriminate|]; split; [intros _ row Hrow|intros Hnone; contradiction];
         try discriminate Hrow;
         destruct (below || above);
         discriminate Hrow).
  - (* a transfer, the timestamp is truthy *)
    destruct (Icp.direction_of (Js.toHex from) (Js.toHex to)
                               (Js.toLowerCase icpAccountIdHex)) as [d|];
      destruct below, above;
      cbn [negb andb orb];
      (split; [intros He;
               first [discriminate He
                     |eexists; split; [reflexivity|];
                      cbn [direction amount memo]; repeat split]
              |split; [intros _ row Hrow; try discriminate Hrow; reflexivity
                      |intros Hnone; contradiction]]).
  - (* a transfer, the timestamp is falsy *)
    destruct (Icp.direction_of (Js.toHex from) (Js.toHex to)
                               (Js.toLowerCase icpAccountIdHex)) as [d|];
      cbn [andb];
      (split; [intros He;
               first [discriminate He
                     |eexists; split; [reflexivity|];
                      cbn [direction amount memo]; repeat split]
              |split; [discriminate|intros Hnone; contradiction]]).
Qed.

Lemma wouldCaptureIcpBlock_agrees_witness :
  exists v : Sanity.IcpVerdict,
    Sanity.wouldCaptureIcpBlock Examples.watched_hex "ICP" 8 Examples.FROM_MS
                                Examples.TO_MS Examples.no_date_checked
                                Examples.inflow_block = Done v /\
    exists row : CsvRow,
      Icp.handleBlock "ICP" 8 Examples.watched_hex Examples.no_date
                      Examples.FROM_MS Examples.TO_MS Examples.inflow_block 7
      = Some row /\
      Sanity.icp_direction v = Some (direction row).
Proof.
  eexists. split; [reflexivity|].
  destruct (wouldCaptureIcpBlock_agrees
              "ICP" 8 Examples.watched_hex Examples.no_date_checked Examples.no_date
              Examples.FROM_MS Examples.TO_MS Examples.inflow_block 7 _ eq_refl)
    as (Hemit & _ & _).
  destruct (Hemit eq_refl) as (row & Hrow & Hd & _).
  exists row. split; [exact Hrow|exact Hd].
Defined.

(** X12.  What a row of [handleIcrcBlock] says is true of the block.  When
    the handler emits a row: the timestamp of the block lies in the window;
    both sides of the transfer decode to accounts and the watched account is
    one of them, on the side that the direction names ([self]: both,
    [inflow]: the receiver only, [outflow]: the sender only; never [mint] or
    [burn]); the two principals of the row are the owners of the two sides;
    the block index is that of the block; and, with [decimals >= 0] and a
    non-negative amount, the amount of the row reads back as the [amt] of the
    transaction. *)
Theorem handleIcrcBlock_row_sound
        {Principal : Type} (decode : list Byte.byte -> option Principal)
        (toText : Principal -> string) (wallet : Icrc.Account Principal)
        (from_ts to_ts : Z) (symbol : string) (decimals : Z)
        (date_of_nanos : Z -> string) (bw : Z * Icrc.Value) (row : CsvRow) :
  0 <= decimals ->
  Icrc.handleIcrcBlock decode toText wallet from_ts to_ts symbol decimals
                       date_of_nanos bw = Done (Some row) ->
  let tx := Icrc.extractValue (Some (snd bw)) "tx" in
  let ts := Icrc.extractNat (Icrc.extractValue (Some (snd bw)) "ts") in
  let amt := Icrc.extractNat (Icrc.extractValue tx "amt") in
  from_ts <= ts <= to_ts /\
  (exists from to : Icrc.Account Principal,
      Icrc.extractAccount decode (Icrc.extractValue tx "from") = Done (Some from) /\
      Icrc.extractAccount decode (Icrc.extractValue tx "to") = Done (Some to) /\
      from_principal row = toText (Icrc.owner from) /\
      to_principal row = toText (Icrc.owner to) /\
      match direction row with
      | self => Icrc.eqAccount toText (Some from) wallet = true /\
                Icrc.eqAccount toText (Some to) wallet = true
      | inflow => Icrc.eqAccount toText (Some from) wallet = false /\
                  Icrc.eqAccount toText (Some to) wallet = true
      | outflow => Icrc.eqAccount toText (Some from) wallet = true /\
                   Icrc.eqAccount toText (Some to) wallet = false
      | mint | burn => False
      end) /\
  block_index row = Js.Z_toString 10 (fst bw) /\
  token row = symbol /\
  (0 <= amt -> Parse.parseDecimal (amount row) (Z.to_N decimals) = Some (Z.to_N amt)).
Proof.
  intros Hd. unfold Icrc.handleIcrcBlock. cbv zeta.
  set (block := Some (snd bw)).
  set (ts := Icrc.extractNat (Icrc.extractValue block "ts")).
  set (tx := Icrc.extractValue block "tx").
  destruct (Z.ltb_spec ts from_ts) as [|Hfrom]; [discriminate|].
  destruct (Z.ltb_spec to_ts ts) as [|Hto]; [discriminate|].
  cbn [orb].
  destruct tx as [[b|t|n|i|a|m]|] eqn:Htx; try discriminate.
  set (opType := Js.or_else _ _).
  destruct (negb (String.eqb opType "xfer") && negb (String.eqb opType "transfer"));
    [discriminate|].
  destruct (extractAccount_returns _ decode (Icrc.extractValue (Some (Icrc.Map m)) "from"))
    as [from Hfromacc].
  destruct (extractAccount_returns _ decode (Icrc.extractValue (Some (Icrc.Map m)) "to"))
    as [to Htoacc].
  rewrite Hfromacc, Htoacc. cbn [bind].
  unfold Icrc.classify.
  destruct from as [from|], to as [to|]; try discriminate.
  destruct (Icrc.eqAccount toText (Some from) wallet) eqn:Hf;
    destruct (Icrc.eqAccount toText (Some to) wallet) eqn:Ht;
    cbn [andb]; intros [= <-];
    cbn [direction from_principal to_principal block_index token amount Icrc.owner_text];
    (split; [lia|]);
    (split; [exists from, to; repeat split; try reflexivity; assumption|]);
    (split; [reflexivity|]); (split; [reflexivity|]);
    intros Hamt; apply formatAmount_round_trip; assumption.
Qed.

Lemma handleIcrcBlock_row_sound_witness :
  exists row : CsvRow,
    Icrc.handleIcrcBlock Examples.decode_29 Js.toHex Examples.wallet_bytes
                         Examples.FROM_TS Examples.TO_TS "ckBTC" 8 Examples.no_date
                         (42, Examples.icrc_inflow_block) = Done (Some row) /\
    Parse.parseDecimal (amount row) 8 = Some 5000000%N /\
    block_index row = "42"%string.
Proof.
  eexists. split; [reflexivity|].
  destruct (handleIcrcBlock_row_sound
              Examples.decode_29 Js.toHex Examples.wallet_bytes
              Examples.FROM_TS Examples.TO_TS "ckBTC" 8 Examples.no_date
              (42, Examples.icrc_inflow_block) _ ltac:(lia) eq_refl)
    as (_ & _ & Hindex & _ & Hamount).
  split; [exact (Hamount ltac:(vm_compute; discriminate))|exact Hindex].
Defined.

(** ** [buildSegments] in closed form *)

Section SegmentsClosedForm.

Variables startIndex page top : Z.
Hypothesis Hstart : 0 <= startIndex.
Hypothesis Hpage : 1 <= page.
Hypothesis Hexact : page <= 2 ^ 53 \/ top - startIndex + 1 <= 2 ^ 53.

(** The segments of the window below [cursor], numbered from [idx]. *)
Let below (cursor idx : Z) : list Scanner.Segment :=
  map (fun k => Scanner.mkSegment
                  (Z.max startIndex (cursor - (Z.of_nat k + 1) * page + 1))
                  (Z.min page (cursor - startIndex + 1 - Z.of_nat k * page))
                  (idx + Z.of_nat k))
      (seq 0 (Z.to_nat (Segments.count startIndex cursor page))).

Lemma count_none (cursor : Z) :
  cursor = startIndex - 1 -> Segments.count startIndex cursor page = 0.
Proof.
  intros ->. unfold Segments.count.
  replace (startIndex - 1 - startIndex + page) with (page - 1) by lia.
  apply Z.div_small. lia.
Qed.

Lemma count_one (cursor : Z) :
  startIndex <= cursor -> cursor - startIndex + 1 <= page ->
  Segments.count startIndex cursor page = 1.
Proof.
  intros Hle Hfit. unfold Segments.count.
  replace (cursor - startIndex + page) with (cursor - startIndex + 1 * page) by lia.
  rewrite Z.div_add by lia. rewrite Z.div_small by lia. reflexivity.
Qed.

Lemma count_more (cursor : Z) :
  page < cursor - startIndex + 1 ->
  Segments.count startIndex cursor page
  = 1 + Segments.count startIndex (cursor - page) page /\
  0 <= Segments.count startIndex (cursor - page) page.
Proof.
  intros Hmore. unfold Segments.count.
  replace (cursor - startIndex + page) with (cursor - page - startIndex + page + 1 * page)
    by lia.
  rewrite Z.div_add by lia. split; [lia|].
  apply Z.div_pos; lia.
Qed.

Lemma buildSegments_loop_closed_form (fuel : nat) :
  forall cursor idx acc,
    startIndex - 1 <= cursor <= top ->
    (Z.to_nat (cursor - startIndex + 1) < fuel)%nat ->
    Scanner.buildSegments_loop fuel startIndex page cursor idx acc
    = Some (Done (acc ++ below cursor idx)).
Proof.
  induction fuel as [|fuel IH]; intros cursor idx acc Hc Hf; [lia|].
  cbn [Scanner.buildSegments_loop]. unfold below.
  destruct (Z.leb_spec startIndex cursor) as [Hle|Hgt].
  2:{ rewrite count_none by lia. cbn. now rewrite app_nil_r. }
  rewrite segment_length_min by lia.
  destruct (Z_le_gt_dec (cursor - startIndex + 1) page) as [Hfit|Hmore].
  - (* the last segment *)
    rewrite count_one by lia. change (Z.to_nat 1) with 1%nat.
    cbn [seq map]. change (Z.of_nat 0) with 0.
    rewrite Z.min_r by lia.
    replace (cursor - (cursor - startIndex + 1 - 1)) with startIndex by lia.
    replace (Z.max startIndex (cursor - (0 + 1) * page + 1)) with startIndex by lia.
    replace (Z.min page (cursor - startIndex + 1 - 0 * page))
      with (cursor - startIndex + 1) by lia.
    rewrite Z.add_0_r.
    destruct (Z.eqb_spec startIndex 0) as [H0|Hn0]; [reflexivity|].
    rewrite IH by lia. unfold below. rewrite count_none by lia.
    cbn. now rewrite app_nil_r.
  - (* a full page, and more below *)
    destruct (count_more cursor ltac:(lia)) as [Hcount Hpos].
    rewrite Z.min_l by lia.
    destruct (Z.eqb_spec (cursor - (page - 1)) 0) as [H0|_]; [lia|].
    rewrite IH by lia. unfold below.
    replace (cursor - (page - 1) - 1) with (cursor - page) by lia.
    rewrite Hcount, Z2Nat.inj_add by lia.
    change (Z.to_nat 1) with 1%nat. cbn [Nat.add seq map].
    rewrite <- seq_shift, map_map, <- app_assoc. cbn [app].
    do 3 f_equal. f_equal.
    + f_equal; lia.
    + apply map_ext. intros k. f_equal; lia.
Qed.

End SegmentsClosedForm.

(** X13.  [buildSegments] in closed form.  For a window with
    [0 <= startIndex <= endIndex] and a page size [page >= 1] that, or the
    size of the window, is at most 2^53, [buildSegments] returns
    [ceil((endIndex - startIndex + 1) / page)] segments; the one of rank [k]
    (rank 0 is the most recent) has [idx = k], starts at
    [max(startIndex, endIndex - (k + 1) * page + 1)] and holds
    [min(page, endIndex - startIndex + 1 - k * page)] blocks: every segment
    but the oldest is a full page. *)
Theorem buildSegments_closed_form (startIndex endIndex page : Z) :
  0 <= startIndex <= endIndex -> 1 <= page ->
  page <= 2 ^ 53 \/ endIndex - startIndex + 1 <= 2 ^ 53 ->
  buildSegments_returns startIndex endIndex page
                        (Segments.all startIndex endIndex page) /\
  (forall k : nat,
      (S k < List.length (Segments.all startIndex endIndex page))%nat ->
      exists s, nth_error (Segments.all startIndex endIndex page) k = Some s /\
                Scanner.length s = page /\ Scanner.idx s = Z.of_nat k).
Proof.
  intros Hwin Hpage Hexact. split.
  - exists (S (Z.to_nat (endIndex - startIndex + 1))). intros fuel Hfuel.
    unfold Scanner.buildSegments.
    rewrite (buildSegments_loop_closed_form startIndex page endIndex
               ltac:(lia) Hpage Hexact fuel endIndex 0 [] ltac:(lia) ltac:(lia)).
    reflexivity.
  - intros k Hk. unfold Segments.all in *. rewrite length_map, length_seq in Hk.
    eexists. split.
    + rewrite nth_error_map, nth_error_seq.
      destruct (Nat.ltb_spec k (Z.to_nat (Segments.count startIndex endIndex page)));
        [reflexivity|lia].
    + cbn [Scanner.length Scanner.idx Segments.nth]. split; [|reflexivity].
      apply Z.min_l.
      assert (Hcount : Z.of_nat k + 2 <= Segments.count startIndex endIndex page) by lia.
      unfold Segments.count in Hcount.
      assert (Hmul : (Z.of_nat k + 2) * page <= endIndex - startIndex + page).
      { etransitivity; [apply Z.mul_le_mono_nonneg_r; [lia|exact Hcount]|].
        rewrite Z.mul_comm. apply Z.mul_div_le. lia. }
      lia.
Qed.

Lemma buildSegments_closed_form_witness :
  buildSegments_returns 500 2499 1000 (Segments.all 500 2499 1000) /\
  Segments.all 500 2499 1000
  = [Scanner.mkSegment 1500 1000 0; Scanner.mkSegment 500 1000 1].
Proof.
  split; [|reflexivity].
  apply (buildSegments_closed_form 500 2499 1000); lia.
Defined.

(** With a page size below 1 the length of a segment is the page size. *)
Lemma segment_length_nonpositive (page x : Z) :
  page <= 0 -> 1 <= x ->
  Js.BigInt_of_number (Js.Math_min (Js.Finite page) (Js.Number_of_bigint x))
  = Some page.
Proof.
  intros Hp Hx. unfold Js.Number_of_bigint.
  rewrite (Z.abs_eq x) by lia. rewrite (Z.sgn_pos x) by lia.
  assert (Hr : 1 <= Js.round53 x).
  { destruct (Z_le_gt_dec x (2 ^ 53)) as [Hs|Hb].
    - rewrite round53_exact by lia. exact Hx.
    - pose proof (round53_large x ltac:(lia)). lia. }
  destruct (2 ^ 1024 <=? Js.round53 x).
  - destruct (Z.ltb_spec x 0); [lia|]. reflexivity.
  - cbn [Js.Math_min Js.BigInt_of_number]. f_equal. lia.
Qed.

(** X14.  [buildSegments] needs a page size of at least 1: with [page <= 0]
    and a window that is not empty ([0 <= startIndex <= endIndex]) the loop
    never ends, as the cursor does not move down; no amount of fuel gives a
    result. *)
Theorem buildSegments_nonpositive_page (startIndex endIndex page : Z) (fuel : nat) :
  page <= 0 -> 0 <= startIndex <= endIndex ->
  Scanner.buildSegments fuel startIndex endIndex page = None.
Proof.
  intros Hp Hwin. unfold Scanner.buildSegments.
  assert (Hloop : forall cursor idx acc,
             startIndex <= cursor ->
             Scanner.buildSegments_loop fuel startIndex page cursor idx acc = None).
  { induction fuel as [|fuel IH]; intros cursor idx acc Hc; [reflexivity|].
    cbn [Scanner.buildSegments_loop].
    destruct (Z.leb_spec startIndex cursor); [|lia].
    rewrite segment_length_nonpositive by lia.
    destruct (Z.eqb_spec (cursor - (page - 1)) 0); [lia|].
    apply IH. lia. }
  apply Hloop. lia.
Qed.

Lemma buildSegments_nonpositive_page_witness :
  Scanner.buildSegments 1000 0 10 0 = None.
Proof. apply (buildSegments_nonpositive_page 0 10 0 1000); lia. Defined.

(** ** The parallel scan does not depend on the order of completion *)

From Stdlib Require Import Permutation.

Section ParallelCounters.

Variable Fetched : Type.
Variable fetchBlocks : Scanner.Segment -> outcome (list Fetched).
Variable handle : Fetched -> outcome (option CsvRow).

Hypothesis handle_returns : forall b, exists r, handle b = Done r.

(** The blocks that the fetch of a segment brings. *)
Let seen (seg : Scanner.Segment) : Z :=
  match fetchBlocks seg with
  | Done fetched => Z.of_nat (List.length fetched)
  | Thrown _ => 0
  end.

Lemma handle_all_counters (fetched : list Fetched) (st : Scan.State Scanner.Segment) :
  let st' := fst (Scan.handle_all handle fetched st) in
  Scan.matches st'
  = Scan.matches st + Z.of_nat (List.length (Scan.rows_of_fetched handle fetched)) /\
  Scan.blocksSeen st' = Scan.blocksSeen st.
Proof.
  cbv zeta. unfold Scan.rows_of_fetched.
  revert st; induction fetched as [|b rest IH]; intros st.
  - cbn. split; lia.
  - cbn [Scan.handle_all flat_map]. destruct (handle_returns b) as [r ->].
    destruct (IH (Scan.push_opt r st)) as (Hm & Hb).
    rewrite Hm, Hb, length_app.
    destruct r as [row|]; cbn [Scan.push_opt Scan.push_row Scan.matches
                                Scan.blocksSeen List.length]; split; lia.
Qed.

Lemma segment_task_counters (seg : Scanner.Segment) (st : Scan.State Scanner.Segment) :
  let st' := Scan.segment_task fetchBlocks handle seg st in
  Scan.matches st'
  = Scan.matches st
    + Z.of_nat (List.length (Scan.rows_of_segment fetchBlocks handle seg)) /\
  Scan.blocksSeen st' = Scan.blocksSeen st + seen seg.
Proof.
  unfold Scan.segment_task, Scan.rows_of_segment, seen. cbv zeta.
  destruct (fetchBlocks seg) as [fetched|e].
  - pose proof (handle_all_counters fetched (Scan.log_fetch seg st)) as H.
    pose proof (handle_all_spec _ handle handle_returns fetched (Scan.log_fetch seg st))
      as Hspec.
    cbv zeta in H, Hspec.
    destruct (Scan.handle_all handle fetched (Scan.log_fetch seg st)) as [st' thrown].
    cbn [fst snd] in H, Hspec. destruct Hspec as (-> & _). destruct H as (Hm & Hb).
    cbn. rewrite Hm, Hb. cbn. split; lia.
  - cbn. split; lia.
Qed.

Lemma fold_segment_task_counters (completion : list Scanner.Segment)
      (st : Scan.State Scanner.Segment) :
  let st' := fold_left (fun st seg => Scan.segment_task fetchBlocks handle seg st)
                       completion st in
  Scan.matches st'
  = Scan.matches st
    + Z.of_nat (List.length (flat_map (Scan.rows_of_segment fetchBlocks handle)
                                      completion)) /\
  Scan.blocksSeen st' = Scan.blocksSeen st + Flow.sum (map seen completion).
Proof.
  revert st; induction completion as [|seg rest IH]; intros st.
  - cbn. split; lia.
  - cbn [fold_left flat_map map].
    destruct (IH (Scan.segment_task fetchBlocks handle seg st)) as (Hm & Hb).
    destruct (segment_task_counters seg st) as (Hm1 & Hb1).
    cbv zeta in *. rewrite Hm, Hb, Hm1, Hb1, length_app.
    unfold Flow.sum. cbn [fold_right]. split; lia.
Qed.

Lemma sum_permutation (l l' : list Z) :
  Permutation l l' -> Flow.sum l = Flow.sum l'.
Proof.
  unfold Flow.sum. induction 1; cbn [fold_right]; lia.
Qed.

Lemma run_segments_order (completion completion' : list Scanner.Segment) :
  Permutation completion completion' ->
  let st := Scan.run_segments fetchBlocks handle completion in
  let st' := Scan.run_segments fetchBlocks handle completion' in
  Permutation (Scan.rows st) (Scan.rows st') /\
  Permutation (Scan.errors st) (Scan.errors st') /\
  Permutation (Scan.fetches st) (Scan.fetches st') /\
  Scan.matches st = Z.of_nat (List.length (Scan.rows st)) /\
  Scan.matches st' = Scan.matches st /\
  Scan.blocksSeen st' = Scan.blocksSeen st /\
  Scan.segDone st' = Scan.segDone st /\
  Scan.blocksSeen st = Flow.sum (map seen completion).
Proof.
  intros Hperm. cbv zeta.
  destruct (run_segments_spec _ fetchBlocks handle handle_returns completion)
    as (Hf & He & Hr & Hd).
  destruct (run_segments_spec _ fetchBlocks handle handle_returns completion')
    as (Hf' & He' & Hr' & Hd').
  cbv zeta in *.
  destruct (fold_segment_task_counters completion Scan.initial) as (Hm & Hb).
  destruct (fold_segment_task_counters completion' Scan.initial) as (Hm' & Hb').
  cbv zeta in *. fold (Scan.run_segments fetchBlocks handle completion) in Hm, Hb.
  fold (Scan.run_segments fetchBlocks handle completion') in Hm', Hb'.
  cbn [Scan.matches Scan.blocksSeen Scan.initial] in Hm, Hb, Hm', Hb'.
  rewrite Hr, Hr', He, He', Hf, Hf', Hd, Hd', Hm, Hm', Hb, Hb'.
  split; [now apply Permutation_flat_map|].
  split; [now apply Permutation_flat_map|].
  split; [exact Hperm|]. split; [lia|].
  split.
  { rewrite (Permutation_length
               (Permutation_flat_map (Scan.rows_of_segment fetchBlocks handle) Hperm)).
    reflexivity. }
  split.
  { rewrite (sum_permutation _ _ (Permutation_map seen Hperm)). reflexivity. }
  split; [rewrite (Permutation_length Hperm); reflexivity|lia].
Qed.

End ParallelCounters.

(** X15.  The parallel scanners do not depend on the order in which the
    fetches of the segments complete.  For two completion orders of the same
    segments, [scanIcpLedger] and [scanIcrcLedger] find the same rows and log
    the same errors, up to their order, and end with the same counters;
    [matches] is the number of rows found. *)
Theorem parallel_scan_order_independent :
  (forall symbol decimals icpAccountIdHex Date_toISOString from_ms to_ms
          (fetch : Scanner.Segment -> outcome (list (Z * Icp.Block)))
          completion completion',
      Permutation completion completion' ->
      let st := Ledgers.scanIcpLedger_parallel symbol decimals icpAccountIdHex
                                         Date_toISOString from_ms to_ms
                                         fetch completion in
      let st' := Ledgers.scanIcpLedger_parallel symbol decimals icpAccountIdHex
                                          Date_toISOString from_ms to_ms
                                          fetch completion' in
      Permutation (Scan.rows st) (Scan.rows st') /\
      Permutation (Scan.errors st) (Scan.errors st') /\
      Scan.matches st = Z.of_nat (List.length (Scan.rows st)) /\
      Scan.matches st' = Scan.matches st /\
      Scan.blocksSeen st' = Scan.blocksSeen st /\
      Scan.segDone st' = Scan.segDone st) /\
  (forall (Principal : Type) decode (toText : Principal -> string) wallet
          from_ts to_ts symbol decimals date_of_nanos
          (fetch : Scanner.Segment -> outcome (list (Z * Icrc.Value)))
          completion completion',
      Permutation completion completion' ->
      let st := Ledgers.scanIcrcLedger_parallel Principal decode toText wallet
                                          from_ts to_ts symbol decimals
                                          date_of_nanos fetch completion in
      let st' := Ledgers.scanIcrcLedger_parallel Principal decode toText wallet
                                           from_ts to_ts symbol decimals
                                           date_of_nanos fetch completion' in
      Permutation (Scan.rows st) (Scan.rows st') /\
      Permutation (Scan.errors st) (Scan.errors st') /\
      Scan.matches st = Z.of_nat (List.length (Scan.rows st)) /\
      Scan.matches st' = Scan.matches st /\
      Scan.blocksSeen st' = Scan.blocksSeen st /\
      Scan.segDone st' = Scan.segDone st).
Proof.
  split.
  - intros symbol decimals icpAccountIdHex Date_toISOString from_ms to_ms
           fetch completion completion' Hperm.
    unfold Ledgers.scanIcpLedger_parallel.
    set (handle := fun fetched : Z * Icp.Block =>
                     Done (Icp.handleBlock symbol decimals icpAccountIdHex
                                           Date_toISOString from_ms to_ms
                                           (snd fetched) (fst fetched))).
    assert (Hret : forall b, exists r, handle b = Done r)
      by (intros b; eexists; reflexivity).
    destruct (run_segments_order _ fetch handle Hret completion completion' Hperm)
      as (Hr & He & _ & Hm & Hm' & Hb & Hd & _).
    cbv zeta. repeat split; assumption.
  - intros Principal decode toText wallet from_ts to_ts symbol decimals
           date_of_nanos fetch completion completion' Hperm.
    unfold Ledgers.scanIcrcLedger_parallel.
    set (handle := Icrc.handleIcrcBlock decode toText wallet from_ts to_ts
                                        symbol decimals date_of_nanos).
    assert (Hret : forall b, exists r, handle b = Done r)
      by (intros b; apply handleIcrcBlock_returns).
    destruct (run_segments_order _ fetch handle Hret completion completion' Hperm)
      as (Hr & He & _ & Hm & Hm' & Hb & Hd & _).
    cbv zeta. repeat split; assumption.
Qed.

Lemma parallel_scan_order_independent_witness :
  let newer := Scanner.mkSegment 1000 1000 0 in
  let older := Scanner.mkSegment 0 1000 1 in
  let scan := Ledgers.scanIcpLedger_parallel "ICP" 8 Examples.watched_hex
                                       Examples.no_date Examples.FROM_MS
                                       Examples.TO_MS Examples.flaky_fetch in
  Permutation (Scan.rows (scan [newer; older])) (Scan.rows (scan [older; newer])) /\
  Scan.matches (scan [older; newer]) = Scan.matches (scan [newer; older]).
Proof.
  cbv zeta. destruct parallel_scan_order_independent as (Hicp & _).
  destruct (Hicp "ICP"%string 8 Examples.watched_hex Examples.no_date
                 Examples.FROM_MS Examples.TO_MS Examples.flaky_fetch
                 [Scanner.mkSegment 1000 1000 0; Scanner.mkSegment 0 1000 1]
                 [Scanner.mkSegment 0 1000 1; Scanner.mkSegment 1000 1000 0]
                 (perm_swap _ _ []))
    as (Hrows & _ & _ & Hmatches & _).
  split; [exact Hrows|exact Hmatches].
Defined.

(** ** The promise limiter *)

Section LimiterFacts.

Variable Task : Type.
Variable max : Z.
Hypothesis max_nonneg : 0 <= max.

(** What holds of a limiter that has been handed the tasks [handed] and has
    seen [settled] of them settle. *)
Let Inv (st : Limiter.State Task) (settled : nat) (handed : list Task) : Prop :=
  Limiter.active st
  = Z.of_nat (List.length (Limiter.started st)) - Z.of_nat settled /\
  0 <= Limiter.active st <= max /\
  (Limiter.queue st <> [] -> Limiter.active st = max) /\
  Limiter.started st ++ Limiter.queue st = handed.

Lemma limit_keeps (fn : Task) st settled handed :
  Inv st settled handed -> Inv (Limiter.limit max fn st) settled (handed ++ [fn]).
Proof.
  unfold Inv, Limiter.limit. intros (Hact & Hbound & Hfull & Horder).
  destruct (Z.ltb_spec (Limiter.active st) max) as [Hfree|Hbusy];
    cbn [Limiter.run Limiter.active Limiter.queue Limiter.started].
  - assert (Hq : Limiter.queue st = []).
    { destruct (Limiter.queue st) as [|r rest]; [reflexivity|].
      specialize (Hfull ltac:(discriminate)). lia. }
    rewrite Hq in *. rewrite app_nil_r in *. rewrite length_app. cbn [List.length].
    split; [lia|]. split; [lia|]. split; [intros H; now elim H|].
    now rewrite Horder.
  - split; [lia|]. split; [lia|]. split; [intros _; lia|].
    now rewrite app_assoc, Horder.
Qed.

Lemma next_keeps st settled handed :
  (settled < List.length (Limiter.started st))%nat ->
  Inv st settled handed -> Inv (Limiter.next st) (S settled) handed.
Proof.
  unfold Inv, Limiter.next. intros Hrunning (Hact & Hbound & Hfull & Horder).
  destruct (Limiter.queue st) as [|r rest] eqn:Hq;
    cbn [Limiter.run Limiter.active Limiter.queue Limiter.started].
  - split; [lia|]. split; [lia|]. split; [intros H; now elim H|exact Horder].
  - specialize (Hfull ltac:(discriminate)).
    rewrite length_app. cbn [List.length].
    split; [lia|]. split; [lia|]. split; [intros _; lia|].
    now rewrite <- app_assoc.
Qed.

Lemma exec_keeps (events : list (Limiter.Event Task)) :
  forall st settled handed st' settled',
    Inv st settled handed ->
    Limiter.exec max events st settled = Some (st', settled') ->
    Inv st' settled' (handed ++ Limiter.calls events).
Proof.
  induction events as [|[fn|] events IH]; intros st settled handed st' settled' Hinv Hrun.
  - injection Hrun as <- <-. cbn. now rewrite app_nil_r.
  - cbn [Limiter.exec] in Hrun.
    change (Limiter.calls (Limiter.Call fn :: events))
      with ([fn] ++ Limiter.calls events).
    rewrite app_assoc.
    exact (IH _ _ _ _ _ (limit_keeps fn st settled handed Hinv) Hrun).
  - cbn [Limiter.exec] in Hrun.
    destruct (Nat.ltb_spec settled (List.length (Limiter.started st))) as [Hlt|];
      [|discriminate Hrun].
    exact (IH _ _ _ _ _ (next_keeps st settled handed Hlt Hinv) Hrun).
Qed.

Lemma exec_settled (events : list (Limiter.Event Task)) :
  forall st settled st' settled',
    (settled <= List.length (Limiter.started st))%nat ->
    Limiter.exec max events st settled = Some (st', settled') ->
    (settled' <= List.length (Limiter.started st'))%nat.
Proof.
  induction events as [|[fn|] events IH]; intros st settled st' settled' Hle Hrun.
  - now injection Hrun as <- <-.
  - cbn [Limiter.exec] in Hrun. eapply IH; [|exact Hrun].
    unfold Limiter.limit. destruct (Limiter.active st <? max); cbn; [|exact Hle].
    rewrite length_app. cbn. lia.
  - cbn [Limiter.exec] in Hrun.
    destruct (Nat.ltb_spec settled (List.length (Limiter.started st))) as [Hlt|];
      [|discriminate Hrun].
    eapply IH; [|exact Hrun].
    unfold Limiter.next. destruct (Limiter.queue st); cbn; [lia|].
    rewrite length_app. cbn. lia.
Qed.

Lemma initial_inv : Inv Limiter.initial 0 [].
Proof. unfold Inv. cbn. repeat split; try lia. intros H; now elim H. Qed.

Lemma limiter_invariant (events : list (Limiter.Event Task)) st settled :
  Limiter.exec max events Limiter.initial 0 = Some (st, settled) ->
  Limiter.active st
  = Z.of_nat (List.length (Limiter.started st)) - Z.of_nat settled /\
  0 <= Limiter.active st <= max /\
  (Limiter.queue st <> [] -> Limiter.active st = max) /\
  Limiter.started st ++ Limiter.queue st = Limiter.calls events /\
  (settled <= List.length (Limiter.started st))%nat.
Proof.
  intros Hrun.
  destruct (exec_keeps events _ _ _ _ _ initial_inv Hrun) as (Ha & Hb & Hf & Ho).
  pose proof (exec_settled events _ _ _ _ (Nat.le_refl _) Hrun) as Hs.
  repeat split; try assumption; lia.
Qed.

End LimiterFacts.

(** X16.  [pLimit(max)] never runs more than [max] tasks at once.  After any
    sequence of calls of the limiter and of settlements of started tasks,
    with an integer [max >= 0]: [active] is the number of tasks started and
    not yet settled, it lies between 0 and [max], and a task waits in the
    queue only while [max] tasks are running. *)
Theorem pLimit_bound (Task : Type) (max : Z) (events : list (Limiter.Event Task))
        (st : Limiter.State Task) (settled : nat) :
  0 <= max ->
  Limiter.exec max events Limiter.initial 0 = Some (st, settled) ->
  Limiter.active st
  = Z.of_nat (List.length (Limiter.started st)) - Z.of_nat settled /\
  0 <= Limiter.active st <= max /\
  (Limiter.queue st <> [] -> Limiter.active st = max).
Proof.
  intros Hmax Hrun.
  destruct (limiter_invariant Task max Hmax events st settled Hrun)
    as (Ha & Hb & Hf & _).
  repeat split; try assumption; lia.
Qed.

Lemma pLimit_bound_witness :
  exists st : Limiter.State nat,
    Limiter.exec 2 [Limiter.Call 1%nat; Limiter.Call 2%nat; Limiter.Call 3%nat;
                    Limiter.Settled; Limiter.Call 4%nat] Limiter.initial 0
    = Some (st, 1%nat) /\
    Limiter.active st = 2 /\ Limiter.queue st = [4%nat].
Proof.
  eexists. split; [reflexivity|].
  destruct (pLimit_bound nat 2 [Limiter.Call 1%nat; Limiter.Call 2%nat;
                                Limiter.Call 3%nat; Limiter.Settled;
                                Limiter.Call 4%nat] _ 1%nat ltac:(lia) eq_refl)
    as (_ & _ & Hfull).
  split; [apply Hfull; discriminate|reflexivity].
Defined.

(** X17.  [pLimit(max)] starts the tasks in the order in which they were
    handed to it: the tasks started, followed by the queue, are the tasks of
    the calls in their order.  With an integer [max >= 0] the number of tasks
    started is the smaller of the number of calls and [max] plus the number of
    tasks settled; with [max <= 0] no task is ever started. *)
Theorem pLimit_fifo (Task : Type) (max : Z) (events : list (Limiter.Event Task))
        (st : Limiter.State Task) (settled : nat) :
  Limiter.exec max events Limiter.initial 0 = Some (st, settled) ->
  (0 <= max ->
   Limiter.started st ++ Limiter.queue st = Limiter.calls events /\
   Z.of_nat (List.length (Limiter.started st))
   = Z.min (Z.of_nat (List.length (Limiter.calls events))) (max + Z.of_nat settled)) /\
  (max <= 0 -> Limiter.started st = [] /\ Limiter.queue st = Limiter.calls events).
Proof.
  intros Hrun. split.
  - intros Hmax.
    destruct (limiter_invariant Task max Hmax events st settled Hrun)
      as (Ha & Hb & Hf & Ho & Hs).
    split; [exact Ho|].
    rewrite <- Ho, length_app.
    destruct (Limiter.queue st) as [|r rest].
    + cbn [List.length]. lia.
    + specialize (Hf ltac:(discriminate)). cbn [List.length]. lia.
  - intros Hmax.
    assert (Hgen : forall (evs : list (Limiter.Event Task)) s n s' n',
               Limiter.active s = 0 -> Limiter.started s = [] ->
               Limiter.exec max evs s n = Some (s', n') ->
               Limiter.started s' = [] /\
               Limiter.queue s' = Limiter.queue s ++ Limiter.calls evs).
    { induction evs as [|[fn|] evs IH]; intros s n s' n' Hact Hstarted Hexec.
      - injection Hexec as <- <-. cbn. now rewrite app_nil_r.
      - cbn [Limiter.exec] in Hexec. unfold Limiter.limit in Hexec.
        destruct (Z.ltb_spec (Limiter.active s) max); [lia|].
        destruct (IH (Limiter.mkState (Limiter.active s) (Limiter.queue s ++ [fn])
                                      (Limiter.started s)) n s' n' Hact Hstarted Hexec)
          as (Hs' & Hq').
        split; [exact Hs'|]. rewrite Hq'. cbn [Limiter.queue].
        now rewrite <- app_assoc.
      - cbn [Limiter.exec] in Hexec. rewrite Hstarted in Hexec.
        destruct n; discriminate Hexec. }
    exact (Hgen events Limiter.initial 0%nat st settled eq_refl eq_refl Hrun).
Qed.

Lemma pLimit_fifo_witness :
  exists st : Limiter.State nat,
    Limiter.exec 2 [Limiter.Call 1%nat; Limiter.Call 2%nat; Limiter.Call 3%nat;
                    Limiter.Settled; Limiter.Call 4%nat] Limiter.initial 0
    = Some (st, 1%nat) /\
    Limiter.started st ++ Limiter.queue st = [1; 2; 3; 4]%nat /\
    Z.of_nat (List.length (Limiter.started st)) = 3.
Proof.
  eexists. split; [reflexivity|].
  destruct (pLimit_fifo nat 2 [Limiter.Call 1%nat; Limiter.Call 2%nat;
                               Limiter.Call 3%nat; Limiter.Settled;
                               Limiter.Call 4%nat] _ 1%nat eq_refl)
    as (Hfifo & _).
  destruct (Hfifo ltac:(lia)) as (Horder & Hcount).
  split; [exact Horder|exact Hcount].
Defined.

(** ** api_scanner.ts: paging *)

Section Paging.

Variable Tx : Type.
Variable pageSize : Z.
Variable v1 : Z -> outcome (list Tx).

Lemma firstn_add_skipn (a b : nat) (l : list Tx) :
  firstn (a + b) l = firstn a l ++ firstn b (skipn a l).
Proof.
  revert l; induction a as [|a IH]; intros l; [reflexivity|].
  destruct l as [|x l]; [cbn; now rewrite firstn_nil|].
  cbn [Nat.add firstn skipn app]. now rewrite IH.
Qed.

Lemma skipn_add (a b : nat) (l : list Tx) : skipn (a + b) l = skipn b (skipn a l).
Proof.
  revert l; induction a as [|a IH]; intros l; [reflexivity|].
  destruct l as [|x l]; [cbn; now rewrite skipn_nil|]. cbn. apply IH.
Qed.

(** What is pushed before the loop stays in front. *)
Lemma v1_loop_acc (n : nat) :
  forall offset transactions,
    ApiFetch.v1_loop pageSize v1 n offset transactions
    = (r <- ApiFetch.v1_loop pageSize v1 n offset [] ;; Done (transactions ++ r)).
Proof.
  induction n as [|n IH]; intros offset transactions.
  - cbn. now rewrite app_nil_r.
  - cbn [ApiFetch.v1_loop]. destruct (v1 offset) as [batch|e]; [|reflexivity].
    cbn [bind app].
    destruct ((Z.of_nat (List.length batch) =? 0)
              || (Z.of_nat (List.length batch) <? ApiFetch.limit pageSize)).
    + reflexivity.
    + rewrite IH. rewrite (IH _ batch).
      destruct (ApiFetch.v1_loop pageSize v1 n _ []) as [r|e]; [|reflexivity].
      cbn [bind]. now rewrite app_assoc.
Qed.

Variable all : list Tx.
Hypothesis limit_pos : 1 <= ApiFetch.limit pageSize.
Hypothesis served : ApiFetch.serves pageSize all v1.

Lemma v1_loop_serves (n : nat) :
  forall offset : nat,
    ApiFetch.v1_loop pageSize v1 n (Z.of_nat offset) []
    = Done (firstn (n * Z.to_nat (ApiFetch.limit pageSize)) (skipn offset all)).
Proof.
  set (k := Z.to_nat (ApiFetch.limit pageSize)).
  assert (Hk : (1 <= k)%nat) by (unfold k; lia).
  induction n as [|n IH]; intros offset; [reflexivity|].
  cbn [ApiFetch.v1_loop]. rewrite served by lia. rewrite Nat2Z.id. fold k.
  cbn [bind app].
  set (rest := skipn offset all).
  pose proof (firstn_le_length k rest) as Hle.
  destruct (Z.eqb_spec (Z.of_nat (List.length (firstn k rest))) 0) as [H0|Hn0];
    cbn [orb].
  - (* nothing left *)
    assert (Hrest : rest = []).
    { destruct rest as [|x rest']; [reflexivity|].
      destruct k; [lia|]. cbn in H0. lia. }
    rewrite Hrest. now rewrite !firstn_nil.
  - destruct (Z.ltb_spec (Z.of_nat (List.length (firstn k rest))) (ApiFetch.limit pageSize))
      as [Hshort|Hfull].
    + (* the last page *)
      f_equal. rewrite length_firstn in Hshort.
      assert (Hlen : (List.length rest < k)%nat) by (unfold k; lia).
      rewrite !firstn_all2 by (cbn; lia). reflexivity.
    + (* a full page *)
      rewrite length_firstn in Hfull.
      assert (Hlen : List.length (firstn k rest) = k)
        by (rewrite length_firstn; unfold k in *; lia).
      rewrite Hlen. rewrite <- Nat2Z.inj_add.
      rewrite v1_loop_acc, IH. cbn [bind]. f_equal.
      change (S n * k)%nat with (k + n * k)%nat.
      rewrite firstn_add_skipn. unfold rest. now rewrite skipn_add.
Qed.

End Paging.

(** X18.  The offset paging of [icpTransactions.fetchByAccount] is complete
    up to its cap.  When version 2 fails at once or gives nothing, and
    version 1 serves a listing [limit] items at a time from the offset asked
    for ([limit = min(100, pageSize) >= 1]), the result is the first
    [1000 * limit] transactions of the listing, in order: the whole listing
    when it is shorter than that, and silently cut otherwise. *)
Theorem fetchByAccount_offset_paging
        (Tx : Type) (pageSize : Z)
        (v2 : option string -> outcome (list Tx * option string))
        (v1 : Z -> outcome (list Tx)) (all : list Tx) (err : option string) :
  1 <= pageSize ->
  ApiFetch.serves pageSize all v1 ->
  ApiFetch.v2_loop pageSize v2 1000 None [] = ([], err) ->
  ApiFetch.fetchByAccount pageSize v2 v1
  = Done (firstn (1000 * Z.to_nat (ApiFetch.limit pageSize)) all) /\
  (Z.of_nat (List.length all) <= 1000 * ApiFetch.limit pageSize ->
   ApiFetch.fetchByAccount pageSize v2 v1 = Done all).
Proof.
  intros Hpage Hserves Hv2.
  assert (Hlimit : 1 <= ApiFetch.limit pageSize) by (unfold ApiFetch.limit; lia).
  assert (Hrun : ApiFetch.fetchByAccount pageSize v2 v1
                 = Done (firstn (1000 * Z.to_nat (ApiFetch.limit pageSize)) all)).
  { unfold ApiFetch.fetchByAccount. rewrite Hv2.
    pose proof (v1_loop_serves Tx pageSize v1 all Hlimit Hserves 1000 0) as Hloop.
    cbn [Z.of_nat skipn] in Hloop.
    destruct err; [exact Hloop|]. cbn [List.length Z.of_nat Z.ltb Z.compare].
    exact Hloop. }
  split; [exact Hrun|].
  intros Hshort. rewrite Hrun. f_equal. apply firstn_all2. lia.
Qed.

Lemma fetchByAccount_offset_paging_witness :
  ApiFetch.fetchByAccount 1000 Examples.v2_down Examples.v1_server
  = Done Examples.listing.
Proof.
  refine (proj2 (fetchByAccount_offset_paging Z 1000 Examples.v2_down
                   Examples.v1_server Examples.listing (Some "503"%string)
                   ltac:(lia) _ eq_refl) _).
  - intros offset Hoffset. reflexivity.
  - vm_compute. discriminate.
Defined.

(** X19.  The fallback of [icpTransactions.fetchByAccount] keeps what
    version 2 had delivered.  When version 2 throws after some pages, these
    pages stay in the array and the listing of version 1 is pushed behind
    them: with a version 1 that serves the listing, the result is the pages
    taken from version 2 followed by the first [1000 * limit] transactions
    of the listing, so the transactions of those pages occur twice. *)
Theorem fetchByAccount_fallback_keeps_pages
        (Tx : Type) (pageSize : Z)
        (v2 : option string -> outcome (list Tx * option string))
        (v1 : Z -> outcome (list Tx)) (all pages : list Tx) (e : string) :
  1 <= pageSize ->
  ApiFetch.serves pageSize all v1 ->
  ApiFetch.v2_loop pageSize v2 1000 None [] = (pages, Some e) ->
  ApiFetch.fetchByAccount pageSize v2 v1
  = Done (pages ++ firstn (1000 * Z.to_nat (ApiFetch.limit pageSize)) all).
Proof.
  intros Hpage Hserves Hv2.
  assert (Hlimit : 1 <= ApiFetch.limit pageSize) by (unfold ApiFetch.limit; lia).
  unfold ApiFetch.fetchByAccount. rewrite Hv2, v1_loop_acc.
  pose proof (v1_loop_serves Tx pageSize v1 all Hlimit Hserves 1000 0) as Hloop.
  cbn [Z.of_nat skipn] in Hloop. rewrite Hloop. reflexivity.
Qed.

Lemma fetchByAccount_fallback_keeps_pages_witness :
  ApiFetch.fetchByAccount 1000 Examples.v2_flaky Examples.v1_server
  = Done (firstn 100 Examples.listing ++ Examples.listing).
Proof.
  refine (fetchByAccount_fallback_keeps_pages Z 1000 Examples.v2_flaky
            Examples.v1_server Examples.listing (firstn 100 Examples.listing)
            "timeout" ltac:(lia) _ eq_refl).
  intros offset Hoffset. reflexivity.
Defined.

(** ** api_scanner.ts: the rows of strict mode *)

Section StrictRows.

Variable config : ApiScanner.Config.
Variable toISO_text : string -> string.

Hypothesis strict : ApiScanner.strictSubaccountMatch config = true.
Hypothesis own_sub :
  ApiScanner.normalizeSubaccount (Some (ApiScanner.wallet_subaccountHex config))
  <> ""%string.

Let watched : string :=
  ApiScanner.normalizeSubaccount (Some (ApiScanner.wallet_subaccountHex config)).

(** The matcher of the mapping, which is called without the sub-identity of
    the wallet, accepts the default sub-identity of the owner only. *)
Lemma mapping_matcher (account : option ApiScanner.Account) :
  ApiScanner.matchesIcrcAccount config account (ApiScanner.wallet_principal config) None
  = true ->
  exists acc, account = Some acc /\
              ApiScanner.owner acc = Some (ApiScanner.wallet_principal config) /\
              ApiScanner.normalizeSubaccount (ApiScanner.subaccount acc) = ""%string.
Proof.
  unfold ApiScanner.matchesIcrcAccount. destruct account as [acc|]; [|discriminate].
  destruct (ApiScanner.owner acc) as [[|c o]|] eqn:Ho; try discriminate.
  destruct (String.eqb_spec (String c o) (ApiScanner.wallet_principal config))
    as [Heq|]; [|discriminate].
  rewrite strict. cbn [negb]. unfold ApiScanner.equalSubaccounts.
  intros H. apply String.eqb_eq in H.
  exists acc. split; [reflexivity|]. split; [now rewrite Ho, <- Heq|exact H].
Qed.

Lemma strict_side_spec (side : option ApiScanner.Account) :
  ApiScanner.strict_side config side watched = true ->
  exists acc, side = Some acc /\
              ApiScanner.owner acc = Some (ApiScanner.wallet_principal config) /\
              ApiScanner.normalizeSubaccount (ApiScanner.subaccount acc) = watched.
Proof.
  unfold ApiScanner.strict_side. destruct side as [acc|]; [|discriminate].
  destruct (ApiScanner.owner acc) as [o|] eqn:Ho; [|discriminate].
  intros H. apply andb_prop in H as [H1 H2].
  apply String.eqb_eq in H1, H2.
  exists acc. split; [reflexivity|]. split; [now rewrite Ho, H1|exact H2].
Qed.

Lemma strict_row (tx : ApiScanner.IcrcTx) (row : CsvRow) :
  ApiScanner.passesStrictSubaccountFilter
    config tx (Some (ApiScanner.wallet_subaccountHex config)) = true ->
  ApiScanner.fromIcrcTransaction config toISO_text tx = Some row ->
  exists from to : ApiScanner.Account,
    ApiScanner.icrc_from tx = Some from /\ ApiScanner.icrc_to tx = Some to /\
    ApiScanner.owner from = Some (ApiScanner.wallet_principal config) /\
    ApiScanner.owner to = Some (ApiScanner.wallet_principal config) /\
    ((direction row = inflow /\
      ApiScanner.normalizeSubaccount (ApiScanner.subaccount from) = watched /\
      ApiScanner.normalizeSubaccount (ApiScanner.subaccount to) = ""%string) \/
     (direction row = outflow /\
      ApiScanner.normalizeSubaccount (ApiScanner.subaccount from) = ""%string /\
      ApiScanner.normalizeSubaccount (ApiScanner.subaccount to) = watched)).
Proof.
  unfold ApiScanner.passesStrictSubaccountFilter, ApiScanner.fromIcrcTransaction.
  rewrite strict. cbn [negb orb]. fold watched.
  assert (Hraw : ApiScanner.or_str (Some (ApiScanner.wallet_subaccountHex config)) ""
                 <> ""%string).
  { intros Hempty. apply own_sub. unfold ApiScanner.normalizeSubaccount.
    rewrite Hempty. reflexivity. }
  destruct (ApiScanner.or_str (Some (ApiScanner.wallet_subaccountHex config)) "")
    as [|c raw]; [now elim Hraw|].
  intros Hfilter.
  destruct (negb (existsb _ _)); [discriminate|].
  destruct (ApiScanner.matchesIcrcAccount config (ApiScanner.icrc_from tx) _ None)
    eqn:Hfrom;
    destruct (ApiScanner.matchesIcrcAccount config (ApiScanner.icrc_to tx) _ None)
      eqn:Hto;
    cbn [andb]; intros [= <-]; cbn [direction].
  - (* both sides are the default sub-identity: the filter rejects *)
    exfalso.
    destruct (mapping_matcher _ Hfrom) as (f & Hf & _ & Hfs).
    destruct (mapping_matcher _ Hto) as (t & Ht & _ & Hts).
    apply orb_prop in Hfilter as [H|H]; apply strict_side_spec in H;
      destruct H as (a & Ha & _ & Hs); (unfold watched in *; congruence).
  - (* the sender is the default sub-identity *)
    destruct (mapping_matcher _ Hfrom) as (f & Hf & Hfo & Hfs).
    apply orb_prop in Hfilter as [H|H]; apply strict_side_spec in H;
      destruct H as (a & Ha & Hao & Hs).
    + exfalso. (unfold watched in *; congruence).
    + exists f, a. repeat split; try assumption. right. repeat split; assumption.
  - (* the receiver is the default sub-identity *)
    destruct (mapping_matcher _ Hto) as (t & Ht & Hto' & Hts).
    apply orb_prop in Hfilter as [H|H]; apply strict_side_spec in H;
      destruct H as (a & Ha & Hao & Hs).
    + exists a, t. repeat split; try assumption. left. repeat split; assumption.
    + exfalso. (unfold watched in *; congruence).
Qed.

End StrictRows.

Lemma fromIcrcTransaction_principals (config : ApiScanner.Config)
      (toISO_text : string -> string) (tx : ApiScanner.IcrcTx) (row : CsvRow) :
  ApiScanner.fromIcrcTransaction config toISO_text tx = Some row ->
  from_principal row = ApiScanner.owner_of (ApiScanner.icrc_from tx) /\
  to_principal row = ApiScanner.owner_of (ApiScanner.icrc_to tx).
Proof.
  unfold ApiScanner.fromIcrcTransaction.
  destruct (negb (existsb _ _)); [discriminate|].
  destruct (ApiScanner.matchesIcrcAccount config (ApiScanner.icrc_from tx) _ None),
           (ApiScanner.matchesIcrcAccount config (ApiScanner.icrc_to tx) _ None);
    cbn [andb]; intros [= <-]; split; reflexivity.
Qed.

(** X20.  The rows of api_scanner.ts in strict mode, when the wallet has a
    sub-identity of its own.  Every row that [scanIcrcToken] appends comes
    from a transfer between two accounts of the wallet owner, one with the
    watched sub-identity and one with the default sub-identity; a transfer
    with any other owner on one side, or between two accounts with the
    watched sub-identity, gives no row.  The row is labelled inflow when the
    watched sub-identity is the sender and outflow when it is the receiver. *)
Theorem strict_mode_rows (config : ApiScanner.Config) (toISO_text : string -> string)
        (txs : list ApiScanner.IcrcTx) (row : CsvRow) :
  ApiScanner.strictSubaccountMatch config = true ->
  ApiScanner.normalizeSubaccount (Some (ApiScanner.wallet_subaccountHex config))
  <> ""%string ->
  In row (ApiScanner.scanIcrcToken_rows config toISO_text txs) ->
  let watched :=
    ApiScanner.normalizeSubaccount (Some (ApiScanner.wallet_subaccountHex config)) in
  exists (tx : ApiScanner.IcrcTx) (from to : ApiScanner.Account),
    In tx txs /\
    ApiScanner.icrc_from tx = Some from /\ ApiScanner.icrc_to tx = Some to /\
    ApiScanner.owner from = Some (ApiScanner.wallet_principal config) /\
    ApiScanner.owner to = Some (ApiScanner.wallet_principal config) /\
    from_principal row = ApiScanner.wallet_principal config /\
    to_principal row = ApiScanner.wallet_principal config /\
    ((direction row = inflow /\
      ApiScanner.normalizeSubaccount (ApiScanner.subaccount from) = watched /\
      ApiScanner.normalizeSubaccount (ApiScanner.subaccount to) = ""%string) \/
     (direction row = outflow /\
      ApiScanner.normalizeSubaccount (ApiScanner.subaccount from) = ""%string /\
      ApiScanner.normalizeSubaccount (ApiScanner.subaccount to) = watched)).
Proof.
  intros Hstrict Hsub Hin. cbv zeta.
  unfold ApiScanner.scanIcrcToken_rows in Hin.
  apply in_flat_map in Hin as (tx & Htx & Hrow).
  destruct (ApiScanner.passesStrictSubaccountFilter config tx _) eqn:Hfilter;
    [|destruct Hrow].
  destruct (ApiScanner.fromIcrcTransaction config toISO_text tx) as [row'|] eqn:Hmap;
    [|destruct Hrow].
  destruct Hrow as [->|[]].
  destruct (strict_row config toISO_text Hstrict Hsub tx row Hfilter Hmap)
    as (from & to & Hf & Ht & Hfo & Hto & Hdir).
  destruct (fromIcrcTransaction_principals config toISO_text tx row Hmap) as (Hfp & Htp).
  exists tx, from, to.
  split; [exact Htx|]. split; [exact Hf|]. split; [exact Ht|].
  split; [exact Hfo|]. split; [exact Hto|].
  split; [rewrite Hfp, Hf; cbn; rewrite Hfo; apply or_else_empty|].
  split; [rewrite Htp, Ht; cbn; rewrite Hto; apply or_else_empty|].
  exact Hdir.
Qed.

Lemma strict_mode_rows_witness :
  exists row : CsvRow,
    ApiScanner.scanIcrcToken_rows
      Examples.strict_config (fun t => t)
      [Examples.transfer_between Examples.watched_side Examples.default_side]
    = [row] /\
    direction row = inflow /\
    from_principal row = ApiScanner.wallet_principal Examples.strict_config.
Proof.
  eexists. split; [reflexivity|]. split; [reflexivity|].
  destruct (strict_mode_rows
              Examples.strict_config (fun t => t)
              [Examples.transfer_between Examples.watched_side Examples.default_side]
              _ eq_refl ltac:(vm_compute; discriminate) (or_introl eq_refl))
    as (tx & from & to & _ & _ & _ & _ & _ & Hfrom & _).
  exact Hfrom.
Defined.

(** ** Sub-identities as bytes and as hexadecimal text *)

Section SubIdentityForms.

Local Open Scope string_scope.

Lemma number_of_byte_inj (x y : Byte.byte) :
  Hex.number_of_byte x = Hex.number_of_byte y -> x = y.
Proof.
  unfold Hex.number_of_byte. intros [= H]. apply N2Z.inj in H.
  pose proof (Byte.of_to_N x) as Hx. rewrite H, Byte.of_to_N in Hx.
  now injection Hx.
Qed.

Lemma map_number_of_byte_inj (a : list Byte.byte) :
  forall b, map Hex.number_of_byte a = map Hex.number_of_byte b -> a = b.
Proof.
  induction a as [|x a IH]; intros [|y b] Hmap; try discriminate; [reflexivity|].
  cbn [map] in Hmap. injection Hmap as Hxy Hrest.
  f_equal; [apply number_of_byte_inj; unfold Hex.number_of_byte; now rewrite Hxy|].
  now apply IH.
Qed.

Lemma toHex_inj (a b : list Byte.byte) : Js.toHex a = Js.toHex b -> a = b.
Proof.
  intros H.
  pose proof (hexToBytes_of_toHex (Js.toHex a) a
                ltac:(now rewrite strip_0x_toHex, toLowerCase_toHex)) as Ha.
  pose proof (hexToBytes_of_toHex (Js.toHex b) b
                ltac:(now rewrite strip_0x_toHex, toLowerCase_toHex)) as Hb.
  rewrite H, Hb in Ha. injection Ha as Hmap.
  symmetry. now apply map_number_of_byte_inj.
Qed.

Lemma all_zero_text (a : list Byte.byte) :
  Parse.all_chars (fun c => Ascii.eqb c "0") (Js.toHex a)
  = forallb (fun b => Byte.eqb b Byte.x00) a.
Proof.
  induction a as [|b a IH]; [reflexivity|].
  cbn [Js.toHex forallb]. rewrite byte_toHex_digits, all_chars_append, IH.
  f_equal. destruct b; reflexivity.
Qed.

(** [utils.normalizeSubaccount] on the text of a non-empty byte array. *)
Lemma normalizeSubaccount_toHex (a : list Byte.byte) :
  a <> [] ->
  ApiScanner.normalizeSubaccount (Some (Js.toHex a))
  = if forallb (fun b => Byte.eqb b Byte.x00) a then "" else Js.toHex a.
Proof.
  intros Hne. unfold ApiScanner.normalizeSubaccount, ApiScanner.or_str.
  cbn [ApiScanner.nullish]. rewrite or_else_empty, strip_0x_toHex, toLowerCase_toHex.
  pose proof (length_toHex a) as Hlen. pose proof (all_zero_text a) as Hzero.
  destruct (Js.toHex a) as [|c s] eqn:Htext.
  - destruct a; [now elim Hne|cbn in Hlen; lia].
  - unfold ApiScanner.all_zeros. rewrite Hzero. reflexivity.
Qed.

End SubIdentityForms.

(** X21.  The two scanners normalize a sub-identity of 32 bytes alike.  For
    byte arrays [a] and [b] of 32 bytes, [utils.normalizeSubaccount] of
    api_scanner.ts on their hexadecimal texts and [normalizeSub] of
    scanner.ts on the bytes agree: one gives the empty text exactly when the
    other gives null, and the normalized texts of [a] and [b] are equal
    exactly when their normalized byte arrays are.  Off 32 bytes they differ:
    a single zero byte is the default sub-identity for api_scanner.ts and a
    sub-identity of its own for scanner.ts. *)
Theorem sub_identity_forms_agree (a b : list Byte.byte) :
  List.length a = 32%nat -> List.length b = 32%nat ->
  (ApiScanner.normalizeSubaccount (Some (Js.toHex a)) = ""%string
   <-> Icrc.normalizeSub (Some a) = None) /\
  (ApiScanner.normalizeSubaccount (Some (Js.toHex a))
   = ApiScanner.normalizeSubaccount (Some (Js.toHex b))
   <-> Icrc.normalizeSub (Some a) = Icrc.normalizeSub (Some b)) /\
  ApiScanner.normalizeSubaccount (Some (Js.toHex [Byte.x00])) = ""%string /\
  Icrc.normalizeSub (Some [Byte.x00]) = Some [Byte.x00].
Proof.
  intros Ha Hb.
  assert (Hna : a <> []) by (intros ->; discriminate Ha).
  assert (Hnb : b <> []) by (intros ->; discriminate Hb).
  rewrite !normalizeSubaccount_toHex by assumption.
  unfold Icrc.normalizeSub. rewrite Ha, Hb. cbn [Nat.eqb andb].
  pose proof (length_toHex a) as Hla. pose proof (length_toHex b) as Hlb.
  assert (Hta : Js.toHex a <> ""%string)
    by (intros H; rewrite H, Ha in Hla; discriminate Hla).
  assert (Htb : Js.toHex b <> ""%string)
    by (intros H; rewrite H, Hb in Hlb; discriminate Hlb).
  split; [|split; [|split; reflexivity]].
  - destruct (forallb _ a); split; try reflexivity; try discriminate.
    intros H. now elim Hta.
  - destruct (forallb _ a), (forallb _ b); split; intros H;
      try reflexivity; try discriminate H.
    + now elim Htb.
    + now elim Hta.
    + f_equal. now apply toHex_inj.
    + injection H as ->. reflexivity.
Qed.

Lemma sub_identity_forms_agree_witness :
  ApiScanner.normalizeSubaccount (Some (Js.toHex Examples.subaccount_one))
  = ApiScanner.normalizeSubaccount (Some (Js.toHex Examples.other_bytes))
  <-> Icrc.normalizeSub (Some Examples.subaccount_one)
      = Icrc.normalizeSub (Some Examples.other_bytes).
Proof.
  destruct (sub_identity_forms_agree Examples.subaccount_one Examples.other_bytes
              eq_refl eq_refl) as (_ & Heq & _).
  exact Heq.
Defined.

(** ** The sequential scanner queries the pages of the partition *)

Section SequentialPages.

Variable query_blocks : Z -> Z -> outcome Scan.QueryBlocksResponse.
Variable archive_get_blocks : Scan.ArchivedRange -> outcome (option (list Icp.Block)).
Variable handle : Icp.Block -> Z -> option CsvRow.
Variable handle_archived : Icp.Block -> Z -> Scan.Archived.
Variables MAX_BLOCKS_PER_LEDGER PAGE startIndex top : Z.

Hypothesis Hstart : 0 <= startIndex.
Hypothesis Hpage : 1 <= PAGE.
Hypothesis Hexact : PAGE <= 2 ^ 53 \/ top - startIndex + 1 <= 2 ^ 53.

Let request (s : Scanner.Segment) : Scan.Query := (Scanner.start s, Scanner.length s).

(** The requests for the window below [cursor]. *)
Let pages (cursor : Z) : list Scan.Query :=
  map (fun k => (Z.max startIndex (cursor - (Z.of_nat k + 1) * PAGE + 1),
                 Z.min PAGE (cursor - startIndex + 1 - Z.of_nat k * PAGE)))
      (seq 0 (Z.to_nat (Segments.count startIndex cursor PAGE))).

Lemma page_blocks_fetches (bs : list Icp.Block) (first : Z) :
  forall i st,
    Scan.fetches (Scan.page_blocks handle bs first i st) = Scan.fetches st.
Proof.
  induction bs as [|b bs IH]; intros i st; [reflexivity|].
  cbn [Scan.page_blocks]. rewrite IH. destruct (handle b (first + i)); reflexivity.
Qed.

Lemma archive_blocks_fetches (bs : list Icp.Block) (start : Z) :
  forall i st,
    Scan.fetches (Scan.archive_blocks handle_archived MAX_BLOCKS_PER_LEDGER bs start i st)
    = Scan.fetches st.
Proof.
  induction bs as [|b bs IH]; intros i st; [reflexivity|].
  cbn [Scan.archive_blocks].
  destruct (Scan.scanned st <? MAX_BLOCKS_PER_LEDGER); [|reflexivity].
  destruct (handle_archived b (start + i)) as [|[row|]]; rewrite IH; reflexivity.
Qed.

Lemma archived_ranges_fetches (ranges : list Scan.ArchivedRange) :
  forall st,
    Scan.fetches (fst (Scan.archived_ranges archive_get_blocks handle_archived
                                            MAX_BLOCKS_PER_LEDGER ranges st))
    = Scan.fetches st.
Proof.
  induction ranges as [|r ranges IH]; intros st; [reflexivity|].
  cbn [Scan.archived_ranges].
  destruct (MAX_BLOCKS_PER_LEDGER <=? Scan.scanned st); [reflexivity|].
  destruct (archive_get_blocks r) as [[bs|]|e]; [| |reflexivity].
  - rewrite IH. apply archive_blocks_fetches.
  - apply IH.
Qed.

Lemma page_blocks_errors (bs : list Icp.Block) (first : Z) :
  forall i st,
    Scan.errors (Scan.page_blocks handle bs first i st) = Scan.errors st.
Proof.
  induction bs as [|b bs IH]; intros i st; [reflexivity|].
  cbn [Scan.page_blocks]. rewrite IH. destruct (handle b (first + i)); reflexivity.
Qed.

Lemma archive_blocks_errors (bs : list Icp.Block) (start : Z) :
  forall i st,
    Scan.errors (Scan.archive_blocks handle_archived MAX_BLOCKS_PER_LEDGER bs start i st)
    = Scan.errors st.
Proof.
  induction bs as [|b bs IH]; intros i st; [reflexivity|].
  cbn [Scan.archive_blocks].
  destruct (Scan.scanned st <? MAX_BLOCKS_PER_LEDGER); [|reflexivity].
  destruct (handle_archived b (start + i)) as [|[row|]]; rewrite IH; reflexivity.
Qed.

(** The loop over the archived ranges logs nothing itself; when it is left
    by an exception, that exception is the one of an archive call. *)
Lemma archived_ranges_errors (ranges : list Scan.ArchivedRange) :
  forall st,
    Scan.errors (fst (Scan.archived_ranges archive_get_blocks handle_archived
                                           MAX_BLOCKS_PER_LEDGER ranges st))
    = Scan.errors st /\
    (forall e,
        snd (Scan.archived_ranges archive_get_blocks handle_archived
                                  MAX_BLOCKS_PER_LEDGER ranges st) = Some e ->
        exists range, In range ranges /\ archive_get_blocks range = Thrown e).
Proof.
  induction ranges as [|r ranges IH]; intros st.
  - split; [reflexivity|]. intros e He. discriminate He.
  - cbn [Scan.archived_ranges].
    destruct (MAX_BLOCKS_PER_LEDGER <=? Scan.scanned st).
    { split; [reflexivity|]. intros e He. discriminate He. }
    destruct (archive_get_blocks r) as [[bs|]|e0] eqn:Hcall.
    + destruct (IH (Scan.archive_blocks handle_archived MAX_BLOCKS_PER_LEDGER bs
                                        (Scan.range_start r) 0 st)) as [Herr Hthrown].
      split; [rewrite Herr; apply archive_blocks_errors|].
      intros e He. destruct (Hthrown e He) as (range & Hin & Hrange).
      exists range. split; [right; exact Hin|exact Hrange].
    + destruct (IH st) as [Herr Hthrown].
      split; [exact Herr|].
      intros e He. destruct (Hthrown e He) as (range & Hin & Hrange).
      exists range. split; [right; exact Hin|exact Hrange].
    + split; [reflexivity|].
      intros e He. cbn [snd] in He. injection He as <-.
      exists r. split; [left; reflexivity|exact Hcall].
Qed.

(** The loop ends.  Its queries are the first [k] pages of the window; a
    query that throws is the last one sent and is logged; the loop stops
    before the end of the window only behind a logged failure or with the
    block budget used up. *)
Lemma scan_loop_pages (fuel : nat) :
  forall cursor st,
    startIndex - 1 <= cursor <= top ->
    (Z.to_nat (cursor - startIndex + 1) < fuel)%nat ->
    exists st' k,
      Scan.scan_loop query_blocks archive_get_blocks handle handle_archived
                     MAX_BLOCKS_PER_LEDGER PAGE fuel startIndex cursor st
      = Some (Done st') /\
      Scan.fetches st' = Scan.fetches st ++ firstn k (pages cursor) /\
      (k <= List.length (pages cursor))%nat /\
      (pages cursor <> [] -> Scan.scanned st < MAX_BLOCKS_PER_LEDGER -> (1 <= k)%nat) /\
      (forall i q e,
          (i < k)%nat -> nth_error (pages cursor) i = Some q ->
          query_blocks (fst q) (snd q) = Thrown e ->
          S i = k /\ Scan.errors st' = Scan.errors st ++ [(q, e)]) /\
      ((Scan.errors st' = Scan.errors st /\
        (k = List.length (pages cursor) \/ MAX_BLOCKS_PER_LEDGER <= Scan.scanned st')) \/
       (exists q e,
           (1 <= k)%nat /\ nth_error (pages cursor) (pred k) = Some q /\
           Scan.errors st' = Scan.errors st ++ [(q, e)] /\
           (query_blocks (fst q) (snd q) = Thrown e \/
            exists res range,
              query_blocks (fst q) (snd q) = Done res /\
              In range (Scan.archived_blocks res) /\
              archive_get_blocks range = Thrown e))).
Proof.
  induction fuel as [|fuel IH]; intros cursor st Hc Hf; [lia|].
  cbn [Scan.scan_loop].
  destruct (Z.leb_spec startIndex cursor) as [Hle|Hgt]; cbn [andb].
  2:{ assert (Hnone : pages cursor = []).
      { unfold pages. rewrite (count_none startIndex PAGE Hpage cursor) by lia.
        reflexivity. }
      exists st, 0%nat. rewrite Hnone.
      split; [reflexivity|]. split; [now rewrite app_nil_r|].
      split; [cbn; lia|]. split; [intros Hne; now elim Hne|].
      split; [intros i q e Hi; lia|].
      left. split; [reflexivity|left; reflexivity]. }
  destruct (Z.ltb_spec (Scan.scanned st) MAX_BLOCKS_PER_LEDGER) as [Hbudget|Hspent].
  2:{ exists st, 0%nat.
      split; [reflexivity|]. split; [now rewrite app_nil_r|].
      split; [lia|]. split; [intros _ Hlt; lia|].
      split; [intros i q e Hi; lia|].
      left. split; [reflexivity|right; exact Hspent]. }
  rewrite segment_length_min by lia.
  set (len := Z.min PAGE (cursor - startIndex + 1)).
  assert (Hlen : 1 <= len <= PAGE /\ len <= cursor - startIndex + 1)
    by (unfold len; lia).
  (* the first page of the window *)
  assert (Hpages : pages cursor
                   = (cursor - (len - 1), len) :: pages (cursor - (len - 1) - 1)).
  { unfold pages.
    destruct (Z_le_gt_dec (cursor - startIndex + 1) PAGE) as [Hfit|Hmore].
    - rewrite (count_one startIndex PAGE Hpage cursor) by lia.
      rewrite (count_none startIndex PAGE Hpage (cursor - (len - 1) - 1))
        by (unfold len; lia).
      change (Z.to_nat 1) with 1%nat. cbn [Z.to_nat seq map]. change (Z.of_nat 0) with 0.
      f_equal. unfold len. f_equal; lia.
    - destruct (count_more startIndex PAGE Hpage cursor ltac:(lia)) as [Hcount Hpos].
      replace (cursor - (len - 1) - 1) with (cursor - PAGE) by (unfold len; lia).
      rewrite Hcount, Z2Nat.inj_add by lia.
      change (Z.to_nat 1) with 1%nat. cbn [Nat.add seq map].
      rewrite <- seq_shift, map_map. change (Z.of_nat 0) with 0. f_equal.
      + unfold len. f_equal; lia.
      + apply map_ext. intros k. f_equal; lia. }
  rewrite Hpages.
  set (q0 := (cursor - (len - 1), len)).
  set (rest := pages (cursor - (len - 1) - 1)).
  destruct (query_blocks (cursor - (len - 1)) len) as [res|e0] eqn:Hquery.
  2:{ eexists _, 1%nat. split; [reflexivity|].
      cbn [Scan.log_error Scan.log_fetch Scan.fetches Scan.errors firstn
           List.length nth_error pred].
      split; [reflexivity|]. split; [lia|]. split; [lia|]. split.
      - intros i q e Hi Hnth Hthrown.
        assert (i = 0%nat) by lia. subst i. cbn [nth_error] in Hnth.
        injection Hnth as <-. unfold q0 in Hthrown. cbn [fst snd] in Hthrown.
        rewrite Hquery in Hthrown. injection Hthrown as <-.
        split; reflexivity.
      - right. exists q0, e0. split; [lia|]. split; [reflexivity|].
        split; [reflexivity|]. left. exact Hquery. }
  pose proof (archived_ranges_fetches
                (Scan.archived_blocks res)
                (Scan.page_blocks handle (Scan.blocks res) (Scan.first_block_index res) 0
                                  (Scan.log_fetch q0 st)))
    as Harch.
  rewrite page_blocks_fetches in Harch. cbn [Scan.log_fetch Scan.fetches] in Harch.
  destruct (archived_ranges_errors
              (Scan.archived_blocks res)
              (Scan.page_blocks handle (Scan.blocks res) (Scan.first_block_index res) 0
                                (Scan.log_fetch q0 st)))
    as [Herr Hthrown].
  rewrite page_blocks_errors in Herr. cbn [Scan.log_fetch Scan.errors] in Herr.
  fold q0.
  destruct (Scan.archived_ranges archive_get_blocks handle_archived
                                 MAX_BLOCKS_PER_LEDGER (Scan.archived_blocks res) _)
    as [st2 [e0|]]; cbn [fst snd] in Harch, Herr, Hthrown.
  - destruct (Hthrown e0 eq_refl) as (range & Hin & Hrange).
    eexists _, 1%nat. split; [reflexivity|].
    cbn [Scan.log_error Scan.fetches Scan.errors firstn List.length nth_error pred].
    split; [exact Harch|]. split; [lia|]. split; [lia|]. split.
    + intros i q e Hi Hnth Hq.
      assert (i = 0%nat) by lia. subst i. cbn [nth_error] in Hnth.
      injection Hnth as <-. unfold q0 in Hq. cbn [fst snd] in Hq.
      rewrite Hquery in Hq. discriminate Hq.
    + right. exists q0, e0. split; [lia|]. split; [reflexivity|].
      split; [exact (f_equal (fun l => l ++ [(q0, e0)]) Herr)|].
      right. exists res, range. repeat split; assumption.
  - destruct (IH (cursor - (len - 1) - 1)
                 (Scan.add_scanned (Z.of_nat (List.length (Scan.blocks res))) st2)
                 ltac:(lia) ltac:(lia))
      as (st' & k & Hrun & Hfetches & Hk & _ & Hfail & Hstop).
    fold rest in Hfetches, Hk, Hfail, Hstop.
    cbn [Scan.add_scanned Scan.fetches Scan.errors] in Hfetches, Hfail, Hstop.
    rewrite Herr in Hfail, Hstop.
    exists st', (S k). split; [exact Hrun|]. split.
    { rewrite Hfetches. cbn [firstn].
      etransitivity; [apply (f_equal (fun l => l ++ _) Harch)|].
      now rewrite <- app_assoc. }
    split; [cbn [List.length]; lia|]. split; [lia|]. split.
    + intros i q e Hi Hnth Hq. destruct i as [|i].
      * cbn [nth_error] in Hnth. injection Hnth as <-.
        unfold q0 in Hq. cbn [fst snd] in Hq. rewrite Hquery in Hq. discriminate Hq.
      * cbn [nth_error] in Hnth.
        destruct (Hfail i q e ltac:(lia) Hnth Hq) as [Hlast Herrors].
        split; [lia|exact Herrors].
    + destruct Hstop as [[Hsame Hend]|(q & e & Hpos & Hnth & Herrors & Hcause)].
      * left. split; [exact Hsame|].
        destruct Hend as [Hend|Hend]; [left; cbn [List.length]; lia|right; exact Hend].
      * right. exists q, e. split; [lia|]. split.
        { destruct k as [|k]; [lia|]. cbn [pred nth_error] in *. exact Hnth. }
        split; [exact Herrors|exact Hcause].
Qed.

End SequentialPages.

(** X22.  The sequential [scanIcpLedger] walks the pages of [buildSegments]
    and stops early only for a reason.  For a chain of any length, a block
    budget that is not negative and any answers of the ledger and of its
    archives, the scan loop ends without throwing, and the requests it sent
    to [query_blocks] are, in order, the first [k] segments (start and
    length) that [buildSegments] makes of the same window with the page size
    1000.  With a window that is not empty and a positive budget at least one
    request is sent.  A request whose query throws is the last one sent and
    is logged.  Either nothing is logged, and then the loop went through all
    the segments or the count of scanned blocks reached the budget; or
    exactly one failure is logged, that of the last request sent, whose query
    or one of whose archive calls threw the logged exception. *)
Theorem sequential_scan_pages
        (symbol : string) (decimals : Z) (icpAccountIdHex : string)
        (Date_toISOString : Js.number -> string) (CUTOFF_MS MAX_BLOCKS_PER_LEDGER : Z)
        (query_blocks : Z -> Z -> outcome Scan.QueryBlocksResponse)
        (archive_get_blocks : Scan.ArchivedRange -> outcome (option (list Icp.Block)))
        (chainLength : Z) (fuel : nat) :
  0 <= chainLength ->
  0 <= MAX_BLOCKS_PER_LEDGER ->
  (Z.to_nat chainLength < fuel)%nat ->
  let window := Scanner.scanWindow chainLength MAX_BLOCKS_PER_LEDGER in
  exists (st : Scan.State Scan.Query) (k : nat) (segs : list Scanner.Segment),
    Ledgers.scanIcpLedger_sequential symbol decimals icpAccountIdHex Date_toISOString
                                     CUTOFF_MS MAX_BLOCKS_PER_LEDGER
                                     query_blocks archive_get_blocks fuel chainLength
    = Some (Done st) /\
    Scanner.buildSegments fuel (fst window) (snd window) 1000 = Some (Done segs) /\
    let requests : list Scan.Query :=
      map (fun s => (Scanner.start s, Scanner.length s)) segs in
    Scan.fetches st = firstn k requests /\
    (k <= List.length requests)%nat /\
    (requests <> [] -> 0 < MAX_BLOCKS_PER_LEDGER -> (1 <= k)%nat) /\
    (forall (i : nat) (q : Scan.Query) (e : string),
        (i < k)%nat -> nth_error requests i = Some q ->
        query_blocks (fst q) (snd q) = Thrown e ->
        S i = k /\ Scan.errors st = [(q, e)]) /\
    ((Scan.errors st = [] /\
      (k = List.length requests \/ MAX_BLOCKS_PER_LEDGER <= Scan.scanned st)) \/
     (exists (q : Scan.Query) (e : string),
         (1 <= k)%nat /\ nth_error requests (pred k) = Some q /\
         Scan.errors st = [(q, e)] /\
         (query_blocks (fst q) (snd q) = Thrown e \/
          exists (res : Scan.QueryBlocksResponse) (range : Scan.ArchivedRange),
            query_blocks (fst q) (snd q) = Done res /\
            In range (Scan.archived_blocks res) /\
            archive_get_blocks range = Thrown e))).
Proof.
  intros Hchain Hmax Hfuel. cbv zeta.
  unfold Ledgers.scanIcpLedger_sequential, Scan.scan_sequential, Scanner.buildSegments.
  rewrite scanWindow_spec. cbn [fst snd].
  set (startIndex := Z.max 0 (chainLength - 1 - MAX_BLOCKS_PER_LEDGER)).
  destruct (scan_loop_pages
              query_blocks archive_get_blocks
              (Icp.handleBlock_sequential symbol decimals icpAccountIdHex
                                          Date_toISOString CUTOFF_MS)
              (Ledgers.handle_archived_sequential symbol decimals icpAccountIdHex
                                                  Date_toISOString CUTOFF_MS)
              MAX_BLOCKS_PER_LEDGER 1000 startIndex (chainLength - 1)
              ltac:(lia) ltac:(left; lia)
              fuel (chainLength - 1) Scan.initial
              ltac:(unfold startIndex; lia) ltac:(unfold startIndex; lia))
    as (st & k & Hrun & Hfetches & Hk & Hfirst & Hfail & Hstop).
  cbn [Scan.initial Scan.fetches Scan.errors Scan.scanned Scan.blocksSeen app]
    in Hfetches, Hfirst, Hfail, Hstop.
  exists st, k, (Segments.all startIndex (chainLength - 1) 1000).
  split; [exact Hrun|]. split.
  { rewrite (buildSegments_loop_closed_form
               startIndex 1000 (chainLength - 1)
               ltac:(unfold startIndex; lia) ltac:(lia) ltac:(left; lia)
               fuel (chainLength - 1) 0 [])
      by (unfold startIndex; lia).
    reflexivity. }
  unfold Segments.all. rewrite map_map.
  cbn [Segments.nth Scanner.start Scanner.length].
  split; [exact Hfetches|]. split; [exact Hk|].
  split; [intros Hne Hpos; apply Hfirst; [exact Hne|exact Hpos]|].
  split; [exact Hfail|exact Hstop].
Qed.

Lemma sequential_scan_pages_witness :
  exists (st : Scan.State Scan.Query) (k : nat) (segs : list Scanner.Segment),
    Ledgers.scanIcpLedger_sequential "ICP" 8 Examples.watched_hex Examples.no_date
                                     Examples.TO_MS 1000000
                                     Examples.flaky_query Examples.no_archive
                                     2001 2000
    = Some (Done st) /\
    Scanner.buildSegments 2001 (fst (Scanner.scanWindow 2000 1000000))
                          (snd (Scanner.scanWindow 2000 1000000)) 1000
    = Some (Done segs) /\
    Scan.fetches st
    = firstn k (map (fun s => (Scanner.start s, Scanner.length s)) segs) /\
    (k <= List.length segs)%nat.
Proof.
  destruct (sequential_scan_pages "ICP" 8 Examples.watched_hex Examples.no_date
                                  Examples.TO_MS 1000000 Examples.flaky_query
                                  Examples.no_archive 2000 2001
                                  ltac:(lia) ltac:(lia) ltac:(lia))
    as (st & k & segs & Hrun & Hsegs & Hfetches & Hk & _).
  exists st, k, segs. rewrite length_map in Hk.
  split; [exact Hrun|]. split; [exact Hsegs|]. split; [exact Hfetches|exact Hk].
Defined.
